(** * Command channel, terminal emulator and line editor of [rp/src/term.c]

    A shallow embedding of the interrupt-to-main-loop command mailbox
    ([handle_protocol_command] / the critical section of [term_loop]), of the
    VT52 terminal emulator ([termPutChar], [termRenderChar],
    [vt52ProcessSequence], [term_printString]) and of the line editor
    ([termInputChar]), together with the properties the specification states
    about them.

    Conventions.
    - Fixed-width C integers are values of [Z]; every store into a narrower
      type writes its wrap-around out ([u8], [u32]).
    - C arrays are lists, read with [!!] and written with [<[i:=v]>];
      [memcpy], [memmove] and [memset] are the list functions below.
    - [char] is unsigned on the target ABI, so a character converts to the
      integer [0..255] given by its code.
    - The display driver is an external collaborator: every call into it is
      recorded, in order, in a trace. *)

From Stdlib Require Import ZArith Ascii String Lia Bool.
From stdpp Require Import base list.

Local Open Scope Z_scope.

(** ** C library helpers on arrays-as-lists *)

(** [memcpy dst src n]: the first [n] cells of [dst] become those of [src]. *)
Definition memcpy {A} (dst src : list A) (n : nat) : list A :=
  take n src ++ drop n dst.

(** [memset_from start n v buf]: [memset (buf + start, v, n)]. *)
Definition memset_from {A} (start n : nat) (v : A) (buf : list A) : list A :=
  take start buf ++ replicate n v ++ drop (start + n) buf.

(** [memmove_front off n buf]: [memmove (buf, buf + off, n)]. *)
Definition memmove_front {A} (off n : nat) (buf : list A) : list A :=
  take n (drop off buf) ++ drop n buf.

Definition u8 (z : Z) : Z := z mod 256.
Definition u16 (z : Z) : Z := z mod 65536.
Definition u32 (z : Z) : Z := z mod 4294967296.

(** ** The command channel *)

Module Channel.

(** [TransmissionProtocol]: the header fields are [uint16_t]; [payload] is
    the fixed array of [MAX_PROTOCOL_PAYLOAD_SIZE] bytes. *)
Record TransmissionProtocol := mkProtocol {
  command_id : Z;
  payload_size : Z;
  bytes_read : Z;
  final_checksum : Z;
  payload : list Z
}.

(** The file-level statics of the double buffer. *)
Record State := mkState {
  protocolBuffers : list TransmissionProtocol;
  protocolReadIndex : Z;
  protocolWriteIndex : Z;
  protocolBufferReady : bool;
  protocolOverwriteCount : Z
}.

Section WithCapacity.

(** The payload capacity, a macro of the protocol header that is not part
    of the sources at hand. *)
Variable MAX_PROTOCOL_PAYLOAD_SIZE : Z.

(** A zero-initialised record, as [TransmissionProtocol x = {0}] gives. *)
Definition zero_protocol : TransmissionProtocol :=
  mkProtocol 0 0 0 0 (replicate (Z.to_nat MAX_PROTOCOL_PAYLOAD_SIZE) 0).

(** The statics at program start. *)
Definition initial : State :=
  mkState [zero_protocol; zero_protocol] 0 1 false 0.

(** [protocolBuffers[i]]; outside the array the C read is undefined, the
    model then answers the zero record. *)
Definition buffer_at (ch : State) (i : Z) : TransmissionProtocol :=
  default zero_protocol (protocolBuffers ch !! Z.to_nat i).

Definition handle_protocol_command
    (protocol : TransmissionProtocol) (ch : State) : State :=
  let writeIndex := protocolWriteIndex ch in
  let writeBuffer := buffer_at ch writeIndex in
  (* Sanity check: clamp payload_size to avoid overflow *)
  let size := payload_size protocol in
  let size :=
    if MAX_PROTOCOL_PAYLOAD_SIZE <? size
    then u16 MAX_PROTOCOL_PAYLOAD_SIZE else size in
  let writeBuffer :=
    mkProtocol (command_id protocol) (payload_size protocol)
               (bytes_read protocol) (final_checksum protocol)
               (memcpy (payload writeBuffer) (payload protocol)
                       (Z.to_nat size)) in
  let count :=
    if protocolBufferReady ch
    then u32 (protocolOverwriteCount ch + 1)
    else protocolOverwriteCount ch in
  (* Publish by swapping read/write roles. *)
  let readIndex := protocolReadIndex ch in
  mkState (<[Z.to_nat writeIndex := writeBuffer]> (protocolBuffers ch))
          writeIndex readIndex true count.

(** What the critical section of [term_loop] leaves in its three locals. *)
Record Snapshot := mkSnapshot {
  protocolSnapshot : TransmissionProtocol;
  protocolReady : bool;
  overwriteCountSnapshot : Z
}.

(** The critical section of [term_loop]: snapshot the published slot. *)
Definition term_loop_take (ch : State) : Snapshot * State :=
  if protocolBufferReady ch then
    let readIndex := protocolReadIndex ch in
    (mkSnapshot (buffer_at ch readIndex) true (protocolOverwriteCount ch),
     mkState (protocolBuffers ch) (protocolReadIndex ch)
             (protocolWriteIndex ch) false (protocolOverwriteCount ch))
  else
    (mkSnapshot zero_protocol false (protocolOverwriteCount ch), ch).

(** Publishing and then draining, as one observation. *)
Definition publish_then_drain
    (protocol : TransmissionProtocol) (ch : State) : Snapshot :=
  fst (term_loop_take (handle_protocol_command protocol ch)).

(** A run of publishes with no drain in between. *)
Definition publish_all (ps : list TransmissionProtocol) (ch : State) : State :=
  foldl (fun ch p => handle_protocol_command p ch) ch ps.

(** A record object as the decoder hands it over: 16-bit header fields and
    a payload array of the full capacity. *)
Definition wf_protocol (p : TransmissionProtocol) : Prop :=
  0 <= payload_size p < 65536 /\
  length (payload p) = Z.to_nat MAX_PROTOCOL_PAYLOAD_SIZE.

(** The double-buffer invariant: two slots of full capacity, one of them the
    read slot and the other the write slot. *)
Definition wf_state (ch : State) : Prop :=
  length (protocolBuffers ch) = 2%nat /\
  Forall (fun b => length (payload b) = Z.to_nat MAX_PROTOCOL_PAYLOAD_SIZE)
         (protocolBuffers ch) /\
  ((protocolReadIndex ch = 0 /\ protocolWriteIndex ch = 1) \/
   (protocolReadIndex ch = 1 /\ protocolWriteIndex ch = 0)) /\
  0 <= protocolOverwriteCount ch < 4294967296.

(** The number of bytes [memcpy] moves: the payload size, clamped. *)
Definition copied (p : TransmissionProtocol) : nat :=
  Z.to_nat (Z.min (payload_size p) MAX_PROTOCOL_PAYLOAD_SIZE).

End WithCapacity.

(** *** Sample records *)

(** A record announcing nine payload bytes on a channel of capacity eight. *)
Definition oversize_record : TransmissionProtocol :=
  mkProtocol 7 9 9 0 [1; 2; 3; 4; 5; 6; 7; 8].

(** Ten records that differ in their [command_id]. *)
Definition ten_records : list TransmissionProtocol :=
  map (fun i => mkProtocol i 2 2 0 [i; i; 0; 0; 0; 0; 0; 0])
      [1; 2; 3; 4; 5; 6; 7; 8; 9; 10].

End Channel.

(** ** The terminal emulator and the line editor *)

Module Term.

(** The macros of [term.h] that the functions below use.  The header is not
    part of the sources at hand, so the values are left open; every property
    states what it needs of them. *)
Class Config := mkConfig {
  TERM_SCREEN_SIZE_X : Z;
  TERM_SCREEN_SIZE_Y : Z;
  TERM_SCREEN_SIZE : Z;
  TERM_DISPLAY_ROW_BYTES : Z;
  TERM_POS_X : Z;
  TERM_POS_Y : Z;
  TERM_ESC_CHAR : ascii;
  TERM_ESC_BUFFLINE_SIZE : Z;
  TERM_INPUT_BUFFER_SIZE : Z
}.

Definition NUL : ascii := "000"%char.
Definition LF : ascii := "010"%char.
Definition CR : ascii := "013"%char.
Definition BS : ascii := "008"%char.

(** Integer promotion of a [char] (unsigned on the target). *)
Definition char_to_int (c : ascii) : Z := Z.of_N (N_of_ascii c).

(** The cast [(char)z]. *)
Definition char_of_int (z : Z) : ascii := ascii_of_N (Z.to_N (z mod 256)).

(** The characters a [const char *] designates: up to the first NUL. *)
Fixpoint cstr (buf : list ascii) : list ascii :=
  match buf with
  | [] => []
  | c :: rest => if (c =? NUL)%char then [] else c :: cstr rest
  end.

Fixpoint str_eqb (a b : list ascii) : bool :=
  match a, b with
  | [], [] => true
  | x :: a', y :: b' => (x =? y)%char && str_eqb a' b'
  | _, _ => false
  end.

(** [strcmp (a, b) == 0]. *)
Definition strcmp_eq (a b : list ascii) : bool := str_eqb (cstr a) (cstr b).

Definition strlen (a : list ascii) : Z := Z.of_nat (length (cstr a)).

(** Calls into the display driver, in the order they are made. *)
Inductive DisplayCall :=
  | DTermChar (x y : Z) (chr : ascii)
  | DTermCursor (x y : Z)
  | DTermRefresh
  | DScrollupBuffer (blankBytes : Z).

(** The file-level statics of the emulator and the line editor. *)
Record State := mkTerm {
  screen : list ascii;
  cursorX : Z;
  cursorY : Z;
  prevCursorX : Z;
  prevCursorY : Z;
  inputBuffer : list ascii;
  inputLength : Z;
  display : list DisplayCall
}.

Definition set_screen (v : list ascii) (st : State) : State :=
  mkTerm v (cursorX st) (cursorY st) (prevCursorX st) (prevCursorY st)
         (inputBuffer st) (inputLength st) (display st).
Definition set_cursorX (v : Z) (st : State) : State :=
  mkTerm (screen st) v (cursorY st) (prevCursorX st) (prevCursorY st)
         (inputBuffer st) (inputLength st) (display st).
Definition set_cursorY (v : Z) (st : State) : State :=
  mkTerm (screen st) (cursorX st) v (prevCursorX st) (prevCursorY st)
         (inputBuffer st) (inputLength st) (display st).
Definition set_prevCursor (x y : Z) (st : State) : State :=
  mkTerm (screen st) (cursorX st) (cursorY st) x y
         (inputBuffer st) (inputLength st) (display st).
Definition set_input (buf : list ascii) (len : Z) (st : State) : State :=
  mkTerm (screen st) (cursorX st) (cursorY st) (prevCursorX st)
         (prevCursorY st) buf len (display st).
Definition display_call (ev : DisplayCall) (st : State) : State :=
  mkTerm (screen st) (cursorX st) (cursorY st) (prevCursorX st)
         (prevCursorY st) (inputBuffer st) (inputLength st)
         (display st ++ [ev]).

Definition display_termChar (x y : Z) (chr : ascii) : State -> State :=
  display_call (DTermChar x y chr).
Definition display_termCursor (x y : Z) : State -> State :=
  display_call (DTermCursor x y).
Definition display_termRefresh : State -> State :=
  display_call DTermRefresh.

(** A registry entry.  A handler may print and may touch every static of
    the emulator; the registry itself stays as registered. *)
Record Command := mkCommand {
  command : list ascii;
  handler : list ascii -> State -> State
}.

(** One handler invocation: the index of the entry and the argument. *)
Definition Invocation : Type := nat * list ascii.

Inductive EscState := STATE_NORMAL | STATE_ESC.

(** The locals of [term_printString] around the statics: [escBuffer] holds
    the [escLen] bytes accumulated so far. *)
Record Machine := mkMachine {
  state : EscState;
  escBuffer : list ascii;
  term : State
}.

(** [isspace] in the C locale. *)
Definition isspace (c : ascii) : bool :=
  ((c =? " ") || (c =? "009") || (c =? LF) || (c =? "011") ||
   (c =? "012") || (c =? CR))%char.

Fixpoint skip_space (l : list ascii) : list ascii :=
  match l with
  | c :: rest => if isspace c then skip_space rest else l
  | [] => []
  end.

(** A conversion of width [n] accepting the characters [ok]: what it
    stores and what is left of the input. *)
Fixpoint scan_field (ok : ascii -> bool) (n : nat) (l : list ascii)
    : list ascii * list ascii :=
  match n, l with
  | S n', c :: rest =>
      if ok c
      then let '(field, remaining) := scan_field ok n' rest in
           (c :: field, remaining)
      else ([], l)
  | _, _ => ([], l)
  end.

(** [sscanf (input, "%63s %63[^\n]", command, arg)] on zeroed [command]
    and [arg]: a conversion that fails leaves its target empty. *)
Definition sscanf_command_arg (input : list ascii)
    : list ascii * list ascii :=
  match skip_space input with
  | [] => ([], [])
  | start =>
      let '(command, rest) :=
        scan_field (fun c => negb (isspace c)) 63 start in
      let '(arg, _) :=
        scan_field (fun c => negb (c =? LF)%char) 63 (skip_space rest) in
      (command, arg)
  end.

Section WithConfig.

Context {cfg : Config}.

Definition termScrollupBuffer (blankBytes : Z) : State -> State :=
  display_call (DScrollupBuffer blankBytes).

Definition termScrollUp (st : State) : State :=
  let moved :=
    memmove_front (Z.to_nat TERM_SCREEN_SIZE_X)
                  (Z.to_nat (TERM_SCREEN_SIZE - TERM_SCREEN_SIZE_X))
                  (screen st) in
  let blanked :=
    memset_from (Z.to_nat (TERM_SCREEN_SIZE - TERM_SCREEN_SIZE_X))
                (Z.to_nat TERM_SCREEN_SIZE_X) NUL moved in
  termScrollupBuffer TERM_DISPLAY_ROW_BYTES (set_screen blanked st).

(** [cursorY++] followed by the scroll check, shared by the newline branch
    of [termRenderChar] and the wrap branch of [termPutChar]. *)
Definition next_row (st : State) : State :=
  let st := set_cursorY (u8 (cursorY st + 1)) st in
  if TERM_SCREEN_SIZE_Y <=? cursorY st
  then set_cursorY (u8 (TERM_SCREEN_SIZE_Y - 1)) (termScrollUp st)
  else st.

Definition termPutChar (chr : ascii) (st : State) : State :=
  let cell := Z.to_nat (cursorY st * TERM_SCREEN_SIZE_X + cursorX st) in
  let st := set_screen (<[cell := chr]> (screen st)) st in
  let st := display_termChar (cursorX st) (cursorY st) chr st in
  let st := set_cursorX (u8 (cursorX st + 1)) st in
  if TERM_SCREEN_SIZE_X <=? cursorX st
  then next_row (set_cursorX 0 st)
  else st.

Definition termRenderChar (chr : ascii) (st : State) : State :=
  let st := display_termChar (prevCursorX st) (prevCursorY st) " "%char st in
  let st :=
    if ((chr =? LF) || (chr =? CR))%char then next_row (set_cursorX 0 st)
    else if negb (chr =? NUL)%char then termPutChar chr st
    else st in
  let st := display_termCursor (cursorX st) (cursorY st) st in
  set_prevCursor (cursorX st) (cursorY st) st.

(** The body of the clearing loops: zero one cell, blank it on display. *)
Definition clear_cell (posX posY : Z) (st : State) : State :=
  let cell := Z.to_nat (posY * TERM_SCREEN_SIZE_X + posX) in
  display_termChar posX posY " "%char (set_screen (<[cell := NUL]> (screen st)) st).

(** [for (int pos = from; pos < to; pos++) body (pos)]. *)
Definition for_range (from to : Z) (body : Z -> State -> State)
    (st : State) : State :=
  foldl (fun st pos => body pos st) st (seqZ from (to - from)).

Definition vt52ProcessSequence (seq : list ascii) (st : State) : State :=
  if (Z.of_nat (length seq) <? 2) then st else
  let command := nth 1 seq NUL in
  if (command =? "A")%char then
    let st := if 0 <? cursorY st
              then set_cursorY (u8 (cursorY st - 1)) st else st in
    termRenderChar NUL st
  else if (command =? "B")%char then
    let st := if cursorY st <? TERM_SCREEN_SIZE_Y - 1
              then set_cursorY (u8 (cursorY st + 1)) st else st in
    termRenderChar NUL st
  else if (command =? "C")%char then
    let st := if cursorX st <? TERM_SCREEN_SIZE_X - 1
              then set_cursorX (u8 (cursorX st + 1)) st else st in
    termRenderChar NUL st
  else if (command =? "D")%char then
    let st := if 0 <? cursorX st
              then set_cursorX (u8 (cursorX st - 1)) st else st in
    termRenderChar NUL st
  else if (command =? "E")%char then
    let st := termRenderChar NUL (set_cursorY 0 (set_cursorX 0 st)) in
    for_range 0 TERM_SCREEN_SIZE_Y
      (fun posY => for_range 0 TERM_SCREEN_SIZE_X
                     (fun posX => clear_cell posX posY)) st
  else if (command =? "H")%char then
    termRenderChar NUL (set_cursorY 0 (set_cursorX 0 st))
  else if (command =? "J")%char then
    let fromX := cursorX st in
    for_range (cursorY st) TERM_SCREEN_SIZE_Y
      (fun posY => for_range fromX TERM_SCREEN_SIZE_X
                     (fun posX => clear_cell posX posY)) st
  else if (command =? "K")%char then
    let row := cursorY st in
    for_range (cursorX st) TERM_SCREEN_SIZE_X
      (fun posX => clear_cell posX row) st
  else if (command =? "Y")%char then
    if Z.of_nat (length seq) =? 4 then
      let row := char_to_int (nth 2 seq NUL) - TERM_POS_Y in
      let col := char_to_int (nth 3 seq NUL) - TERM_POS_X in
      let st :=
        if (0 <=? row) && (row <? TERM_SCREEN_SIZE_Y) &&
           (0 <=? col) && (col <? TERM_SCREEN_SIZE_X)
        then set_cursorX (u8 col) (set_cursorY (u8 row) st)
        else st in
      termRenderChar NUL st
    else st
  else st.

(** [for (i = 0; i < escLen; i++) termRenderChar (escBuffer[i])]. *)
Definition flush_literal (bytes : list ascii) (st : State) : State :=
  foldl (fun st chr => termRenderChar chr st) st bytes.

(** One turn of the [while] loop of [term_printString]. *)
Definition print_step (chr : ascii) (m : Machine) : Machine :=
  match state m with
  | STATE_NORMAL =>
      if (chr =? TERM_ESC_CHAR)%char
      then mkMachine STATE_ESC [chr] (term m)
      else mkMachine STATE_NORMAL (escBuffer m) (termRenderChar chr (term m))
  | STATE_ESC =>
      let escBuffer := escBuffer m ++ [chr] in
      let escLen := Z.of_nat (length escBuffer) in
      let m :=
        if escLen =? 2 then
          if (nth 1 escBuffer NUL =? "Y")%char
          then mkMachine STATE_ESC escBuffer (term m)
          else mkMachine STATE_NORMAL escBuffer
                         (vt52ProcessSequence escBuffer (term m))
        else if (nth 1 escBuffer NUL =? "Y")%char && (escLen =? 4)
        then mkMachine STATE_NORMAL escBuffer
                       (vt52ProcessSequence escBuffer (term m))
        else mkMachine STATE_ESC escBuffer (term m) in
      if TERM_ESC_BUFFLINE_SIZE <=? escLen
      then mkMachine STATE_NORMAL escBuffer (flush_literal escBuffer (term m))
      else m
  end.

(** The loop: it runs until the terminating NUL. *)
Fixpoint print_loop (str : list ascii) (m : Machine) : Machine :=
  match str with
  | [] => m
  | chr :: rest =>
      if (chr =? NUL)%char then m else print_loop rest (print_step chr m)
  end.

Definition term_printString (str : list ascii) (st : State) : State :=
  let m := print_loop str (mkMachine STATE_NORMAL [] st) in
  let st :=
    match state m with
    | STATE_ESC => flush_literal (escBuffer m) (term m)
    | STATE_NORMAL => term m
    end in
  display_termRefresh st.

(** The first loop over the registry: every entry whose name is the
    command token runs, on the argument. *)
Fixpoint run_matching (i : nat) (commands : list Command)
    (token arg : list ascii) (st : State) : State * list Invocation * bool :=
  match commands with
  | [] => (st, [], false)
  | entry :: rest =>
      if strcmp_eq token (command entry) then
        let '(st', calls, _) :=
          run_matching (S i) rest token arg (handler entry arg st) in
        (st', (i, arg) :: calls, true)
      else run_matching (S i) rest token arg st
  end.

(** The second loop: every entry with an empty name runs, on the input
    buffer itself. *)
Fixpoint run_fallback (i : nat) (commands : list Command) (st : State)
    : State * list Invocation :=
  match commands with
  | [] => (st, [])
  | entry :: rest =>
      if strlen (command entry) =? 0 then
        let line := cstr (inputBuffer st) in
        let '(st', calls) :=
          run_fallback (S i) rest (handler entry line st) in
        (st', (i, line) :: calls)
      else run_fallback (S i) rest st
  end.

(** The tail of the backspace branch: redraw the cursor and refresh. *)
Definition backspace_redraw (st : State) : State :=
  let st := display_termCursor (cursorX st) (cursorY st) st in
  let st := set_prevCursor (cursorX st) (cursorY st) st in
  display_termRefresh st.

(** Erase the cell under the cursor, on screen and on display. *)
Definition backspace_erase (st : State) : State :=
  let cell := Z.to_nat (cursorY st * TERM_SCREEN_SIZE_X + cursorX st) in
  let st := set_screen (<[cell := NUL]> (screen st)) st in
  display_termChar (cursorX st) (cursorY st) " "%char st.

Definition termInputChar (commands : list Command) (chr : ascii)
    (st : State) : State * list Invocation :=
  if (chr =? BS)%char then
    let st := display_termChar (prevCursorX st) (prevCursorY st) " "%char st in
    if 0 <? inputLength st then
      let len := inputLength st - 1 in
      let st := set_input (<[Z.to_nat len := NUL]> (inputBuffer st)) len st in
      if cursorX st =? 0 then
        if 0 <? cursorY st then
          let st := set_cursorY (u8 (cursorY st - 1)) st in
          let st := set_cursorX (u8 (TERM_SCREEN_SIZE_X - 1)) st in
          (backspace_redraw (backspace_erase st), [])
        else
          (* already top-left corner *)
          (st, [])
      else
        let st := set_cursorX (u8 (cursorX st - 1)) st in
        (backspace_redraw (backspace_erase st), [])
    else (backspace_redraw st, [])
  else if ((chr =? LF) || (chr =? CR))%char then
    let st := termRenderChar LF st in
    let '(token, arg) := sscanf_command_arg (cstr (inputBuffer st)) in
    let '(st, matched, commandFound) :=
      run_matching 0 commands token arg st in
    let '(st, fallback) :=
      if negb commandFound && (0 <? strlen token)
      then run_fallback 0 commands st
      else (st, []) in
    let st :=
      set_input (memset_from 0 (Z.to_nat TERM_INPUT_BUFFER_SIZE) NUL
                             (inputBuffer st)) 0 st in
    let st := term_printString [">"; " "]%char st in
    (display_termRefresh st, matched ++ fallback)
  else if inputLength st <? TERM_INPUT_BUFFER_SIZE - 1 then
    let st :=
      set_input (<[Z.to_nat (inputLength st) := chr]> (inputBuffer st))
                (inputLength st + 1) st in
    let st := termRenderChar chr st in
    (display_termRefresh st, [])
  else (st, []).

(** Keystrokes delivered one after the other. *)
Definition type_keys (commands : list Command) (keys : list ascii)
    (st : State) : State * list Invocation :=
  foldl (fun acc chr =>
           let '(st', calls) := termInputChar commands chr (fst acc) in
           (st', snd acc ++ calls))
        (st, []) keys.

(** *** Vocabulary of the properties *)

(** [draws st st']: [st'] comes from [st] by rendering: the line buffer is
    untouched and the display trace grew by calls other than a refresh. *)
Definition draws (st st' : State) : Prop :=
  inputBuffer st' = inputBuffer st /\
  inputLength st' = inputLength st /\
  exists evs, display st' = display st ++ evs /\
              Forall (fun ev => ev <> DTermRefresh) evs.

(** The state a finished [term_printString] hands to the refresh. *)
Definition finish (m : Machine) : State :=
  display_termRefresh
    match state m with
    | STATE_ESC => flush_literal (escBuffer m) (term m)
    | STATE_NORMAL => term m
    end.

(** The command characters [vt52ProcessSequence] knows. *)
Definition recognized : list ascii :=
  ["A"; "B"; "C"; "D"; "E"; "H"; "J"; "K"; "Y"]%char.

(** Two machines that differ at most in the stale accumulator of NORMAL
    mode behave alike. *)
Definition same_mode (m1 m2 : Machine) : Prop :=
  state m1 = state m2 /\ term m1 = term m2 /\
  (state m1 = STATE_ESC -> escBuffer m1 = escBuffer m2).

(** The bytes of [ESC Y <row> <col>] that address [row] and [col]. *)
Definition address_sequence (row col : Z) : list ascii :=
  [TERM_ESC_CHAR; "Y"%char;
   char_of_int (TERM_POS_Y + row); char_of_int (TERM_POS_X + col)].

(** The machine after the characters [l], from NORMAL mode. *)
Definition run (l : list ascii) (st : State) : Machine :=
  foldl (fun m chr => print_step chr m) (mkMachine STATE_NORMAL [] st) l.

Definition in_bounds (st : State) : Prop :=
  0 <= cursorX st < TERM_SCREEN_SIZE_X /\
  0 <= cursorY st < TERM_SCREEN_SIZE_Y.

(** The grid is not empty and fits the [uint8_t] cursor. *)
Definition grid_ok : Prop :=
  0 < TERM_SCREEN_SIZE_X <= 255 /\ 0 < TERM_SCREEN_SIZE_Y <= 255.

(** The screen array has its declared size, at least one row. *)
Definition screen_ok (st : State) : Prop :=
  length (screen st) = Z.to_nat TERM_SCREEN_SIZE /\
  TERM_SCREEN_SIZE_X <= TERM_SCREEN_SIZE.

(** The operations that move the cursor while text is rendered. *)
Inductive Op :=
  | OpPutChar (chr : ascii)
  | OpRenderChar (chr : ascii)
  | OpEscape (seq : list ascii).

Definition run_op (st : State) (op : Op) : State :=
  match op with
  | OpPutChar chr => termPutChar chr st
  | OpRenderChar chr => termRenderChar chr st
  | OpEscape seq => vt52ProcessSequence seq st
  end.

(** The screen one row up, its last row blank. *)
Definition scrolled (scr : list ascii) : list ascii :=
  drop (Z.to_nat TERM_SCREEN_SIZE_X) scr ++
  replicate (Z.to_nat TERM_SCREEN_SIZE_X) NUL.

(** Nothing to skip: the text is over or starts with a visible character. *)
Definition starts_visible (l : list ascii) : Prop :=
  match l with
  | [] => True
  | c :: _ => isspace c = false
  end.

(** The indices, from [i] on, of the registry entries that satisfy [p]. *)
Fixpoint indices_where (p : Command -> bool) (i : nat)
    (commands : list Command) : list nat :=
  match commands with
  | [] => []
  | entry :: rest =>
      if p entry then i :: indices_where p (S i) rest
      else indices_where p (S i) rest
  end.

(** The entries named [token]. *)
Definition named (token : list ascii) (commands : list Command) : list nat :=
  indices_where (fun entry => strcmp_eq token (command entry)) 0 commands.

(** The entries with an empty name: the fallback slot. *)
Definition unnamed (commands : list Command) : list nat :=
  indices_where (fun entry => strlen (command entry) =? 0) 0 commands.

(** A handler that leaves the input buffer alone. *)
Definition keeps_input (entry : Command) : Prop :=
  forall arg st, inputBuffer (handler entry arg st) = inputBuffer st.

(** A key that is neither backspace nor a line end. *)
Definition plain (chr : ascii) : Prop := chr <> BS /\ chr <> LF /\ chr <> CR.

(** The line editor holds [line]: the buffer is [line], zero-filled up to
    its capacity. *)
Definition holds_line (st : State) (line : list ascii) : Prop :=
  inputLength st = Z.of_nat (length line) /\
  inputBuffer st =
    line ++ replicate (Z.to_nat TERM_INPUT_BUFFER_SIZE - length line) NUL.

End WithConfig.

(** *** A sample terminal *)

(** A configuration with the VT52 offsets: 40 columns, 24 rows, escape
    character 27, coordinates biased by 32. *)
Definition vt52_config : Config :=
  {| TERM_SCREEN_SIZE_X := 40;
     TERM_SCREEN_SIZE_Y := 24;
     TERM_SCREEN_SIZE := 960;
     TERM_DISPLAY_ROW_BYTES := 320;
     TERM_POS_X := 32;
     TERM_POS_Y := 32;
     TERM_ESC_CHAR := "027"%char;
     TERM_ESC_BUFFLINE_SIZE := 16;
     TERM_INPUT_BUFFER_SIZE := 256 |}.

(** The statics after [term_clearScreen] and [term_clearInputBuffer]. *)
Definition blank_term : State :=
  mkTerm (replicate 960 NUL) 0 0 0 0 (replicate 256 NUL) 0 [].

(** One character typed, then the cursor sent home by the application. *)
Definition origin_with_text : State :=
  mkTerm (replicate 960 NUL) 0 0 0 0 ("a"%char :: replicate 255 NUL) 1 [].

(** A registry with a [help] entry and a fallback entry. *)
Definition sample_commands : list Command :=
  [ mkCommand (list_ascii_of_string "help") (fun _ => display_termRefresh);
    mkCommand [] (fun _ st => st) ].

(** Text, cursor movements against the top and the left edge, a line feed
    and one more character. *)
Definition sample_ops : list Op :=
  [ OpRenderChar "a"; OpEscape ["027"; "A"]%char; OpEscape ["027"; "D"]%char;
    OpEscape ["027"; "D"]%char; OpRenderChar LF; OpPutChar "b" ]%char.

End Term.

(** ** Interleavings of the producer and the consumer *)

Module ChannelTrace.
Import Channel.

(** What happens to the channel: the interrupt handler publishes a record,
    or the main loop runs the critical section of [term_loop]. *)
Inductive Event :=
  | Publish (p : TransmissionProtocol)
  | Drain.

Section WithCapacity.

Variable MAX_PROTOCOL_PAYLOAD_SIZE : Z.

(** The statics after a run of events, and the snapshots the drains took,
    in order. *)
Fixpoint run_events (evs : list Event) (ch : State) : State * list Snapshot :=
  match evs with
  | [] => (ch, [])
  | Publish p :: rest =>
      run_events rest (handle_protocol_command MAX_PROTOCOL_PAYLOAD_SIZE p ch)
  | Drain :: rest =>
      let '(snapshot, ch) := term_loop_take MAX_PROTOCOL_PAYLOAD_SIZE ch in
      let '(final, snapshots) := run_events rest ch in
      (final, snapshot :: snapshots)
  end.

(** A mailbox of depth one in which the latest record wins: what each
    drain of a run of events is handed. *)
Fixpoint mailbox (pending : option TransmissionProtocol) (evs : list Event)
    : list (option TransmissionProtocol) :=
  match evs with
  | [] => []
  | Publish p :: rest => mailbox (Some p) rest
  | Drain :: rest => pending :: mailbox None rest
  end.

(** The record a drain would find in the channel, if any. *)
Definition pending_record (ch : State) : option TransmissionProtocol :=
  if protocolBufferReady ch
  then Some (buffer_at MAX_PROTOCOL_PAYLOAD_SIZE ch (protocolReadIndex ch))
  else None.

(** [stored] is the record [p] as the channel keeps it: the header and the
    payload bytes the clamped size covers. *)
Definition keeps_record (stored p : TransmissionProtocol) : Prop :=
  command_id stored = command_id p /\
  payload_size stored = payload_size p /\
  bytes_read stored = bytes_read p /\
  final_checksum stored = final_checksum p /\
  take (copied MAX_PROTOCOL_PAYLOAD_SIZE p) (payload stored) =
    take (copied MAX_PROTOCOL_PAYLOAD_SIZE p) (payload p).

(** A snapshot hands over the record [o], or reports that there is none. *)
Definition carries (s : Snapshot) (o : option TransmissionProtocol) : Prop :=
  match o with
  | Some p => protocolReady s = true /\ keeps_record (protocolSnapshot s) p
  | None =>
      protocolReady s = false /\
      protocolSnapshot s = zero_protocol MAX_PROTOCOL_PAYLOAD_SIZE
  end.

(** What the channel holds, seen as the mailbox. *)
Definition holds (ch : State) (o : option TransmissionProtocol) : Prop :=
  match o with
  | Some p =>
      protocolBufferReady ch = true /\
      keeps_record (buffer_at MAX_PROTOCOL_PAYLOAD_SIZE ch (protocolReadIndex ch)) p
  | None => protocolBufferReady ch = false
  end.

Definition wf_event (ev : Event) : Prop :=
  match ev with
  | Publish p => wf_protocol MAX_PROTOCOL_PAYLOAD_SIZE p
  | Drain => True
  end.

End WithCapacity.

(** The number of publishes in a run. *)
Fixpoint publishes (evs : list Event) : Z :=
  match evs with
  | [] => 0
  | Publish _ :: rest => 1 + publishes rest
  | Drain :: rest => publishes rest
  end.

(** The number of snapshots that handed a record over. *)
Fixpoint delivered (snapshots : list Snapshot) : Z :=
  match snapshots with
  | [] => 0
  | s :: rest => (if protocolReady s then 1 else 0) + delivered rest
  end.

(** One when a record waits to be drained, zero otherwise. *)
Definition waiting (ch : State) : Z :=
  if protocolBufferReady ch then 1 else 0.

(** Three publishes around two drains, then two more drains. *)
Definition sample_events : list Event :=
  [ Publish (mkProtocol 1 2 2 0 [1; 1; 0; 0; 0; 0; 0; 0]);
    Drain;
    Publish (mkProtocol 2 2 2 0 [2; 2; 0; 0; 0; 0; 0; 0]);
    Publish (mkProtocol 3 9 9 0 [3; 3; 3; 3; 3; 3; 3; 3]);
    Drain; Drain ].

End ChannelTrace.

(** ** More of the terminal: helpers of the settings commands and of the
    live menu, and the vocabulary of their properties *)

Module TermExtra.
Import Term.

(** *** The line editor seen from outside *)

(** What a key does to the text of the line, for a buffer of [capacity]
    bytes: backspace drops the last character, a line end submits and
    empties the line, any other key is appended while there is room for it
    and for the terminating NUL. *)
Definition edit (capacity : Z) (line : list ascii) (chr : ascii)
    : list ascii :=
  if (chr =? BS)%char then removelast line
  else if ((chr =? LF) || (chr =? CR))%char then []
  else if Z.of_nat (length line) <? capacity - 1 then line ++ [chr]
  else line.

Section WithConfig.

Context {cfg : Config}.

Definition term_clearInputBuffer (st : State) : State :=
  set_input (memset_from 0 (Z.to_nat TERM_INPUT_BUFFER_SIZE) NUL
                         (inputBuffer st)) 0 st.

(** The cell of the screen array under column [x] of row [y]. *)
Definition cell_index (x y : Z) : nat :=
  Z.to_nat (y * TERM_SCREEN_SIZE_X + x).

(** The position of the cursor in reading order. *)
Definition cursor_index (st : State) : Z :=
  cursorY st * TERM_SCREEN_SIZE_X + cursorX st.

(** The screen array covers the grid. *)
Definition screen_full (st : State) : Prop :=
  Z.of_nat (length (screen st)) = TERM_SCREEN_SIZE_X * TERM_SCREEN_SIZE_Y.

(** A character that [term_printString] puts on the screen as it is. *)
Definition printable (chr : ascii) : Prop :=
  chr <> NUL /\ chr <> LF /\ chr <> CR /\ chr <> TERM_ESC_CHAR.

(** Two states that differ at most in the trace of display calls. *)
Definition same_terminal (st1 st2 : State) : Prop :=
  screen st1 = screen st2 /\
  cursorX st1 = cursorX st2 /\ cursorY st1 = cursorY st2 /\
  prevCursorX st1 = prevCursorX st2 /\ prevCursorY st1 = prevCursorY st2 /\
  inputBuffer st1 = inputBuffer st2 /\ inputLength st1 = inputLength st2.

(** *** The update buffer of the live menu *)

(** [snprintf (buffer + offset, remaining, ...)] when the conversions
    produce [output]: as much of [output] as fits before the NUL, and the
    length of all of it as the value returned.  [%s] and [%c] raise no
    encoding error, so the value is never negative. *)
Definition snprintf_at (buffer : list ascii) (offset remaining : Z)
    (output : list ascii) : list ascii * Z :=
  if remaining <=? 0 then (buffer, Z.of_nat (length output))
  else
    let n := Z.to_nat (Z.min (Z.of_nat (length output)) (remaining - 1)) in
    (take (Z.to_nat offset) buffer ++ take n output ++
       NUL :: drop (Z.to_nat offset + n + 1) buffer,
     Z.of_nat (length output)).

(** The bytes [ESC Y <row> <column 0> ESC K] that the format of
    [term_appendMoveAndClearLine] produces. *)
Definition move_and_clear_line (row : Z) : list ascii :=
  ["027"; "Y"; char_of_int (TERM_POS_Y + row); char_of_int TERM_POS_X;
   "027"; "K"]%char.

(** The buffer and the offset after the call. *)
Definition term_appendMoveAndClearLine (buffer : list ascii)
    (bufferSize offset row : Z) : list ascii * Z :=
  if bufferSize <=? offset then (buffer, offset)
  else
    let remaining := bufferSize - offset in
    let '(buffer, written) :=
      snprintf_at buffer offset remaining (move_and_clear_line row) in
    if written <? 0 then (buffer, offset)
    else
      let writeSize := written in
      if remaining <=? writeSize then (buffer, bufferSize - 1)
      else (buffer, offset + writeSize).

Definition term_appendText (buffer : list ascii) (bufferSize offset : Z)
    (text : list ascii) : list ascii * Z :=
  if bufferSize <=? offset then (buffer, offset)
  else
    let remaining := bufferSize - offset in
    let '(buffer, written) :=
      snprintf_at buffer offset remaining (cstr text) in
    if written <? 0 then (buffer, offset)
    else
      let writeSize := written in
      if remaining <=? writeSize then (buffer, bufferSize - 1)
      else (buffer, offset + writeSize).

(** What is appended to an update buffer. *)
Inductive Piece :=
  | MoveAndClearLine (row : Z)
  | Text (text : list ascii).

Definition append_piece (bufferSize : Z) (acc : list ascii * Z) (p : Piece)
    : list ascii * Z :=
  match p with
  | MoveAndClearLine row =>
      term_appendMoveAndClearLine (fst acc) bufferSize (snd acc) row
  | Text text => term_appendText (fst acc) bufferSize (snd acc) text
  end.

(** The bytes a piece stands for. *)
Definition piece_output (p : Piece) : list ascii :=
  match p with
  | MoveAndClearLine row => move_and_clear_line row
  | Text text => cstr text
  end.

(** The buffer and the offset after [output] is appended at an offset
    within the buffer: what fits before the last byte, and a NUL. *)
Definition appended (buffer : list ascii) (bufferSize offset : Z)
    (output : list ascii) : list ascii * Z :=
  let n := Z.min (Z.of_nat (length output)) (bufferSize - offset - 1) in
  (take (Z.to_nat offset) buffer ++ take (Z.to_nat n) output ++
     NUL :: drop (Z.to_nat (offset + n + 1)) buffer,
   offset + n).

(** An update buffer between two calls: the offset is inside the buffer
    and on a NUL. *)
Definition update_buffer_ok (bufferSize : Z) (acc : list ascii * Z) : Prop :=
  Z.of_nat (length (fst acc)) = bufferSize /\
  0 <= snd acc < bufferSize /\
  fst acc !! Z.to_nat (snd acc) = Some NUL.

(** The bytes appended so far. *)
Definition content (acc : list ascii * Z) : list ascii :=
  take (Z.to_nat (snd acc)) (fst acc).

(** *** The live lines of the menu *)

(** The statics of the live menu. *)
Record Menu := mkMenu {
  menuRowSsid : Z;
  menuRowSelect : Z;
  menuRowSd : Z;
  menuPromptRow : Z;
  menuPromptCol : Z;
  menuRowsValid : bool;
  menuPromptValid : bool;
  prevSsidLine : list ascii;
  prevSelectLine : list ascii;
  prevSdLine : list ascii
}.

Definition term_markMenuPromptCursor (menu : Menu) (st : State) : Menu :=
  mkMenu (menuRowSsid menu) (menuRowSelect menu) (menuRowSd menu)
         (cursorY st) (cursorX st) (menuRowsValid menu) true
         (prevSsidLine menu) (prevSelectLine menu) (prevSdLine menu).

Section WithLineSize.

(** [TERM_MENU_LIVE_LINE_MAX] of [term.h]. *)
Variable TERM_MENU_LIVE_LINE_MAX : Z.

(** One line of the update: the row is addressed and cleared, the line is
    written. *)
Definition append_line (update : bool) (row : Z) (line : list ascii)
    (acc : list ascii * Z) : list ascii * Z :=
  if update then
    let '(buffer, offset) :=
      term_appendMoveAndClearLine (fst acc) 512 (snd acc) row in
    term_appendText buffer 512 offset line
  else acc.

(** [term_refreshMenuLiveInfo], given what [term_buildLiveMenuLines]
    returns: the three lines, or [None] for [false]. *)
Definition term_refreshMenuLiveInfo
    (lines : option (list ascii * list ascii * list ascii))
    (menu : Menu) (st : State) : Menu * State :=
  if negb (menuRowsValid menu) then (menu, st)
  else
    match lines with
    | None => (menu, st)
    | Some (ssidLine, selectLine, sdLine) =>
        let updateSsid := negb (strcmp_eq ssidLine (prevSsidLine menu)) in
        let updateSelect :=
          negb (strcmp_eq selectLine (prevSelectLine menu)) in
        let updateSd := negb (strcmp_eq sdLine (prevSdLine menu)) in
        if negb updateSsid && negb updateSelect && negb updateSd
        then (menu, st)
        else
          let acc := (replicate 512 NUL, 0) in
          let acc := append_line updateSsid (menuRowSsid menu) ssidLine acc in
          let acc :=
            append_line updateSelect (menuRowSelect menu) selectLine acc in
          let acc := append_line updateSd (menuRowSd menu) sdLine acc in
          let '(updateBuffer, offset) := acc in
          let '(updateBuffer, offset) :=
            if menuPromptValid menu && (offset <? 512) then
              let remaining := 512 - offset in
              let '(updateBuffer, written) :=
                snprintf_at updateBuffer offset remaining
                  ["027"; "Y"; char_of_int (TERM_POS_Y + menuPromptRow menu);
                   char_of_int (TERM_POS_X + menuPromptCol menu)]%char in
              if 0 <? written then
                let writeSize := written in
                if remaining <=? writeSize then (updateBuffer, 512 - 1)
                else (updateBuffer, offset + writeSize)
              else (updateBuffer, offset)
            else (updateBuffer, offset) in
          let menu :=
            mkMenu (menuRowSsid menu) (menuRowSelect menu) (menuRowSd menu)
                   (menuPromptRow menu) (menuPromptCol menu)
                   (menuRowsValid menu) (menuPromptValid menu)
                   (fst (snprintf_at (prevSsidLine menu) 0
                           TERM_MENU_LIVE_LINE_MAX (cstr ssidLine)))
                   (fst (snprintf_at (prevSelectLine menu) 0
                           TERM_MENU_LIVE_LINE_MAX (cstr selectLine)))
                   (fst (snprintf_at (prevSdLine menu) 0
                           TERM_MENU_LIVE_LINE_MAX (cstr sdLine))) in
          (menu, term_printString updateBuffer st)
    end.

End WithLineSize.

(** The lines fit the arrays [term_buildLiveMenuLines] fills: each is
    shorter than [size]. *)
Definition lines_fit (size : Z)
    (lines : option (list ascii * list ascii * list ascii)) : Prop :=
  match lines with
  | Some (ssidLine, selectLine, sdLine) =>
      strlen ssidLine < size /\ strlen selectLine < size /\
      strlen sdLine < size
  | None => True
  end.

(** The pieces appended for one line of the menu. *)
Definition line_pieces (update : bool) (row : Z) (line : list ascii)
    : list Piece :=
  if update then [MoveAndClearLine row; Text line] else [].

(** The bytes [ESC Y <row> <column>] that put the cursor back at the
    prompt, when the prompt has been marked. *)
Definition prompt_address (menu : Menu) : list ascii :=
  if menuPromptValid menu
  then ["027"; "Y"; char_of_int (TERM_POS_Y + menuPromptRow menu);
        char_of_int (TERM_POS_X + menuPromptCol menu)]%char
  else [].

(** A piece that [term_printString] reads as it was meant: the bytes of
    the address are characters, the text has no control character. *)
Definition piece_ok (p : Piece) : Prop :=
  match p with
  | MoveAndClearLine row =>
      0 < TERM_POS_Y + row < 256 /\ 0 < TERM_POS_X < 256
  | Text text => Forall printable (cstr text)
  end.

(** Two print loops in the same mode over such states. *)
Definition same_machine (m1 m2 : Machine) : Prop :=
  state m1 = state m2 /\ escBuffer m1 = escBuffer m2 /\
  same_terminal (term m1) (term m2).

End WithConfig.

(** *** Arguments of the settings commands *)

(** Strings are modelled by the characters the pointer designates, so the
    NULL tests of the source have no counterpart; a list that ends without
    a NUL reads as a string that ends there. *)

(** The second loop of [term_parseKeyAndTail]: the characters up to the
    first blank or NUL, and what follows them. *)
Fixpoint scan_token (l : list ascii) : list ascii * list ascii :=
  match l with
  | c :: rest =>
      if negb (c =? NUL)%char && negb (isspace c)
      then let '(token, remaining) := scan_token rest in
           (c :: token, remaining)
      else ([], l)
  | [] => ([], [])
  end.

(** [term_parseKeyAndTail (arg, key, keySize, &tail)]: on success the new
    contents of [key] and the tail; [None] stands for [false], which leaves
    [key] and [tail] as they were. *)
Definition term_parseKeyAndTail (arg key : list ascii) (keySize : Z)
    : option (list ascii * list ascii) :=
  if keySize =? 0 then None
  else
    match skip_space arg with
    | [] => None
    | c :: after =>
        if (c =? NUL)%char then None
        else
          let '(token, end_) := scan_token (c :: after) in
          let keyLen := Z.of_nat (length token) in
          if (keyLen =? 0) || (keySize <=? keyLen) then None
          else Some (<[Z.to_nat keyLen := NUL]>
                       (memcpy key token (Z.to_nat keyLen)),
                     skip_space end_)
    end.

(** [strcspn]: the length of the prefix of [s] free of the characters of
    [reject]. *)
Fixpoint strcspn (s reject : list ascii) : nat :=
  match s with
  | c :: rest =>
      if (c =? NUL)%char || existsb (Ascii.eqb c) reject then 0%nat
      else S (strcspn rest reject)
  | [] => 0%nat
  end.

(** [tolower] in the C locale. *)
Definition tolower (c : ascii) : ascii :=
  if (65 <=? char_to_int c) && (char_to_int c <=? 90)
  then char_of_int (char_to_int c + 32) else c.

(** The loop of [term_parseBoolToken] that lowers the token in place. *)
Fixpoint lower_in_place (valueStr : list ascii) : list ascii :=
  match valueStr with
  | c :: rest =>
      if (c =? NUL)%char then valueStr else tolower c :: lower_in_place rest
  | [] => []
  end.

Section WithBoolBuffer.

(** [TERM_BOOL_INPUT_BUFF] of [term.h]. *)
Variable TERM_BOOL_INPUT_BUFF : Z.

(** [term_parseBoolToken (valueToken, &value)]: the value stored, [None]
    for [false]. *)
Definition term_parseBoolToken (valueToken : list ascii) : option bool :=
  let valueLen :=
    Z.of_nat (strcspn valueToken [" "; "009"; CR; LF]%char) in
  if (valueLen =? 0) || (TERM_BOOL_INPUT_BUFF <=? valueLen) then None
  else
    let valueStr :=
      <[Z.to_nat valueLen := NUL]>
        (memcpy (replicate (Z.to_nat TERM_BOOL_INPUT_BUFF) NUL) valueToken
                (Z.to_nat valueLen)) in
    let valueStr := lower_in_place valueStr in
    if strcmp_eq valueStr (list_ascii_of_string "true") ||
       strcmp_eq valueStr (list_ascii_of_string "t") ||
       strcmp_eq valueStr (list_ascii_of_string "1")
    then Some true
    else if strcmp_eq valueStr (list_ascii_of_string "false") ||
            strcmp_eq valueStr (list_ascii_of_string "f") ||
            strcmp_eq valueStr (list_ascii_of_string "0")
    then Some false
    else None.

(** What [term_cmdPutBool] passes to [settings_put_bool] for a key buffer
    of [keySize] zeroed bytes: the key and the value, or nothing when the
    arguments are refused. *)
Definition term_cmdPutBool_request (keySize : Z) (arg : list ascii)
    : option (list ascii * bool) :=
  match term_parseKeyAndTail arg (replicate (Z.to_nat keySize) NUL) keySize
  with
  | Some (key, valueToken) =>
      match term_parseBoolToken valueToken with
      | Some value => Some (cstr key, value)
      | None => None
      end
  | None => None
  end.

End WithBoolBuffer.

(** The characters that end the token of a boolean. *)
Definition ends_bool_token (c : ascii) : Prop :=
  c = NUL \/ c = " "%char \/ c = "009"%char \/ c = CR \/ c = LF.

(** A character of a key: neither NUL nor blank. *)
Definition key_char (c : ascii) : Prop := c <> NUL /\ isspace c = false.

(** The spellings of the two truth values, in lower case. *)
Definition true_words : list (list ascii) :=
  map list_ascii_of_string ["true"; "t"; "1"]%string.

Definition false_words : list (list ascii) :=
  map list_ascii_of_string ["false"; "f"; "0"]%string.

(** The truth value a lower-case word spells, if any. *)
Definition spoken_value (word : list ascii) : option bool :=
  if existsb (str_eqb word) true_words then Some true
  else if existsb (str_eqb word) false_words then Some false
  else None.

(** *** Sample states *)

(** A line buffer with no room left: 255 characters and the NUL. *)
Definition full_line_term : State :=
  mkTerm (replicate 960 NUL) 0 0 0 0
         (replicate 255 "a"%char ++ [NUL]) 255 [].

(** The sample terminal after one key. *)
Definition one_key_term : State :=
  fst (termInputChar (cfg := vt52_config) sample_commands "a"%char
         blank_term).

(** A greeting on the second row, the cursor sent back into the word. *)
Definition greeting_term : State :=
  term_printString (cfg := vt52_config)
    ([LF] ++ list_ascii_of_string "hello" ++
     address_sequence (cfg := vt52_config) 1 2)%list
    blank_term.

(** A menu with its three live rows and the prompt marked, nothing
    remembered yet. *)
Definition sample_menu : Menu :=
  mkMenu 2 3 4 6 2 true true
         (replicate 40 NUL) (replicate 40 NUL) (replicate 40 NUL).

Definition sample_lines : list ascii * list ascii * list ascii :=
  (list_ascii_of_string "SSID      : home (-60 dBm)",
   list_ascii_of_string "SELECT  : Released",
   list_ascii_of_string "SD card   : Not mounted (N/A)").

End TermExtra.

(** ** The SD card ([sdcard.c]) *)

Module Sdcard.

Definition u64 (z : Z) : Z := z mod 18446744073709551616.

Inductive sdcard_status_t :=
  | SDCARD_INIT_OK
  | SDCARD_INIT_ERROR
  | SDCARD_MOUNT_ERROR
  | SDCARD_CREATE_FOLDER_ERROR.

(** The values of the enumeration. *)
Definition status_code (status : sdcard_status_t) : Z :=
  match status with
  | SDCARD_INIT_OK => 0
  | SDCARD_INIT_ERROR => -1
  | SDCARD_MOUNT_ERROR => -2
  | SDCARD_CREATE_FOLDER_ERROR => -3
  end.

Definition NUM_BYTES_PER_SECTOR : Z := 512.
Definition SDCARD_MEGABYTE : Z := 1048576.

(** The two fields of the FatFs object that the accounting reads: the
    number of FAT entries, a 32-bit [DWORD], and the sectors per cluster,
    a 16-bit [WORD]. *)
Record FATFS := mkFATFS {
  n_fatent : Z;
  csize : Z
}.

(** The file-level statics.  [mountedFsPtr] holds the object it points
    to, [None] for [NULL]. *)
Record Statics := mkStatics {
  mountedFsPtr : option FATFS;
  sdMounted : bool
}.

(** What the driver and FatFs answer when they are called: the result of
    [sd_init_driver], the [FRESULT] of [f_mount], of [f_stat] with the
    attributes it stores, of [f_mkdir], and of [f_getfree] with the free
    clusters and the filesystem object it stores. *)
Record Card := mkCard {
  sd_init_driver : bool;
  f_mount : Z;
  f_stat : Z * Z;
  f_mkdir : Z;
  f_getfree : Z * Z * option FATFS
}.

(** The calls [sdcard_initFilesystem] makes, in the order it makes them. *)
Inductive Call :=
  | CallInitDriver
  | CallSetSpiSpeedSettings
  | CallMount
  | CallStat (dir : list ascii)
  | CallMkdir (dir : list ascii).

(** The calls of a complete initialisation that has to create [dir]. *)
Definition all_calls (dir : list ascii) : list Call :=
  [CallInitDriver; CallSetSpiSpeedSettings; CallMount; CallStat dir;
   CallMkdir dir].

(** The arguments [sdcard_initFilesystem] accepts: a filesystem object,
    and a folder name that is there and is not the empty string. *)
Definition valid_arguments (fsPtr : option FATFS)
    (folderName : option (list ascii)) : bool :=
  match fsPtr, folderName with
  | Some _, Some name => negb (nth 0 name Term.NUL =? Term.NUL)%char
  | _, _ => false
  end.

Section WithFatFs.

(** [FR_OK] and [AM_DIR] of FatFs. *)
Variable FR_OK : Z.
Variable AM_DIR : Z.

Definition sdcardInit (card : Card) : sdcard_status_t * list Call :=
  if negb (sd_init_driver card) then (SDCARD_INIT_ERROR, [CallInitDriver])
  else (SDCARD_INIT_OK, [CallInitDriver; CallSetSpiSpeedSettings]).

Definition sdcard_mountFilesystem (card : Card) : Z * list Call :=
  (f_mount card, [CallMount]).

Definition sdcard_dirExist (card : Card) (dir : list ascii)
    : bool * list Call :=
  let '(res, fattrib) := f_stat card in
  ((res =? FR_OK) && negb (Z.land fattrib AM_DIR =? 0), [CallStat dir]).

(** [sdcard_initFilesystem (fsPtr, folderName)]: the status, the statics
    and the calls made. *)
Definition sdcard_initFilesystem (card : Card) (fsPtr : option FATFS)
    (folderName : option (list ascii)) (s : Statics)
    : sdcard_status_t * Statics * list Call :=
  let s := mkStatics None false in
  match fsPtr, folderName with
  | Some fs, Some name =>
      if (nth 0 name Term.NUL =? Term.NUL)%char
      then (SDCARD_INIT_ERROR, s, [])
      else
        let '(sdcardOk, calls) := sdcardInit card in
        match sdcardOk with
        | SDCARD_INIT_OK =>
            let '(fres, mounting) := sdcard_mountFilesystem card in
            let calls := calls ++ mounting in
            if negb (fres =? FR_OK) then (SDCARD_MOUNT_ERROR, s, calls)
            else
              let '(folderExists, looking) := sdcard_dirExist card name in
              let calls := calls ++ looking in
              if negb folderExists then
                let calls := calls ++ [CallMkdir name] in
                if negb (f_mkdir card =? FR_OK)
                then (SDCARD_CREATE_FOLDER_ERROR, s, calls)
                else (SDCARD_INIT_OK, mkStatics (Some fs) true, calls)
              else (SDCARD_INIT_OK, mkStatics (Some fs) true, calls)
        | _ => (SDCARD_INIT_ERROR, s, calls)
        end
  | _, _ => (SDCARD_INIT_ERROR, s, [])
  end.

Definition sdcard_isMounted (s : Statics) : bool :=
  sdMounted s &&
  match mountedFsPtr s with Some _ => true | None => false end.

(** [sdcard_getInfo (fsPtr, &totalSizeMb, &freeSpaceMb)] on variables that
    hold [total0] and [free0]: the two variables afterwards.  The product
    of the total is taken in 32 bits before it is widened.  [None] stands
    for the dereference of a NULL pointer, should [f_getfree] succeed and
    store one. *)
Definition sdcard_getInfo (card : Card) (fsPtr : option FATFS)
    (total0 free0 : Z) : option (Z * Z) :=
  match fsPtr with
  | None => Some (total0, free0)
  | Some _ =>
      let '(res, freClust, fsPtr) := f_getfree card in
      if negb (res =? FR_OK) then Some (0, 0)
      else
        match fsPtr with
        | None => None
        | Some fs =>
            let totalSectors := u32 (u32 (n_fatent fs - 2) * csize fs) in
            let totalSizeMb :=
              u32 (u64 (totalSectors * NUM_BYTES_PER_SECTOR)
                   / SDCARD_MEGABYTE) in
            let freeSpaceBytes :=
              u64 (u64 (freClust * csize fs) * NUM_BYTES_PER_SECTOR) in
            Some (totalSizeMb, u32 (freeSpaceBytes / SDCARD_MEGABYTE))
        end
  end.

(** [sdcard_getMountedInfo (&totalSizeMb, &freeSpaceMb)]: the value
    returned and the two variables. *)
Definition sdcard_getMountedInfo (card : Card) (s : Statics)
    : bool * Z * Z :=
  if negb (sdcard_isMounted s) then (false, 0, 0)
  else
    let '(res, freeClusters, fs) := f_getfree card in
    match fs with
    | None => (false, 0, 0)
    | Some fs =>
        if negb (res =? FR_OK) then (false, 0, 0)
        else
          let totalSectors := u64 (u32 (n_fatent fs - 2) * csize fs) in
          let totalSizeMb :=
            u32 (u64 (totalSectors * NUM_BYTES_PER_SECTOR)
                 / SDCARD_MEGABYTE) in
          let freeSpaceBytes :=
            u64 (u64 (freeClusters * csize fs) * NUM_BYTES_PER_SECTOR) in
          (true, totalSizeMb, u32 (freeSpaceBytes / SDCARD_MEGABYTE))
    end.

End WithFatFs.

(** A filesystem object as FatFs keeps it: at least the two reserved
    entries, a cluster of at least one sector, each within its type. *)
Definition fatfs_ok (fs : FATFS) : Prop :=
  2 <= n_fatent fs < 4294967296 /\ 1 <= csize fs < 65536.

(** A card of 4 GB with clusters of 32 KB, a quarter of them free. *)
Definition sample_fs : FATFS := mkFATFS 131074 64.

Definition sample_card : Card :=
  mkCard true 0 (0, 16) 0 (0, 32768, Some sample_fs).

(** The same card without the folder, and refusing to create it. *)
Definition read_only_card : Card :=
  mkCard true 0 (4, 0) 7 (0, 32768, Some sample_fs).

End Sdcard.

(** ** The SELECT button ([select.c]) *)

Module Select.

(** The statics of [select.c] that the polling functions read or write,
    and what they do to the world.  [reset_cb] and [reset_long_cb] tell
    whether the callback is set; [reads] counts the samples of the pin
    taken so far, [resets] and [long_resets] the calls of the two
    callbacks. *)
Record State := mkSelect {
  selectPressedLatched : bool;
  reset_cb : bool;
  reset_long_cb : bool;
  reads : nat;
  resets : nat;
  long_resets : nat
}.

Definition set_selectPressedLatched (v : bool) (st : State) : State :=
  mkSelect v (reset_cb st) (reset_long_cb st) (reads st) (resets st)
           (long_resets st).

(** [if (reset_cb != NULL) reset_cb ()]. *)
Definition call_reset_cb (st : State) : State :=
  if reset_cb st
  then mkSelect (selectPressedLatched st) (reset_cb st) (reset_long_cb st)
                (reads st) (S (resets st)) (long_resets st)
  else st.

(** [if (reset_long_cb != NULL) reset_long_cb ()]. *)
Definition call_reset_long_cb (st : State) : State :=
  if reset_long_cb st
  then mkSelect (selectPressedLatched st) (reset_cb st) (reset_long_cb st)
                (reads st) (resets st) (S (long_resets st))
  else st.

(** The state after [n] more samples of the pin. *)
Definition sampled (n : nat) (st : State) : State :=
  mkSelect (selectPressedLatched st) (reset_cb st) (reset_long_cb st)
           (n + reads st) (resets st) (long_resets st).

Section WithSignal.

(** The level [gpio_get (SELECT_GPIO)] finds at each read, in the order of
    the reads. *)
Variable gpio : nat -> bool.

Definition select_detectPush (st : State) : bool * State :=
  (gpio (reads st),
   mkSelect (selectPressedLatched st) (reset_cb st) (reset_long_cb st)
            (S (reads st)) (resets st) (long_resets st)).

Definition select_detectStableState (expectedState : bool) (st : State)
    : bool * State :=
  let '(firstSample, st) := select_detectPush st in
  let '(secondSample, st) := select_detectPush st in
  (Bool.eqb firstSample expectedState && Bool.eqb secondSample expectedState,
   st).

Definition select_checkPushReset (st : State) : State :=
  let '(isPressed, st) := select_detectPush st in
  if isPressed && negb (selectPressedLatched st) then
    let '(stable, st) := select_detectStableState true st in
    if negb stable then st
    else call_reset_cb (set_selectPressedLatched true st)
  else if negb isPressed && selectPressedLatched st then
    let '(stable, st) := select_detectStableState false st in
    if stable then set_selectPressedLatched false st else st
  else st.

(** [n] turns of a loop that polls the button. *)
Fixpoint poll (n : nat) (st : State) : State :=
  match n with
  | O => st
  | S n' => poll n' (select_checkPushReset st)
  end.

Section WithDelays.

(** [SELECT_LOOP_DELAY] and [SELECT_LONG_RESET] of [select.h], in
    milliseconds. *)
Variable SELECT_LOOP_DELAY : Z.
Variable SELECT_LONG_RESET : Z.

(** The first loop of [select_waitPush], which runs while the button is
    pressed: the duration counted, whether the press is a long one, and
    the state.  [None] when the loop is still running after [fuel]
    turns. *)
Fixpoint hold_loop (fuel : nat) (press_duration : Z)
    (longPressDetected : bool) (st : State) : option (Z * bool * State) :=
  match fuel with
  | O => None
  | S fuel' =>
      let '(pressed, st) := select_detectPush st in
      if pressed then
        if press_duration <? SELECT_LONG_RESET then
          let press_duration := u32 (press_duration + SELECT_LOOP_DELAY) in
          let longPressDetected :=
            if SELECT_LONG_RESET <=? press_duration then true
            else longPressDetected in
          hold_loop fuel' press_duration longPressDetected st
        else hold_loop fuel' press_duration longPressDetected st
      else Some (press_duration, longPressDetected, st)
  end.

(** The second loop, which runs until the button is stably released. *)
Fixpoint release_loop (fuel : nat) (st : State) : option State :=
  match fuel with
  | O => None
  | S fuel' =>
      let '(stable, st) := select_detectStableState false st in
      if stable then Some st else release_loop fuel' st
  end.

Definition select_waitPush (fuel : nat) (st : State) : option State :=
  let '(stable, st) := select_detectStableState true st in
  if negb stable then Some st
  else
    match hold_loop fuel 0 false st with
    | None => None
    | Some (press_duration, longPressDetected, st) =>
        match release_loop fuel st with
        | None => None
        | Some st =>
            Some (if longPressDetected then call_reset_long_cb st
                  else call_reset_cb st)
        end
    end.

End WithDelays.

End WithSignal.

(** A press of [k] samples after the two of the stability check, taken
    from the first read on, and released for good. *)
Definition press_of (k : nat) (i : nat) : bool := (i <? 2 + k)%nat.

(** A press of eight samples that bounces on its way down and on its way
    up. *)
Definition bouncing_press (i : nat) : bool :=
  match i with
  | 1 | 3 | 4 | 5 | 6 | 7 | 8 | 9 | 10 | 12 => true
  | _ => false
  end%nat.

Definition idle : State := mkSelect false true true 0 0 0.

End Select.

(** ** The dispatch of a line: vocabulary of its properties *)

Module Dispatch.
Import Term TermExtra.

(** The registry entries named [token], in the order of the registry. *)
Definition entries_named (token : list ascii) (commands : list Command)
    : list Command :=
  List.filter (fun entry => strcmp_eq token (command entry)) commands.

(** The entries of the fallback slot, those with an empty name, in the
    order of the registry. *)
Definition fallback_entries (commands : list Command) : list Command :=
  List.filter (fun entry => strlen (command entry) =? 0) commands.

(** The handlers of [entries] called one after the other, each with
    [arg]. *)
Definition invoke_all (entries : list Command) (arg : list ascii)
    (st : State) : State :=
  foldl (fun st entry => handler entry arg st) st entries.

(** The handlers of [entries] called one after the other, each with the
    input buffer: with the string it holds when the call is made. *)
Definition invoke_on_input (entries : list Command) (st : State) : State :=
  foldl (fun st entry => handler entry (cstr (inputBuffer st)) st) st entries.

(** The strings the input buffer holds at these calls. *)
Fixpoint inputs_seen (entries : list Command) (st : State)
    : list (list ascii) :=
  match entries with
  | [] => []
  | entry :: rest =>
      cstr (inputBuffer st)
      :: inputs_seen rest (handler entry (cstr (inputBuffer st)) st)
  end.

Section WithConfig.

Context {cfg : Config}.

(** The end of the newline branch: the input buffer zeroed, the line
    length reset, the prompt printed and the display refreshed. *)
Definition fresh_prompt (st : State) : State :=
  let size := Z.to_nat TERM_INPUT_BUFFER_SIZE in
  display_termRefresh
    (term_printString [">"; " "]%char
       (set_input (replicate size NUL ++ drop size (inputBuffer st)) 0 st)).

End WithConfig.

(** *** Sample registries *)

(** A [help] entry that prints a tag and its argument, and a fallback
    entry that prints its argument. *)
Definition echo_commands : list Command :=
  [ mkCommand (list_ascii_of_string "help")
      (fun arg =>
         term_printString (cfg := vt52_config)
           (list_ascii_of_string "help:" ++ arg));
    mkCommand [] (fun arg => term_printString (cfg := vt52_config) arg) ].

(** Two fallback entries: the first calls [term_clearInputBuffer], the
    second prints its argument. *)
Definition clearing_commands : list Command :=
  [ mkCommand [] (fun _ => term_clearInputBuffer (cfg := vt52_config));
    mkCommand [] (fun arg => term_printString (cfg := vt52_config) arg) ].

End Dispatch.

(** * Properties of the command channel *)

Module ChannelProperties.
Import Channel.

Section WithCapacity.

Variable MAX_PROTOCOL_PAYLOAD_SIZE : Z.
Hypothesis capacity_nonneg : 0 <= MAX_PROTOCOL_PAYLOAD_SIZE.

Local Abbreviation handle := (handle_protocol_command MAX_PROTOCOL_PAYLOAD_SIZE).
Local Abbreviation take_snapshot := (term_loop_take MAX_PROTOCOL_PAYLOAD_SIZE).
Local Abbreviation wf_state := (wf_state MAX_PROTOCOL_PAYLOAD_SIZE).
Local Abbreviation wf_protocol := (wf_protocol MAX_PROTOCOL_PAYLOAD_SIZE).
Local Abbreviation slot := (buffer_at MAX_PROTOCOL_PAYLOAD_SIZE).
Local Abbreviation copied := (copied MAX_PROTOCOL_PAYLOAD_SIZE).

Lemma slot_lookup ch i b :
  protocolBuffers ch !! Z.to_nat i = Some b -> slot ch i = b.
Proof. unfold buffer_at. now intros ->. Qed.

Lemma wf_write_slot ch :
  wf_state ch ->
  exists b, protocolBuffers ch !! Z.to_nat (protocolWriteIndex ch) = Some b /\
            length (payload b) = Z.to_nat MAX_PROTOCOL_PAYLOAD_SIZE.
Proof.
  intros (Hlen & Hall & Hidx & _).
  assert (Hlt : (Z.to_nat (protocolWriteIndex ch) < length (protocolBuffers ch))%nat)
    by (destruct Hidx as [[_ ->] | [_ ->]]; rewrite Hlen; simpl; lia).
  destruct (lookup_lt_is_Some_2 _ _ Hlt) as [b Hb].
  exists b. split; [exact Hb |].
  rewrite Forall_forall in Hall. apply Hall.
  apply list_elem_of_lookup. eauto.
Qed.

(** The clamped copy length, as the code computes it. *)
Lemma clamp_size p :
  wf_protocol p ->
  Z.to_nat (if MAX_PROTOCOL_PAYLOAD_SIZE <? payload_size p
            then u16 MAX_PROTOCOL_PAYLOAD_SIZE else payload_size p)
  = copied p.
Proof.
  intros [Hsz _]. unfold copied, u16.
  destruct (Z.ltb_spec MAX_PROTOCOL_PAYLOAD_SIZE (payload_size p)).
  - rewrite Z.mod_small by lia. f_equal. lia.
  - f_equal. lia.
Qed.

(** One publish, field by field. *)
Lemma handle_fields p ch :
  wf_state ch -> wf_protocol p ->
  let ch' := handle p ch in
  let old := slot ch (protocolWriteIndex ch) in
  let new := slot ch' (protocolReadIndex ch') in
  protocolBufferReady ch' = true /\
  protocolReadIndex ch' = protocolWriteIndex ch /\
  protocolWriteIndex ch' = protocolReadIndex ch /\
  command_id new = command_id p /\
  payload_size new = payload_size p /\
  bytes_read new = bytes_read p /\
  final_checksum new = final_checksum p /\
  payload new = take (copied p) (payload p) ++ drop (copied p) (payload old).
Proof.
  intros Hwf Hp ch' old new.
  destruct (wf_write_slot ch Hwf) as (b & Hb & _).
  assert (Hnew : new = mkProtocol (command_id p) (payload_size p)
                        (bytes_read p) (final_checksum p)
                        (memcpy (payload old) (payload p) (copied p))).
  { subst new ch' old. unfold handle_protocol_command; cbn [protocolReadIndex].
    rewrite (clamp_size p Hp).
    apply slot_lookup; cbn [protocolBuffers].
    apply list_lookup_insert_eq. eapply lookup_lt_Some; eauto. }
  rewrite Hnew. cbn. repeat split; reflexivity.
Qed.

Lemma handle_count p ch :
  protocolOverwriteCount (handle p ch) =
  if protocolBufferReady ch
  then u32 (protocolOverwriteCount ch + 1)
  else protocolOverwriteCount ch.
Proof. reflexivity. Qed.

Lemma handle_wf p ch :
  wf_state ch -> wf_protocol p -> wf_state (handle p ch).
Proof.
  intros Hwf Hp.
  destruct (wf_write_slot ch Hwf) as (b & Hb & Hblen).
  pose proof Hwf as (Hlen & Hall & Hidx & Hcnt).
  destruct Hp as [Hsz Hplen].
  unfold Channel.wf_state, handle_protocol_command; cbn.
  repeat split.
  - now rewrite length_insert.
  - apply Forall_insert; [exact Hall |]. cbn. unfold memcpy.
    rewrite length_app, length_take, length_drop.
    rewrite (slot_lookup _ _ _ Hb). lia.
  - tauto.
  - destruct (protocolBufferReady ch); [apply Z.mod_pos_bound |]; lia.
  - destruct (protocolBufferReady ch); [apply Z.mod_pos_bound |]; lia.
Qed.

Lemma take_after_handle p ch :
  take_snapshot (handle p ch) =
  (let ch' := handle p ch in
   (mkSnapshot (slot ch' (protocolReadIndex ch')) true
               (protocolOverwriteCount ch'),
    mkState (protocolBuffers ch') (protocolReadIndex ch')
            (protocolWriteIndex ch') false (protocolOverwriteCount ch'))).
Proof. reflexivity. Qed.

(** Publishes that arrive while a record is still waiting: every one of
    them is counted. *)
Lemma publish_all_ready_count ps : forall ch,
  protocolBufferReady ch = true ->
  protocolOverwriteCount (publish_all MAX_PROTOCOL_PAYLOAD_SIZE ps ch) =
  u32 (protocolOverwriteCount ch + Z.of_nat (length ps)) \/
  (ps = [] /\
   protocolOverwriteCount (publish_all MAX_PROTOCOL_PAYLOAD_SIZE ps ch) =
   protocolOverwriteCount ch).
Proof.
  induction ps as [| p ps IH]; intros ch Hready.
  - right. split; reflexivity.
  - left. cbn [publish_all foldl].
    destruct (IH (handle p ch) eq_refl) as [Hc | [-> Hc]];
      unfold publish_all in Hc |- *; rewrite Hc, handle_count, Hready.
    + unfold u32. rewrite Zplus_mod_idemp_l. f_equal.
      rewrite length_cons. lia.
    + reflexivity.
Qed.

Lemma publish_all_wf ps : forall ch,
  wf_state ch -> Forall wf_protocol ps ->
  wf_state (publish_all MAX_PROTOCOL_PAYLOAD_SIZE ps ch).
Proof.
  induction ps as [| p ps IH]; intros ch Hwf Hps; [exact Hwf |].
  apply Forall_cons in Hps as [Hp Hps].
  apply IH; [apply handle_wf |]; assumption.
Qed.

Lemma publish_all_snoc ps p ch :
  publish_all MAX_PROTOCOL_PAYLOAD_SIZE (ps ++ [p]) ch =
  handle p (publish_all MAX_PROTOCOL_PAYLOAD_SIZE ps ch).
Proof. unfold publish_all. now rewrite foldl_app. Qed.

(** C1 (as the code has it).  Publishing a well-formed record into the
    channel and draining it gives back a record with the same [command_id],
    [payload_size], [bytes_read] and [final_checksum].  The header field
    [payload_size] is stored verbatim, also above the capacity; only the
    number of payload bytes copied is clamped: for a size [S] within the
    capacity the first [S] payload bytes are those published (the bytes
    behind them are what the slot held before), for a larger size the
    payload is the first [MAX_PROTOCOL_PAYLOAD_SIZE] bytes published. *)
Theorem publish_drain_roundtrip (p : TransmissionProtocol) (ch : State) :
  wf_state ch -> wf_protocol p ->
  let got := publish_then_drain MAX_PROTOCOL_PAYLOAD_SIZE p ch in
  let out := protocolSnapshot got in
  let n := Z.to_nat (payload_size p) in
  protocolReady got = true /\
  command_id out = command_id p /\
  payload_size out = payload_size p /\
  bytes_read out = bytes_read p /\
  final_checksum out = final_checksum p /\
  (payload_size p <= MAX_PROTOCOL_PAYLOAD_SIZE ->
     take n (payload out) = take n (payload p) /\
     drop n (payload out) =
       drop n (payload (slot ch (protocolWriteIndex ch)))) /\
  (MAX_PROTOCOL_PAYLOAD_SIZE < payload_size p ->
     payload out = take (Z.to_nat MAX_PROTOCOL_PAYLOAD_SIZE) (payload p)).
Proof.
  intros Hwf Hp got out n.
  destruct (handle_fields p ch Hwf Hp)
    as (_ & _ & _ & Hid & Hsz & Hrd & Hck & Hpay).
  destruct (wf_write_slot ch Hwf) as (b & Hb & Hblen).
  pose proof Hp as [Hrange Hplen].
  subst got out. unfold publish_then_drain. rewrite take_after_handle.
  cbn [fst protocolSnapshot protocolReady].
  repeat split; try assumption.
  - subst n. rewrite Hpay. unfold copied. rewrite Z.min_l by lia.
    rewrite take_app_le. 2:{ rewrite length_take. lia. }
    rewrite take_take. f_equal. lia.
  - subst n. rewrite Hpay. unfold copied. rewrite Z.min_l by lia.
    rewrite drop_app_ge by (rewrite length_take; lia).
    rewrite length_take, drop_drop. f_equal. lia.
  - intros Hbig. rewrite Hpay. unfold copied. rewrite Z.min_r by lia.
    rewrite (slot_lookup _ _ _ Hb).
    rewrite (drop_ge (payload b)) by lia. now rewrite app_nil_r.
Qed.

(** C2.  Ten publishes in a row into a drained channel, with no drain in
    between: the next drain finds a record, and it is the last one
    published; a second drain finds nothing, so exactly one record was
    available; the overwrite counter has advanced by nine (modulo 2^32), so
    it reads 9 on a channel whose counter was 0.  On every publish the
    counter moves exactly when the ready flag was still set. *)
Theorem ten_publishes_one_record
    (ps : list TransmissionProtocol) (ch : State) :
  wf_state ch -> Forall wf_protocol ps ->
  protocolBufferReady ch = false ->
  length ps = 10%nat ->
  let ch' := publish_all MAX_PROTOCOL_PAYLOAD_SIZE ps ch in
  let first := take_snapshot ch' in
  let second := take_snapshot (snd first) in
  let out := protocolSnapshot (fst first) in
  (protocolReady (fst first) = true /\
   exists p, last ps = Some p /\
     command_id out = command_id p /\
     payload_size out = payload_size p /\
     bytes_read out = bytes_read p /\
     final_checksum out = final_checksum p /\
     take (copied p) (payload out) = take (copied p) (payload p)) /\
  protocolReady (fst second) = false /\
  overwriteCountSnapshot (fst first) = u32 (protocolOverwriteCount ch + 9) /\
  (protocolOverwriteCount ch = 0 -> overwriteCountSnapshot (fst first) = 9) /\
  (forall q c, protocolOverwriteCount (handle q c) =
               if protocolBufferReady c
               then u32 (protocolOverwriteCount c + 1)
               else protocolOverwriteCount c).
Proof.
  intros Hwf Hps Hready Hlen ch' first second out.
  destruct (exists_last (l := ps)) as (qs & p & Heq);
    [ intros ->; discriminate |].
  assert (Hch' : ch' = handle p (publish_all MAX_PROTOCOL_PAYLOAD_SIZE qs ch))
    by (subst ch'; rewrite Heq; apply publish_all_snoc).
  assert (Hqs : Forall wf_protocol qs /\ wf_protocol p).
  { rewrite Heq in Hps. apply Forall_app in Hps as [H1 H2].
    split; [exact H1 | now apply Forall_cons in H2 as [H2 _]]. }
  destruct Hqs as [Hqs Hp].
  pose proof (publish_all_wf qs ch Hwf Hqs) as Hwfq.
  destruct (handle_fields p _ Hwfq Hp)
    as (_ & _ & _ & Hid & Hsz & Hrd & Hck & Hpay).
  assert (Hcount : protocolOverwriteCount ch' =
                   u32 (protocolOverwriteCount ch + 9)).
  { subst ch'. destruct ps as [| p0 ps']; [discriminate |].
    cbn [publish_all foldl].
    destruct (publish_all_ready_count ps' (handle p0 ch) eq_refl)
      as [Hc | [-> _]]; [| discriminate].
    unfold publish_all in Hc. rewrite Hc, handle_count, Hready.
    do 2 f_equal. rewrite length_cons in Hlen. lia. }
  subst first second out. rewrite Hch', take_after_handle, <- Hch'.
  cbn [fst snd protocolSnapshot protocolReady overwriteCountSnapshot].
  split; [split; [reflexivity |] |].
  - exists p. rewrite Heq, last_snoc. rewrite Hch'.
    repeat split; try assumption.
    destruct Hp as [_ Hplen].
    rewrite Hpay, take_app_le by (rewrite length_take; unfold copied; lia).
    now rewrite take_take, Nat.min_id.
  - split; [reflexivity |]. split; [exact Hcount |].
    split; [| intros q c; apply handle_count].
    intros H0. rewrite Hcount, H0. reflexivity.
Qed.

End WithCapacity.

Lemma initial_wf : wf_state 8 (initial 8).
Proof.
  unfold wf_state; cbn.
  split; [reflexivity |]. split; [repeat constructor |].
  split; [now left | lia].
Qed.

Lemma oversize_record_wf : wf_protocol 8 oversize_record.
Proof. unfold wf_protocol; cbn. split; [lia | reflexivity]. Qed.

Lemma ten_records_wf : Forall (wf_protocol 8) ten_records.
Proof. repeat constructor; cbn; lia. Qed.

(** The round trip as the specification words it fails: a size above
    the capacity comes back unclamped. *)
Lemma oversize_payload_size_not_clamped :
  wf_state 8 (initial 8) /\ wf_protocol 8 oversize_record /\
  8 < payload_size oversize_record /\
  payload_size
    (protocolSnapshot (publish_then_drain 8 oversize_record (initial 8))) = 9 /\
  payload_size
    (protocolSnapshot (publish_then_drain 8 oversize_record (initial 8))) <> 8.
Proof.
  split; [exact initial_wf |]. split; [exact oversize_record_wf |].
  split; [reflexivity |]. split; [reflexivity |].
  intros H. vm_compute in H. discriminate H.
Qed.

Lemma publish_drain_roundtrip_witness :
  let out := protocolSnapshot (publish_then_drain 8 oversize_record (initial 8)) in
  command_id out = 7 /\ payload_size out = 9 /\
  payload out = [1; 2; 3; 4; 5; 6; 7; 8].
Proof.
  pose proof (publish_drain_roundtrip 8 ltac:(lia) oversize_record (initial 8)
                initial_wf oversize_record_wf) as H.
  cbv zeta in H. destruct H as (_ & Hid & Hsz & _ & _ & _ & Hbig).
  split; [exact Hid |]. split; [exact Hsz |].
  rewrite Hbig by (cbn; lia). reflexivity.
Defined.

Lemma ten_publishes_one_record_witness :
  let first := term_loop_take 8 (publish_all 8 ten_records (initial 8)) in
  protocolReady (fst first) = true /\
  overwriteCountSnapshot (fst first) = 9 /\
  protocolReady (fst (term_loop_take 8 (snd first))) = false.
Proof.
  pose proof (ten_publishes_one_record 8 ltac:(lia) ten_records (initial 8)
                initial_wf ten_records_wf eq_refl eq_refl) as H.
  cbv zeta in H. destruct H as ((Hr & _) & Hsecond & _ & Hnine & _).
  split; [exact Hr |]. split; [apply Hnine; reflexivity | exact Hsecond].
Defined.

End ChannelProperties.

(** * Properties of the terminal emulator and the line editor *)

Module TermProperties.
Import Term.

(** ** Strings *)

Lemma str_eqb_eq a b : str_eqb a b = true <-> a = b.
Proof.
  revert b; induction a as [| x a IH]; intros [| y b]; cbn; try easy.
  rewrite andb_true_iff, Ascii.eqb_eq, IH.
  split; [intros [-> ->]; reflexivity | intros [= -> ->]; easy].
Qed.

Lemma cstr_app_nul s k :
  Forall (fun c => c <> NUL) s -> cstr (s ++ replicate k NUL) = s.
Proof.
  induction 1 as [| c s Hc _ IH]; cbn.
  - destruct k; reflexivity.
  - destruct (Ascii.eqb_spec c NUL); [contradiction | now rewrite IH].
Qed.

Lemma cstr_nul_free s : Forall (fun c => c <> NUL) s -> cstr s = s.
Proof.
  intros H. rewrite <- (cstr_app_nul s 0 H) at 2. cbn. now rewrite app_nil_r.
Qed.

Lemma cstr_idemp s : cstr (cstr s) = cstr s.
Proof.
  induction s as [| c s IH]; cbn; [reflexivity |].
  destruct (Ascii.eqb_spec c NUL) as [| Hc]; cbn; [reflexivity |].
  destruct (Ascii.eqb_spec c NUL); [contradiction | now rewrite IH].
Qed.

Section WithConfig.

Context {cfg : Config}.

(** ** What rendering leaves alone *)

Lemma draws_refl st : draws st st.
Proof.
  repeat split. exists []. split; [now rewrite app_nil_r | constructor].
Qed.

Lemma draws_trans st1 st2 st3 : draws st1 st2 -> draws st2 st3 -> draws st1 st3.
Proof.
  intros (Hb1 & Hl1 & e1 & Hd1 & Hf1) (Hb2 & Hl2 & e2 & Hd2 & Hf2).
  repeat split; [congruence | congruence |].
  exists (e1 ++ e2). split.
  - now rewrite Hd2, Hd1, app_assoc.
  - now apply Forall_app.
Qed.

Lemma draws_call ev st : ev <> DTermRefresh -> draws st (display_call ev st).
Proof.
  intros Hev. repeat split. exists [ev]. split; [reflexivity |].
  now constructor.
Qed.

Lemma draws_set_screen v st : draws st (set_screen v st).
Proof.
  repeat split. exists []. cbn. split; [now rewrite app_nil_r | constructor].
Qed.

Lemma draws_set_cursorX v st : draws st (set_cursorX v st).
Proof.
  repeat split. exists []. cbn. split; [now rewrite app_nil_r | constructor].
Qed.

Lemma draws_set_cursorY v st : draws st (set_cursorY v st).
Proof.
  repeat split. exists []. cbn. split; [now rewrite app_nil_r | constructor].
Qed.

Lemma draws_set_prevCursor x y st : draws st (set_prevCursor x y st).
Proof.
  repeat split. exists []. cbn. split; [now rewrite app_nil_r | constructor].
Qed.

(** Chains of rendering steps. *)
Ltac draws_chain :=
  repeat first
    [ apply draws_refl
    | apply draws_set_screen | apply draws_set_cursorX
    | apply draws_set_cursorY | apply draws_set_prevCursor
    | apply draws_call; discriminate
    | assumption
    | eapply draws_trans; [| first
        [ apply draws_set_screen | apply draws_set_cursorX
        | apply draws_set_cursorY | apply draws_set_prevCursor
        | apply draws_call; discriminate ] ] ].

Lemma draws_termScrollUp st : draws st (termScrollUp st).
Proof.
  unfold termScrollUp, termScrollupBuffer. draws_chain.
Qed.

Lemma draws_next_row st : draws st (next_row st).
Proof.
  unfold next_row.
  destruct (_ <=? _).
  - eapply draws_trans; [| apply draws_set_cursorY].
    eapply draws_trans; [| apply draws_termScrollUp]. draws_chain.
  - draws_chain.
Qed.

Lemma draws_termPutChar chr st : draws st (termPutChar chr st).
Proof.
  unfold termPutChar, display_termChar.
  destruct (_ <=? _).
  - eapply draws_trans; [| apply draws_next_row]. draws_chain.
  - draws_chain.
Qed.

Lemma draws_termRenderChar chr st : draws st (termRenderChar chr st).
Proof.
  unfold termRenderChar, display_termChar, display_termCursor.
  eapply draws_trans; [| apply draws_set_prevCursor].
  eapply draws_trans; [| apply draws_call; discriminate].
  destruct (_ || _)%bool; [| destruct (negb _)].
  - eapply draws_trans; [| apply draws_next_row]. draws_chain.
  - eapply draws_trans; [| apply draws_termPutChar]. draws_chain.
  - draws_chain.
Qed.

Lemma draws_clear_cell posX posY st : draws st (clear_cell posX posY st).
Proof. unfold clear_cell, display_termChar. draws_chain. Qed.

(** Whatever every turn of a loop preserves, the loop preserves. *)
Lemma for_range_preserves (P : State -> Prop) from to body st :
  (forall pos s, P s -> P (body pos s)) -> P st ->
  P (for_range from to body st).
Proof.
  intros Hbody. unfold for_range.
  generalize (seqZ from (to - from)) as l. intros l; revert st.
  induction l as [| pos l IH]; intros st Hst; cbn; [exact Hst |].
  apply IH, Hbody, Hst.
Qed.

Lemma draws_for_range from to body st0 st :
  (forall pos s, draws s (body pos s)) ->
  draws st0 st -> draws st0 (for_range from to body st).
Proof.
  intros Hbody. apply for_range_preserves.
  intros pos s Hs. eapply draws_trans; [exact Hs | apply Hbody].
Qed.

Lemma draws_clear_rows fromY fromX st :
  draws st (for_range fromY TERM_SCREEN_SIZE_Y
              (fun posY => for_range fromX TERM_SCREEN_SIZE_X
                             (fun posX => clear_cell posX posY)) st).
Proof.
  apply draws_for_range; [| apply draws_refl].
  intros posY s. apply draws_for_range; [| apply draws_refl].
  intros posX s'. apply draws_clear_cell.
Qed.

Lemma draws_vt52ProcessSequence seq st : draws st (vt52ProcessSequence seq st).
Proof.
  unfold vt52ProcessSequence. cbv zeta.
  repeat match goal with
         | |- draws _ (if ?b then _ else _) => destruct b
         end;
    try apply draws_refl;
    try apply draws_clear_rows;
    try (eapply draws_trans; [| apply draws_clear_rows]);
    try (eapply draws_trans; [| apply draws_termRenderChar];
         repeat match goal with
                | |- draws _ (if ?b then _ else _) => destruct b
                end; draws_chain).
  apply draws_for_range; [| apply draws_refl].
  intros posX s. apply draws_clear_cell.
Qed.

Lemma draws_flush_literal bytes : forall st, draws st (flush_literal bytes st).
Proof.
  induction bytes as [| chr bytes IH]; intros st; cbn; [apply draws_refl |].
  eapply draws_trans; [apply draws_termRenderChar | apply IH].
Qed.

Lemma draws_print_step chr m : draws (term m) (term (print_step chr m)).
Proof.
  unfold print_step. destruct (state m).
  - destruct (_ =? _)%char; cbn; [apply draws_refl | apply draws_termRenderChar].
  - cbv zeta.
    destruct (TERM_ESC_BUFFLINE_SIZE <=? _); cbn [term].
    + eapply draws_trans; [| apply draws_flush_literal].
      repeat match goal with
             | |- draws _ (term (if ?b then _ else _)) => destruct b
             end; cbn [term];
        first [apply draws_refl | apply draws_vt52ProcessSequence].
    + repeat match goal with
             | |- draws _ (term (if ?b then _ else _)) => destruct b
             end; cbn [term];
        first [apply draws_refl | apply draws_vt52ProcessSequence].
Qed.

Lemma draws_print_loop str : forall m, draws (term m) (term (print_loop str m)).
Proof.
  induction str as [| chr str IH]; intros m; cbn; [apply draws_refl |].
  destruct (chr =? NUL)%char; [apply draws_refl |].
  eapply draws_trans; [apply draws_print_step | apply IH].
Qed.

Lemma term_printString_finish str st :
  term_printString str st = finish (print_loop str (mkMachine STATE_NORMAL [] st)).
Proof. reflexivity. Qed.

Lemma draws_before_refresh str st :
  exists st', term_printString str st = display_termRefresh st' /\ draws st st'.
Proof.
  rewrite term_printString_finish. unfold finish.
  pose proof (draws_print_loop str (mkMachine STATE_NORMAL [] st)) as H.
  cbn [term] in H. eexists. split; [reflexivity |].
  destruct (state _); [exact H |].
  eapply draws_trans; [exact H | apply draws_flush_literal].
Qed.

(** ** The escape state machine, one step at a time *)

Lemma char_to_int_of_int z :
  0 <= z < 256 -> char_to_int (char_of_int z) = z.
Proof.
  intros Hz. unfold char_to_int, char_of_int.
  rewrite Z.mod_small by lia.
  rewrite N_ascii_embedding by lia. lia.
Qed.

Lemma char_of_int_not_NUL z : 0 < z < 256 -> char_of_int z <> NUL.
Proof.
  intros Hz Heq. apply (f_equal char_to_int) in Heq.
  rewrite char_to_int_of_int in Heq by lia.
  change (char_to_int NUL) with 0 in Heq. lia.
Qed.

Lemma print_loop_cons chr rest m :
  chr <> NUL -> print_loop (chr :: rest) m = print_loop rest (print_step chr m).
Proof.
  intros Hc. cbn. now destruct (Ascii.eqb_spec chr NUL).
Qed.

Lemma print_loop_cstr str : forall m,
  print_loop str m = foldl (fun m chr => print_step chr m) m (cstr str).
Proof.
  induction str as [| chr str IH]; intros m; cbn; [reflexivity |].
  destruct (chr =? NUL)%char; cbn; [reflexivity | apply IH].
Qed.

(** Evaluate the length of an explicit accumulator. *)
Ltac eval_lengths :=
  cbn [length app nth];
  repeat match goal with
         | |- context [Z.of_nat ?n] =>
             let v := eval vm_compute in (Z.of_nat n) in
             change (Z.of_nat n) with v
         end.

Lemma print_step_start buf st :
  print_step TERM_ESC_CHAR (mkMachine STATE_NORMAL buf st) =
  mkMachine STATE_ESC [TERM_ESC_CHAR] st.
Proof. unfold print_step; cbn. now rewrite Ascii.eqb_refl. Qed.

Lemma print_step_command e c st :
  2 < TERM_ESC_BUFFLINE_SIZE -> c <> "Y"%char ->
  print_step c (mkMachine STATE_ESC [e] st) =
  mkMachine STATE_NORMAL [e; c] (vt52ProcessSequence [e; c] st).
Proof.
  intros Hsize Hc. unfold print_step; cbn; eval_lengths.
  apply Ascii.eqb_neq in Hc. rewrite Hc.
  destruct (Z.leb_spec TERM_ESC_BUFFLINE_SIZE 2); [lia | reflexivity].
Qed.

Lemma print_step_address_1 e st :
  2 < TERM_ESC_BUFFLINE_SIZE ->
  print_step "Y" (mkMachine STATE_ESC [e] st) =
  mkMachine STATE_ESC [e; "Y"%char] st.
Proof.
  intros Hsize. unfold print_step; cbn; eval_lengths.
  destruct (Z.leb_spec TERM_ESC_BUFFLINE_SIZE 2); [lia | reflexivity].
Qed.

Lemma print_step_address_2 e r st :
  3 < TERM_ESC_BUFFLINE_SIZE ->
  print_step r (mkMachine STATE_ESC [e; "Y"%char] st) =
  mkMachine STATE_ESC [e; "Y"%char; r] st.
Proof.
  intros Hsize. unfold print_step; cbn; eval_lengths.
  destruct (Z.leb_spec TERM_ESC_BUFFLINE_SIZE 3); [lia | reflexivity].
Qed.

Lemma print_step_address_3 e r c st :
  4 < TERM_ESC_BUFFLINE_SIZE ->
  print_step c (mkMachine STATE_ESC [e; "Y"%char; r] st) =
  mkMachine STATE_NORMAL [e; "Y"%char; r; c]
            (vt52ProcessSequence [e; "Y"%char; r; c] st).
Proof.
  intros Hsize. unfold print_step; cbn; eval_lengths.
  destruct (Z.leb_spec TERM_ESC_BUFFLINE_SIZE 4); [lia | reflexivity].
Qed.

Lemma termRenderChar_NUL st :
  termRenderChar NUL st =
  set_prevCursor (cursorX st) (cursorY st)
    (display_termCursor (cursorX st) (cursorY st)
       (display_termChar (prevCursorX st) (prevCursorY st) " " st)).
Proof. reflexivity. Qed.

Lemma vt52_unrecognized e c st :
  ~ In c recognized -> vt52ProcessSequence [e; c] st = st.
Proof.
  intros Hc. unfold vt52ProcessSequence. eval_lengths.
  change (2 <? 2) with false. cbv iota zeta.
  repeat match goal with
         | |- context [(c =? ?k)%char] =>
             destruct (Ascii.eqb_spec c k) as [-> |];
               [exfalso; apply Hc; cbn; tauto |]
         end.
  reflexivity.
Qed.

Lemma vt52_direct_address e r c st :
  vt52ProcessSequence [e; "Y"%char; r; c] st =
  let row := char_to_int r - TERM_POS_Y in
  let col := char_to_int c - TERM_POS_X in
  termRenderChar NUL
    (if (0 <=? row) && (row <? TERM_SCREEN_SIZE_Y) &&
        (0 <=? col) && (col <? TERM_SCREEN_SIZE_X)
     then set_cursorX (u8 col) (set_cursorY (u8 row) st)
     else st).
Proof. reflexivity. Qed.

Lemma same_mode_step chr m1 m2 :
  same_mode m1 m2 -> same_mode (print_step chr m1) (print_step chr m2).
Proof.
  destruct m1 as [s1 b1 t1], m2 as [s2 b2 t2].
  intros (Hs & Ht & Hb); cbn in Hs, Ht, Hb. subst s2 t2.
  destruct s1.
  - unfold print_step; cbn. destruct (_ =? _)%char; now repeat split.
  - rewrite (Hb eq_refl). now repeat split.
Qed.

Lemma same_mode_loop str : forall m1 m2,
  same_mode m1 m2 -> same_mode (print_loop str m1) (print_loop str m2).
Proof.
  induction str as [| chr str IH]; intros m1 m2 H; cbn; [exact H |].
  destruct (chr =? NUL)%char; [exact H |].
  apply IH, same_mode_step, H.
Qed.

Lemma same_mode_finish m1 m2 : same_mode m1 m2 -> finish m1 = finish m2.
Proof.
  intros (Hs & Ht & Hb). unfold finish. rewrite <- Hs, <- Ht.
  destruct (state m1); [reflexivity |]. now rewrite (Hb eq_refl).
Qed.

(** Text that follows a completed sequence is printed as by a call of its
    own on the state the sequence left. *)
Lemma print_after_normal str buf st :
  finish (print_loop str (mkMachine STATE_NORMAL buf st)) =
  term_printString str st.
Proof.
  rewrite term_printString_finish.
  apply same_mode_finish, same_mode_loop. now repeat split.
Qed.

(** ** Printing strings *)

(** C10.  Printing the empty string (a [str] that points at a NUL) leaves
    the screen, the cursor, the previous-cursor position and the input
    buffer as they were and asks the display for exactly one refresh. *)
Theorem print_empty_string (junk : list ascii) (st : State) :
  let unchanged st' :=
    screen st' = screen st /\
    cursorX st' = cursorX st /\ cursorY st' = cursorY st /\
    prevCursorX st' = prevCursorX st /\ prevCursorY st' = prevCursorY st /\
    inputBuffer st' = inputBuffer st /\ inputLength st' = inputLength st /\
    display st' = display st ++ [DTermRefresh] in
  unchanged (term_printString [] st) /\
  unchanged (term_printString (NUL :: junk) st).
Proof.
  cbv zeta.
  assert (Hnil : term_printString [] st = display_termRefresh st)
    by reflexivity.
  assert (Hnul : term_printString (NUL :: junk) st = display_termRefresh st)
    by reflexivity.
  rewrite Hnil, Hnul. unfold display_termRefresh, display_call; cbn.
  repeat split.
Qed.

(** C9.  An escape character followed by a command character that
    [vt52ProcessSequence] does not know is swallowed: whatever follows is
    printed as if the two bytes had not been there (the machine is back in
    NORMAL mode), and the two bytes alone change neither the screen nor the
    cursor nor the previous-cursor position and put nothing on the display
    but the closing refresh. *)
Theorem unrecognized_escape_ignored (c : ascii) (rest : list ascii) (st : State) :
  TERM_ESC_CHAR <> NUL -> c <> NUL ->
  2 < TERM_ESC_BUFFLINE_SIZE ->
  ~ In c recognized ->
  term_printString (TERM_ESC_CHAR :: c :: rest) st = term_printString rest st /\
  let st' := term_printString [TERM_ESC_CHAR; c] st in
  screen st' = screen st /\
  cursorX st' = cursorX st /\ cursorY st' = cursorY st /\
  prevCursorX st' = prevCursorX st /\ prevCursorY st' = prevCursorY st /\
  display st' = display st ++ [DTermRefresh].
Proof.
  intros Hesc Hc Hsize Hunknown.
  assert (HcY : c <> "Y"%char)
    by (intros ->; apply Hunknown; cbn; tauto).
  assert (Hgen : forall tail,
             term_printString (TERM_ESC_CHAR :: c :: tail) st =
             term_printString tail st).
  { intros tail. rewrite (term_printString_finish (_ :: _)).
    rewrite print_loop_cons, print_step_start by assumption.
    rewrite print_loop_cons, print_step_command by assumption.
    rewrite vt52_unrecognized by assumption.
    apply print_after_normal. }
  split; [apply Hgen |].
  cbv zeta. rewrite Hgen.
  assert (Hnil : term_printString [] st = display_termRefresh st)
    by reflexivity.
  rewrite Hnil. unfold display_termRefresh, display_call; cbn.
  repeat split.
Qed.

(** C5.  Direct cursor addressing from any state: the four bytes for row 2,
    column 5 put the cursor at column 5 of row 2; the four bytes for row 99,
    which is off the grid, leave the cursor where it was.  In both cases the
    four bytes are consumed: no cell of the screen changes, the display sees
    only the cursor redraw and the closing refresh, and text that follows is
    printed from NORMAL mode. *)
Theorem direct_cursor_addressing (st : State) :
  TERM_ESC_CHAR <> NUL ->
  4 < TERM_ESC_BUFFLINE_SIZE ->
  5 < TERM_SCREEN_SIZE_X -> 2 < TERM_SCREEN_SIZE_Y <= 99 ->
  0 < TERM_POS_X + 5 < 256 ->
  0 < TERM_POS_Y + 2 -> TERM_POS_Y + 99 < 256 ->
  let inside := term_printString (address_sequence 2 5) st in
  let outside := term_printString (address_sequence 99 5) st in
  let erase := DTermChar (prevCursorX st) (prevCursorY st) " " in
  (cursorX inside = 5 /\ cursorY inside = 2 /\
   screen inside = screen st /\
   display inside = display st ++ [erase; DTermCursor 5 2; DTermRefresh]) /\
  (cursorX outside = cursorX st /\ cursorY outside = cursorY st /\
   screen outside = screen st /\
   display outside =
     display st ++ [erase; DTermCursor (cursorX st) (cursorY st); DTermRefresh]) /\
  (forall row rest, row = 2 \/ row = 99 ->
     term_printString (address_sequence row 5 ++ rest) st =
     term_printString rest (vt52ProcessSequence (address_sequence row 5) st)).
Proof.
  intros Hesc Hsize HX HY HposX HposY2 HposY99.
  assert (Hrun : forall row rest, row = 2 \/ row = 99 ->
             term_printString (address_sequence row 5 ++ rest) st =
             term_printString rest
               (vt52ProcessSequence (address_sequence row 5) st)).
  { intros row rest Hrow. unfold address_sequence. cbn [app].
    rewrite (term_printString_finish (_ :: _)).
    rewrite print_loop_cons, print_step_start by assumption.
    rewrite print_loop_cons, print_step_address_1 by (lia || discriminate).
    rewrite print_loop_cons, print_step_address_2
      by (lia || (apply char_of_int_not_NUL; lia)).
    rewrite print_loop_cons, print_step_address_3
      by (lia || (apply char_of_int_not_NUL; lia)).
    apply print_after_normal. }
  assert (Hin : vt52ProcessSequence (address_sequence 2 5) st =
                termRenderChar NUL (set_cursorX 5 (set_cursorY 2 st))).
  { unfold address_sequence. rewrite vt52_direct_address. cbv zeta.
    rewrite !char_to_int_of_int by lia.
    replace (TERM_POS_Y + 2 - TERM_POS_Y) with 2 by lia.
    replace (TERM_POS_X + 5 - TERM_POS_X) with 5 by lia.
    destruct (Z.ltb_spec 2 TERM_SCREEN_SIZE_Y); [| lia].
    destruct (Z.ltb_spec 5 TERM_SCREEN_SIZE_X); [| lia].
    reflexivity. }
  assert (Hout : vt52ProcessSequence (address_sequence 99 5) st =
                 termRenderChar NUL st).
  { unfold address_sequence. rewrite vt52_direct_address. cbv zeta.
    rewrite !char_to_int_of_int by lia.
    replace (TERM_POS_Y + 99 - TERM_POS_Y) with 99 by lia.
    destruct (Z.ltb_spec 99 TERM_SCREEN_SIZE_Y); [lia |].
    reflexivity. }
  cbv zeta.
  pose proof (Hrun 2 [] (or_introl eq_refl)) as H2.
  pose proof (Hrun 99 [] (or_intror eq_refl)) as H99.
  rewrite app_nil_r in H2, H99. rewrite H2, H99, Hin, Hout.
  split; [| split; [| exact Hrun]]; repeat split; try reflexivity;
    cbn; now rewrite <- !app_assoc.
Qed.

Lemma cstr_no_NUL s : Forall (fun c => c <> NUL) (cstr s).
Proof.
  induction s as [| c s IH]; cbn; [constructor |].
  destruct (Ascii.eqb_spec c NUL); constructor; assumption.
Qed.

Lemma print_loop_run str st :
  print_loop str (mkMachine STATE_NORMAL [] st) = run (cstr str) st.
Proof. apply print_loop_cstr. Qed.

Lemma run_snoc l chr st : run (l ++ [chr]) st = print_step chr (run l st).
Proof. unfold run. now rewrite foldl_app. Qed.

(** A step that leaves the machine in ESC mode has only accumulated. *)
Lemma print_step_stays_esc chr m :
  state m = STATE_ESC -> state (print_step chr m) = STATE_ESC ->
  print_step chr m = mkMachine STATE_ESC (escBuffer m ++ [chr]) (term m).
Proof.
  intros Hm. unfold print_step. rewrite Hm. cbv zeta.
  repeat match goal with
         | |- context [if ?b then _ else _] => destruct b
         end; cbn; intros H; try discriminate H; reflexivity.
Qed.

Lemma print_step_enters_esc chr m :
  state m = STATE_NORMAL -> state (print_step chr m) = STATE_ESC ->
  chr = TERM_ESC_CHAR /\
  print_step chr m = mkMachine STATE_ESC [TERM_ESC_CHAR] (term m).
Proof.
  intros Hm. unfold print_step. rewrite Hm.
  destruct (Ascii.eqb_spec chr TERM_ESC_CHAR) as [-> |]; cbn; intros H.
  - now split.
  - discriminate H.
Qed.

(** In ESC mode the accumulator is the unfinished tail of the input: it
    starts at the escape character that opened the sequence, and nothing
    has been rendered since. *)
Lemma pending_is_tail st l :
  state (run l st) = STATE_ESC ->
  exists pre tail,
    l = pre ++ TERM_ESC_CHAR :: tail /\
    escBuffer (run l st) = TERM_ESC_CHAR :: tail /\
    state (run pre st) = STATE_NORMAL /\
    term (run pre st) = term (run l st).
Proof.
  induction l as [| chr l IH] using rev_ind; [discriminate |].
  rewrite run_snoc. intros Hesc.
  destruct (state (run l st)) eqn:Hprev.
  - destruct (print_step_enters_esc chr _ Hprev Hesc) as [-> Heq].
    exists l, []. rewrite Heq. cbn. now repeat split.
  - rewrite (print_step_stays_esc chr _ Hprev Hesc). cbn.
    destruct (IH eq_refl) as (pre & tail & Hl & Hbuf & Hnormal & Hterm).
    exists pre, (tail ++ [chr]). rewrite Hbuf. repeat split.
    + now rewrite Hl, <- app_assoc.
    + exact Hnormal.
    + exact Hterm.
Qed.

(** ** The cursor stays on the grid *)

Lemma u8_small z : 0 <= z < 256 -> u8 z = z.
Proof. intros H. unfold u8. now apply Z.mod_small. Qed.

Lemma termScrollUp_cursor st :
  cursorX (termScrollUp st) = cursorX st /\
  cursorY (termScrollUp st) = cursorY st.
Proof. now split. Qed.

Lemma termScrollUp_screen st :
  grid_ok -> screen_ok st ->
  screen (termScrollUp st) = scrolled (screen st).
Proof.
  intros (HX & HY) [Hlen Hsize]. unfold termScrollUp, scrolled; cbn.
  unfold memset_from, memmove_front.
  set (x := Z.to_nat TERM_SCREEN_SIZE_X) in *.
  set (n := Z.to_nat (TERM_SCREEN_SIZE - TERM_SCREEN_SIZE_X)) in *.
  assert (Hn : (n + x = length (screen st))%nat) by (subst n x; lia).
  assert (Hmoved : take n (drop x (screen st)) = drop x (screen st))
    by (apply take_ge; rewrite length_drop; lia).
  rewrite Hmoved.
  rewrite take_app_le by (rewrite length_drop; lia).
  rewrite (take_ge (drop x (screen st))) by (rewrite length_drop; lia).
  rewrite (drop_ge (_ ++ _))
    by (rewrite length_app, !length_drop; lia).
  now rewrite app_nil_r.
Qed.

Lemma next_row_cursorX st : cursorX (next_row st) = cursorX st.
Proof. unfold next_row. now destruct (_ <=? _). Qed.

Lemma next_row_cursorY st :
  grid_ok -> 0 <= cursorY st < TERM_SCREEN_SIZE_Y ->
  cursorY (next_row st) =
  if cursorY st + 1 <? TERM_SCREEN_SIZE_Y
  then cursorY st + 1 else TERM_SCREEN_SIZE_Y - 1.
Proof.
  intros (HX & HY) Hy. unfold next_row. cbn [cursorY set_cursorY].
  rewrite (u8_small (cursorY st + 1)) by lia.
  destruct (Z.leb_spec TERM_SCREEN_SIZE_Y (cursorY st + 1)),
           (Z.ltb_spec (cursorY st + 1) TERM_SCREEN_SIZE_Y); try lia.
  - cbn. apply u8_small. lia.
  - reflexivity.
Qed.

Lemma next_row_screen st :
  grid_ok -> 0 <= cursorY st < TERM_SCREEN_SIZE_Y ->
  screen_ok st ->
  screen (next_row st) =
  if cursorY st + 1 <? TERM_SCREEN_SIZE_Y
  then screen st else scrolled (screen st).
Proof.
  intros Hgrid Hy Hlen. pose proof Hgrid as (HX & HY).
  unfold next_row. cbn [cursorY set_cursorY].
  rewrite (u8_small (cursorY st + 1)) by lia.
  destruct (Z.leb_spec TERM_SCREEN_SIZE_Y (cursorY st + 1)),
           (Z.ltb_spec (cursorY st + 1) TERM_SCREEN_SIZE_Y); try lia.
  - cbn [screen set_cursorY]. now rewrite termScrollUp_screen.
  - reflexivity.
Qed.

Lemma next_row_in_bounds st :
  grid_ok -> in_bounds st -> in_bounds (next_row st).
Proof.
  intros Hgrid [Hx Hy]. unfold in_bounds.
  rewrite next_row_cursorX, next_row_cursorY by assumption.
  destruct (Z.ltb_spec (cursorY st + 1) TERM_SCREEN_SIZE_Y);
    destruct Hgrid as (? & ?); lia.
Qed.

(** Where [termPutChar] leaves the cursor. *)
Lemma termPutChar_cursor chr st :
  grid_ok -> in_bounds st ->
  cursorX (termPutChar chr st) =
    (if cursorX st + 1 <? TERM_SCREEN_SIZE_X then cursorX st + 1 else 0) /\
  cursorY (termPutChar chr st) =
    (if cursorX st + 1 <? TERM_SCREEN_SIZE_X then cursorY st
     else if cursorY st + 1 <? TERM_SCREEN_SIZE_Y
          then cursorY st + 1 else TERM_SCREEN_SIZE_Y - 1).
Proof.
  intros Hgrid [Hx Hy]. pose proof Hgrid as (HX & HY).
  unfold termPutChar. cbn [cursorX cursorY set_cursorX set_screen
                           display_termChar display_call].
  rewrite (u8_small (cursorX st + 1)) by lia.
  destruct (Z.leb_spec TERM_SCREEN_SIZE_X (cursorX st + 1)),
           (Z.ltb_spec (cursorX st + 1) TERM_SCREEN_SIZE_X); try lia.
  - rewrite next_row_cursorX, next_row_cursorY by assumption. now split.
  - now split.
Qed.

Lemma termPutChar_in_bounds chr st :
  grid_ok -> in_bounds st -> in_bounds (termPutChar chr st).
Proof.
  intros Hgrid Hst. pose proof Hst as [Hx Hy].
  destruct (termPutChar_cursor chr st Hgrid Hst) as [HcX HcY].
  unfold in_bounds. rewrite HcX, HcY. destruct Hgrid as (? & ?).
  destruct (Z.ltb_spec (cursorX st + 1) TERM_SCREEN_SIZE_X),
           (Z.ltb_spec (cursorY st + 1) TERM_SCREEN_SIZE_Y); lia.
Qed.

Lemma termRenderChar_NUL_cursor st :
  cursorX (termRenderChar NUL st) = cursorX st /\
  cursorY (termRenderChar NUL st) = cursorY st.
Proof. now split. Qed.

Lemma in_bounds_cursor st st' :
  cursorX st' = cursorX st -> cursorY st' = cursorY st ->
  in_bounds st -> in_bounds st'.
Proof. unfold in_bounds. now intros -> ->. Qed.

Lemma termRenderChar_in_bounds chr st :
  grid_ok -> in_bounds st -> in_bounds (termRenderChar chr st).
Proof.
  intros Hgrid Hst. unfold termRenderChar.
  set (erased := display_termChar _ _ _ st).
  assert (Herased : in_bounds erased) by exact Hst.
  eapply in_bounds_cursor; [reflexivity | reflexivity |].
  destruct (_ || _)%bool; [| destruct (negb _)].
  - apply next_row_in_bounds; [assumption |].
    destruct Herased as [? ?], Hgrid as (? & ?).
    split; cbn; [lia | assumption].
  - now apply termPutChar_in_bounds.
  - exact Herased.
Qed.

Lemma clear_loops_cursor (cells : State -> State) st :
  (forall s, cursorX (cells s) = cursorX s /\ cursorY (cells s) = cursorY s) ->
  in_bounds st -> in_bounds (cells st).
Proof. intros H. destruct (H st). now apply in_bounds_cursor. Qed.

Lemma for_range_cursor from to body st :
  (forall pos s, cursorX (body pos s) = cursorX s /\
                 cursorY (body pos s) = cursorY s) ->
  cursorX (for_range from to body st) = cursorX st /\
  cursorY (for_range from to body st) = cursorY st.
Proof.
  intros Hbody.
  apply (for_range_preserves
           (fun s => cursorX s = cursorX st /\ cursorY s = cursorY st));
    [| now split].
  intros pos s [HX HY]. destruct (Hbody pos s) as [-> ->]. now split.
Qed.

Lemma clear_cell_cursor posX posY st :
  cursorX (clear_cell posX posY st) = cursorX st /\
  cursorY (clear_cell posX posY st) = cursorY st.
Proof. now split. Qed.

Lemma clear_rows_cursor fromY fromX st :
  let st' := for_range fromY TERM_SCREEN_SIZE_Y
               (fun posY => for_range fromX TERM_SCREEN_SIZE_X
                              (fun posX => clear_cell posX posY)) st in
  cursorX st' = cursorX st /\ cursorY st' = cursorY st.
Proof.
  apply for_range_cursor. intros posY s.
  apply for_range_cursor. intros posX s'. apply clear_cell_cursor.
Qed.

(** The four cursor movements: one cell, clamped at the edge. *)
Lemma vt52_move_cursor e st :
  grid_ok -> in_bounds st ->
  let after c := vt52ProcessSequence [e; c] st in
  (cursorX (after "A"%char) = cursorX st /\
   cursorY (after "A"%char) = Z.max 0 (cursorY st - 1)) /\
  (cursorX (after "B"%char) = cursorX st /\
   cursorY (after "B"%char) = Z.min (TERM_SCREEN_SIZE_Y - 1) (cursorY st + 1)) /\
  (cursorX (after "C"%char) = Z.min (TERM_SCREEN_SIZE_X - 1) (cursorX st + 1) /\
   cursorY (after "C"%char) = cursorY st) /\
  (cursorX (after "D"%char) = Z.max 0 (cursorX st - 1) /\
   cursorY (after "D"%char) = cursorY st).
Proof.
  intros (HX & HY) [Hx Hy]. cbv zeta.
  unfold vt52ProcessSequence; eval_lengths.
  change (2 <? 2) with false. cbv iota.
  cbn [Ascii.eqb Bool.eqb andb].
  rewrite !(proj1 (termRenderChar_NUL_cursor _)),
          !(proj2 (termRenderChar_NUL_cursor _)).
  destruct (Z.ltb_spec 0 (cursorY st)),
           (Z.ltb_spec (cursorY st) (TERM_SCREEN_SIZE_Y - 1)),
           (Z.ltb_spec (cursorX st) (TERM_SCREEN_SIZE_X - 1)),
           (Z.ltb_spec 0 (cursorX st));
    cbn [cursorX cursorY set_cursorX set_cursorY];
    rewrite ?u8_small by lia; repeat split; lia.
Qed.

Lemma moved_in_bounds (b : bool) (st st' : State) :
  in_bounds st -> in_bounds st' -> in_bounds (if b then st' else st).
Proof. now destruct b. Qed.

Lemma vt52_in_bounds seq st :
  grid_ok -> in_bounds st -> in_bounds (vt52ProcessSequence seq st).
Proof.
  intros Hgrid Hst. pose proof Hgrid as (HX & HY).
  pose proof Hst as [Hx Hy].
  assert (Hhome : in_bounds (set_cursorY 0 (set_cursorX 0 st)))
    by (split; cbn; lia).
  unfold vt52ProcessSequence. cbv zeta.
  repeat match goal with
         | |- in_bounds (if ?b then _ else _) => destruct b eqn:?
         end;
    try exact Hst;
    try (eapply in_bounds_cursor;
         [apply clear_rows_cursor | apply clear_rows_cursor |]);
    try (eapply in_bounds_cursor;
         [ apply for_range_cursor; intros; apply clear_cell_cursor
         | apply for_range_cursor; intros; apply clear_cell_cursor |]);
    try exact Hst;
    try (apply termRenderChar_in_bounds; [exact Hgrid |]);
    try exact Hhome;
    try exact Hst.
  - destruct (Z.ltb_spec 0 (cursorY st)); [| exact Hst].
    split; cbn; rewrite ?u8_small; lia.
  - destruct (Z.ltb_spec (cursorY st) (TERM_SCREEN_SIZE_Y - 1)); [| exact Hst].
    split; cbn; rewrite ?u8_small; lia.
  - destruct (Z.ltb_spec (cursorX st) (TERM_SCREEN_SIZE_X - 1)); [| exact Hst].
    split; cbn; rewrite ?u8_small; lia.
  - destruct (Z.ltb_spec 0 (cursorX st)); [| exact Hst].
    split; cbn; rewrite ?u8_small; lia.
  - match goal with
    | |- in_bounds (if ?b then _ else _) => destruct b eqn:Hin
    end; [| exact Hst].
    rewrite !andb_true_iff in Hin.
    destruct Hin as [[[Hr0 Hr1] Hc0] Hc1].
    apply Z.leb_le in Hr0, Hc0. apply Z.ltb_lt in Hr1, Hc1.
    split; cbn; rewrite u8_small; lia.
Qed.

Lemma run_op_in_bounds st op :
  grid_ok -> in_bounds st -> in_bounds (run_op st op).
Proof.
  intros Hgrid Hst. destruct op; cbn.
  - now apply termPutChar_in_bounds.
  - now apply termRenderChar_in_bounds.
  - now apply vt52_in_bounds.
Qed.

Lemma termPutChar_screen chr st :
  grid_ok -> in_bounds st -> screen_ok st ->
  let cell := Z.to_nat (cursorY st * TERM_SCREEN_SIZE_X + cursorX st) in
  screen (termPutChar chr st) =
  if (cursorX st + 1 <? TERM_SCREEN_SIZE_X) ||
     (cursorY st + 1 <? TERM_SCREEN_SIZE_Y)
  then <[cell := chr]> (screen st)
  else scrolled (<[cell := chr]> (screen st)).
Proof.
  intros Hgrid [Hx Hy] [Hlen Hsize] cell. pose proof Hgrid as (HX & HY).
  unfold termPutChar. fold cell.
  cbn [cursorX cursorY set_cursorX set_screen display_termChar display_call].
  rewrite (u8_small (cursorX st + 1)) by lia.
  destruct (Z.leb_spec TERM_SCREEN_SIZE_X (cursorX st + 1)),
           (Z.ltb_spec (cursorX st + 1) TERM_SCREEN_SIZE_X); try lia.
  - rewrite next_row_screen; try assumption.
    + cbn. now destruct (_ <? _).
    + split; [cbn; now rewrite length_insert | exact Hsize].
  - reflexivity.
Qed.

Lemma newline_cursor_screen chr st :
  grid_ok -> in_bounds st -> screen_ok st ->
  chr = LF \/ chr = CR ->
  cursorX (termRenderChar chr st) = 0 /\
  cursorY (termRenderChar chr st) =
    Z.min (TERM_SCREEN_SIZE_Y - 1) (cursorY st + 1) /\
  screen (termRenderChar chr st) =
    if cursorY st + 1 <? TERM_SCREEN_SIZE_Y
    then screen st else scrolled (screen st).
Proof.
  intros Hgrid [Hx Hy] Hscr Hchr. pose proof Hgrid as (HX & HY).
  unfold termRenderChar.
  assert (Hnl : ((chr =? LF) || (chr =? CR))%char = true)
    by (destruct Hchr as [-> | ->]; reflexivity).
  rewrite Hnl.
  cbn [cursorX cursorY screen set_prevCursor display_termCursor display_call].
  rewrite next_row_cursorX, next_row_cursorY, next_row_screen
    by (assumption || exact Hy).
  cbn. destruct (Z.ltb_spec (cursorY st + 1) TERM_SCREEN_SIZE_Y);
    repeat split; lia.
Qed.

(** C4.  With a grid that fits the 8-bit cursor, the cursor stays inside
    [0, columns) x [0, rows) through every sequence of [termPutChar],
    [termRenderChar] and [vt52ProcessSequence]; a character written in the
    last column moves the cursor to column 0 of the next row; written in
    the last column of the last row, as a line end rendered on the last
    row, it scrolls the screen up one row with a blank last row and keeps
    the cursor on the last row; and the escapes up, down, right and left
    move one cell and stop at the edge. *)
Theorem cursor_stays_on_grid :
  grid_ok ->
  (forall ops st, in_bounds st -> in_bounds (foldl run_op st ops)) /\
  (forall chr st, in_bounds st ->
     cursorX st = TERM_SCREEN_SIZE_X - 1 ->
     cursorY st < TERM_SCREEN_SIZE_Y - 1 ->
     cursorX (termPutChar chr st) = 0 /\
     cursorY (termPutChar chr st) = cursorY st + 1) /\
  (forall chr st, in_bounds st -> screen_ok st ->
     cursorX st = TERM_SCREEN_SIZE_X - 1 ->
     cursorY st = TERM_SCREEN_SIZE_Y - 1 ->
     let cell := Z.to_nat (cursorY st * TERM_SCREEN_SIZE_X + cursorX st) in
     cursorX (termPutChar chr st) = 0 /\
     cursorY (termPutChar chr st) = TERM_SCREEN_SIZE_Y - 1 /\
     screen (termPutChar chr st) =
       drop (Z.to_nat TERM_SCREEN_SIZE_X) (<[cell := chr]> (screen st)) ++
       replicate (Z.to_nat TERM_SCREEN_SIZE_X) NUL) /\
  (forall chr st, in_bounds st -> screen_ok st ->
     chr = LF \/ chr = CR ->
     cursorY st = TERM_SCREEN_SIZE_Y - 1 ->
     cursorX (termRenderChar chr st) = 0 /\
     cursorY (termRenderChar chr st) = TERM_SCREEN_SIZE_Y - 1 /\
     screen (termRenderChar chr st) =
       drop (Z.to_nat TERM_SCREEN_SIZE_X) (screen st) ++
       replicate (Z.to_nat TERM_SCREEN_SIZE_X) NUL) /\
  (forall e st, in_bounds st ->
     let after c := vt52ProcessSequence [e; c] st in
     (cursorX (after "A"%char) = cursorX st /\
      cursorY (after "A"%char) = Z.max 0 (cursorY st - 1)) /\
     (cursorX (after "B"%char) = cursorX st /\
      cursorY (after "B"%char) =
        Z.min (TERM_SCREEN_SIZE_Y - 1) (cursorY st + 1)) /\
     (cursorX (after "C"%char) =
        Z.min (TERM_SCREEN_SIZE_X - 1) (cursorX st + 1) /\
      cursorY (after "C"%char) = cursorY st) /\
     (cursorX (after "D"%char) = Z.max 0 (cursorX st - 1) /\
      cursorY (after "D"%char) = cursorY st)).
Proof.
  intros Hgrid. pose proof Hgrid as (HX & HY).
  split; [| split; [| split; [| split]]].
  - induction ops as [| op ops IH]; intros st Hst; cbn; [exact Hst |].
    apply IH, run_op_in_bounds; assumption.
  - intros chr st Hst HlastX Hy.
    destruct (termPutChar_cursor chr st Hgrid Hst) as [-> ->].
    destruct (Z.ltb_spec (cursorX st + 1) TERM_SCREEN_SIZE_X); [lia |].
    destruct (Z.ltb_spec (cursorY st + 1) TERM_SCREEN_SIZE_Y); [| lia].
    now split.
  - intros chr st Hst Hlen HlastX HlastY cell.
    destruct (termPutChar_cursor chr st Hgrid Hst) as [-> ->].
    pose proof (termPutChar_screen chr st Hgrid Hst Hlen) as Hscr.
    cbv zeta in Hscr. fold cell in Hscr. rewrite Hscr.
    destruct (Z.ltb_spec (cursorX st + 1) TERM_SCREEN_SIZE_X); [lia |].
    destruct (Z.ltb_spec (cursorY st + 1) TERM_SCREEN_SIZE_Y); [lia |].
    now repeat split.
  - intros chr st Hst Hscr Hchr HlastY.
    destruct (newline_cursor_screen chr st Hgrid Hst Hscr Hchr)
      as (-> & -> & ->).
    destruct (Z.ltb_spec (cursorY st + 1) TERM_SCREEN_SIZE_Y); [lia |].
    repeat split. lia.
  - intros e st Hst. now apply vt52_move_cursor.
Qed.

(** ** The line editor: backspace *)

Lemma backspace_steps commands st :
  termInputChar commands BS st =
  let erased := display_termChar (prevCursorX st) (prevCursorY st) " " st in
  if 0 <? inputLength st then
    let len := inputLength st - 1 in
    let shortened :=
      set_input (<[Z.to_nat len := NUL]> (inputBuffer st)) len erased in
    if cursorX st =? 0 then
      if 0 <? cursorY st then
        (backspace_redraw
           (backspace_erase
              (set_cursorX (u8 (TERM_SCREEN_SIZE_X - 1))
                 (set_cursorY (u8 (cursorY st - 1)) shortened))), [])
      else (shortened, [])
    else
      (backspace_redraw
         (backspace_erase (set_cursorX (u8 (cursorX st - 1)) shortened)), [])
  else (backspace_redraw erased, []).
Proof. reflexivity. Qed.

(** C8.  A backspace with characters in the input buffer and the cursor at
    the top-left corner shortens the buffer by its last character and then
    returns early: the screen, the cursor and the previous-cursor position
    are untouched, and the only call the display sees is the erase of the
    old cursor glyph; no cell is cleared, no cursor glyph drawn, no refresh
    requested, no handler invoked. *)
Theorem backspace_at_origin_returns_early
    (commands : list Command) (st : State) :
  0 < inputLength st -> cursorX st = 0 -> cursorY st = 0 ->
  let st' := fst (termInputChar commands BS st) in
  inputLength st' = inputLength st - 1 /\
  inputBuffer st' =
    <[Z.to_nat (inputLength st - 1) := NUL]> (inputBuffer st) /\
  (forall line chr k,
     inputBuffer st = (line ++ [chr]) ++ replicate k NUL ->
     inputLength st = Z.of_nat (length (line ++ [chr])) ->
     inputBuffer st' = line ++ replicate (S k) NUL) /\
  screen st' = screen st /\
  cursorX st' = 0 /\ cursorY st' = 0 /\
  prevCursorX st' = prevCursorX st /\ prevCursorY st' = prevCursorY st /\
  display st' =
    display st ++ [DTermChar (prevCursorX st) (prevCursorY st) " "] /\
  snd (termInputChar commands BS st) = [].
Proof.
  intros Hlen HX HY. cbv zeta. rewrite backspace_steps. cbv zeta.
  destruct (Z.ltb_spec 0 (inputLength st)); [| lia].
  rewrite HX, HY. cbn.
  split; [reflexivity |]. split; [reflexivity |].
  split; [| now repeat split].
  intros line chr k Hbuf Hline. rewrite Hbuf, Hline.
  rewrite length_app, <- app_assoc. cbn [length app].
  replace (Z.to_nat (Z.of_nat (length line + 1) - 1))
    with (length line + 0)%nat by lia.
  now rewrite insert_app_r.
Qed.

(** C7 (as the code has it).  A backspace that arrives while the input
    buffer is empty, or while the cursor is at the top-left corner, leaves
    the cursor and the screen alone, so no coordinate becomes negative.
    With an empty buffer the buffer and its length stay as they are; with
    characters in the buffer (the cursor then being at the corner) the
    length goes down by one. *)
Theorem backspace_at_line_start (commands : list Command) (st : State) :
  0 <= cursorX st -> 0 <= cursorY st ->
  inputLength st = 0 \/ (cursorX st = 0 /\ cursorY st = 0) ->
  let st' := fst (termInputChar commands BS st) in
  (cursorX st' = cursorX st /\ cursorY st' = cursorY st) /\
  (0 <= cursorX st' /\ 0 <= cursorY st') /\
  screen st' = screen st /\
  (inputLength st = 0 ->
     inputLength st' = 0 /\ inputBuffer st' = inputBuffer st) /\
  (0 < inputLength st -> inputLength st' = inputLength st - 1) /\
  snd (termInputChar commands BS st) = [].
Proof.
  intros Hx Hy Hcase. cbv zeta. rewrite backspace_steps. cbv zeta.
  destruct (Z.ltb_spec 0 (inputLength st)) as [Hlen | Hlen].
  - destruct Hcase as [Hempty | [HX HY]]; [lia |].
    rewrite HX, HY. cbn. repeat split; try lia; try reflexivity.
  - cbn. repeat split; try lia; try reflexivity; intros; lia.
Qed.

(** ** The line editor: splitting the line *)

Lemma skip_space_spaces ws l :
  Forall (fun c => isspace c = true) ws -> skip_space (ws ++ l) = skip_space l.
Proof. induction 1 as [| c ws Hc _ IH]; cbn; [reflexivity | now rewrite Hc]. Qed.

Lemma skip_space_visible l : starts_visible l -> skip_space l = l.
Proof. destruct l as [| c l]; cbn; [reflexivity | now intros ->]. Qed.

Lemma scan_field_all ok n field l :
  Forall (fun c => ok c = true) field ->
  (length field <= n)%nat ->
  match l with [] => True | c :: _ => ok c = false end ->
  scan_field ok n (field ++ l) = (field, l).
Proof.
  intros Hfield. revert n.
  induction Hfield as [| c field Hc _ IH]; intros n Hn Hl; cbn.
  - destruct n, l as [| d l]; try reflexivity. cbn in Hl |- *. now rewrite Hl.
  - destruct n as [| n]; [cbn in Hn; lia |]. cbn.
    rewrite Hc, IH; [reflexivity | cbn in Hn; lia | exact Hl].
Qed.

(** The split [sscanf] makes of a line of the shape
    [blanks token blanks argument]: the first blank-delimited word and the
    rest of the line. *)
Lemma sscanf_split lead token sep rest :
  Forall (fun c => isspace c = true) lead ->
  token <> [] -> Forall (fun c => isspace c = false) token ->
  (length token <= 63)%nat ->
  Forall (fun c => isspace c = true) sep ->
  (sep <> [] \/ rest = []) ->
  starts_visible rest ->
  Forall (fun c => c <> LF) rest -> (length rest <= 63)%nat ->
  sscanf_command_arg (lead ++ token ++ sep ++ rest) = (token, rest).
Proof.
  intros Hlead Hne Htoken Hlen Hsep Hgap Hvis Hrest Hrlen.
  unfold sscanf_command_arg. rewrite skip_space_spaces by assumption.
  rewrite skip_space_visible
    by (destruct token as [| c t]; [easy | now inversion Htoken]).
  destruct (token ++ sep ++ rest) as [| c0 l0] eqn:Hline;
    [destruct token; [easy | discriminate Hline] |].
  rewrite <- Hline.
  rewrite (scan_field_all _ 63 token (sep ++ rest)).
  - rewrite skip_space_spaces, skip_space_visible by assumption.
    rewrite <- (app_nil_r rest) at 1.
    rewrite (scan_field_all _ 63 rest []); [reflexivity | | assumption | exact I].
    eapply Forall_impl; [exact Hrest |].
    intros c Hc. cbn. now destruct (Ascii.eqb_spec c LF).
  - eapply Forall_impl; [exact Htoken |]. intros c Hc. cbn. now rewrite Hc.
  - assumption.
  - destruct sep as [| s sep']; cbn.
    + destruct Hgap as [Hgap | ->]; [easy | exact I].
    + inversion Hsep; subst. cbn.
      match goal with H : isspace s = true |- _ => now rewrite H end.
Qed.

(** ** The line editor: dispatch *)

Lemma indices_where_lookup p commands : forall i k entry,
  commands !! k = Some entry -> p entry = true ->
  In (i + k)%nat (indices_where p i commands).
Proof.
  induction commands as [| e rest IH]; intros i k entry Hk Hp; [easy |].
  destruct k as [| k]; cbn in Hk |- *.
  - injection Hk as ->. rewrite Hp, Nat.add_0_r. now left.
  - replace (i + S k)%nat with (S i + k)%nat by lia.
    destruct (p e); [right |]; eapply IH; eauto.
Qed.

Lemma indices_where_none p commands : forall i,
  Forall (fun entry => p entry = false) commands ->
  indices_where p i commands = [].
Proof.
  induction commands as [| e rest IH]; intros i H; [reflexivity |].
  inversion H; subst. cbn.
  match goal with E : p e = false |- _ => rewrite E end. now apply IH.
Qed.

Lemma run_matching_spec commands : forall i token arg st,
  snd (fst (run_matching i commands token arg st)) =
    map (fun j => (j, arg))
        (indices_where (fun entry => strcmp_eq token (command entry))
                       i commands) /\
  snd (run_matching i commands token arg st) =
    negb (forallb (fun entry => negb (strcmp_eq token (command entry)))
                  commands).
Proof.
  induction commands as [| e rest IH]; intros i token arg st; [now split |].
  cbn [run_matching indices_where forallb].
  destruct (strcmp_eq token (command e)) eqn:Hp.
  - destruct (IH (S i) token arg (handler e arg st)) as [Hcalls _].
    destruct (run_matching (S i) rest token arg (handler e arg st))
      as [[st' calls] found].
    cbn in Hcalls |- *. now rewrite Hcalls.
  - apply IH.
Qed.

Lemma forallb_no_index p commands : forall i,
  forallb (fun entry => negb (p entry)) commands =
  match indices_where p i commands with [] => true | _ => false end.
Proof.
  induction commands as [| e rest IH]; intros i; [reflexivity |].
  cbn. destruct (p e); cbn; [reflexivity | apply IH].
Qed.

Lemma run_matching_input commands : forall i token arg st,
  Forall keeps_input commands ->
  inputBuffer (fst (fst (run_matching i commands token arg st))) =
  inputBuffer st.
Proof.
  induction commands as [| e rest IH]; intros i token arg st H; [reflexivity |].
  inversion H as [| ? ? He Hrest]; subst. cbn [run_matching].
  destruct (strcmp_eq token (command e)).
  - specialize (IH (S i) token arg (handler e arg st) Hrest).
    destruct (run_matching (S i) rest token arg (handler e arg st))
      as [[st' calls] found].
    cbn in IH |- *. now rewrite IH.
  - now apply IH.
Qed.

Lemma run_fallback_spec commands : forall i st,
  Forall keeps_input commands ->
  snd (run_fallback i commands st) =
  map (fun j => (j, cstr (inputBuffer st)))
      (indices_where (fun entry => strlen (command entry) =? 0) i commands).
Proof.
  induction commands as [| e rest IH]; intros i st H; [reflexivity |].
  inversion H as [| ? ? He Hrest]; subst. cbn [run_fallback indices_where].
  destruct (strlen (command e) =? 0).
  - specialize (IH (S i) (handler e (cstr (inputBuffer st)) st) Hrest).
    destruct (run_fallback (S i) rest _) as [st' calls].
    cbn in IH |- *. now rewrite IH, He.
  - now apply IH.
Qed.

Lemma skip_space_Forall (P : ascii -> Prop) l :
  Forall P l -> Forall P (skip_space l).
Proof.
  induction 1 as [| c l Hc Hl IH]; cbn; [constructor |].
  destruct (isspace c); [exact IH | now constructor].
Qed.

Lemma scan_field_Forall (P : ascii -> Prop) ok n : forall l,
  Forall P l ->
  Forall P (fst (scan_field ok n l)) /\ Forall P (snd (scan_field ok n l)).
Proof.
  induction n as [| n IH]; intros l Hl; cbn.
  - destruct l; now split.
  - destruct Hl as [| c l Hc Hl]; [now split |].
    destruct (ok c); [| split; [constructor | now constructor]].
    destruct (IH l Hl) as [Hf Hr].
    destruct (scan_field ok n l) as [field remaining]. cbn in *.
    split; [now constructor | exact Hr].
Qed.

(** The token [sscanf] stores has no NUL in it, so its [strlen] is its
    length. *)
Lemma token_no_NUL line :
  Forall (fun c => c <> NUL) line ->
  Forall (fun c => c <> NUL) (fst (sscanf_command_arg line)).
Proof.
  intros Hline. unfold sscanf_command_arg.
  pose proof (skip_space_Forall _ _ Hline) as Hstart.
  destruct (skip_space line) as [| c0 l0]; [constructor |].
  destruct (scan_field_Forall _ (fun c => negb (isspace c)) 63 _ Hstart)
    as [Htoken _].
  destruct (scan_field _ 63 (c0 :: l0)) as [token rest].
  destruct (scan_field _ 63 (skip_space rest)) as [arg remaining].
  exact Htoken.
Qed.

Lemma newline_steps commands chr st :
  chr = LF \/ chr = CR ->
  termInputChar commands chr st =
  let st1 := termRenderChar LF st in
  let split := sscanf_command_arg (cstr (inputBuffer st1)) in
  let first := run_matching 0 commands (fst split) (snd split) st1 in
  let second :=
    if negb (snd first) && (0 <? strlen (fst split))
    then run_fallback 0 commands (fst (fst first))
    else (fst (fst first), []) in
  (display_termRefresh
     (term_printString [">"; " "]%char
        (set_input (memset_from 0 (Z.to_nat TERM_INPUT_BUFFER_SIZE) NUL
                                (inputBuffer (fst second))) 0 (fst second))),
   snd (fst first) ++ snd second).
Proof.
  intros Hchr. unfold termInputChar.
  assert (Hbs : (chr =? BS)%char = false)
    by (destruct Hchr as [-> | ->]; reflexivity).
  assert (Hnl : ((chr =? LF) || (chr =? CR))%char = true)
    by (destruct Hchr as [-> | ->]; reflexivity).
  rewrite Hbs, Hnl. cbv zeta.
  destruct (sscanf_command_arg _) as [token arg]. cbn [fst snd].
  destruct (run_matching 0 commands token arg _) as [[st2 matched] found].
  cbn [fst snd].
  destruct (negb found && (0 <? strlen token));
    [destruct (run_fallback 0 commands st2) as [st3 fallback] |];
    reflexivity.
Qed.

Lemma term_printString_input str st :
  inputBuffer (term_printString str st) = inputBuffer st /\
  inputLength (term_printString str st) = inputLength st.
Proof.
  destruct (draws_before_refresh str st) as (st' & -> & Hb & Hl & _).
  now split.
Qed.

Lemma type_plain_key commands chr st line :
  plain chr -> holds_line st line ->
  Z.of_nat (length line) < TERM_INPUT_BUFFER_SIZE - 1 ->
  holds_line (fst (termInputChar commands chr st)) (line ++ [chr]) /\
  snd (termInputChar commands chr st) = [].
Proof.
  intros (Hbs & Hlf & Hcr) [Hlen Hbuf] Hroom. unfold termInputChar.
  apply Ascii.eqb_neq in Hbs, Hlf, Hcr. rewrite Hbs, Hlf, Hcr. cbn [orb].
  destruct (Z.ltb_spec (inputLength st) (TERM_INPUT_BUFFER_SIZE - 1)); [| lia].
  cbn [fst snd]. split; [| reflexivity].
  set (typed := set_input _ _ st).
  destruct (draws_termRenderChar chr typed) as (Hb & Hl & _).
  unfold holds_line. cbn [inputLength inputBuffer display_termRefresh display_call].
  rewrite Hb, Hl. subst typed. cbn [inputLength inputBuffer set_input].
  rewrite Hlen, Hbuf, length_app. cbn [length]. split; [lia |].
  replace (Z.to_nat (Z.of_nat (length line))) with (length line + 0)%nat by lia.
  rewrite insert_app_r, <- app_assoc.
  replace (Z.to_nat TERM_INPUT_BUFFER_SIZE - length line)%nat
    with (S (Z.to_nat TERM_INPUT_BUFFER_SIZE - (length line + 1)))%nat by lia.
  reflexivity.
Qed.

Lemma type_keys_acc commands keys : forall st acc,
  foldl (fun acc chr =>
           let '(st', calls) := termInputChar commands chr (fst acc) in
           (st', snd acc ++ calls)) (st, acc) keys =
  (fst (type_keys commands keys st), acc ++ snd (type_keys commands keys st)).
Proof.
  unfold type_keys.
  induction keys as [| chr keys IH]; intros st acc; cbn [foldl fst snd].
  - now rewrite app_nil_r.
  - destruct (termInputChar commands chr st) as [st' calls].
    rewrite (IH st' (acc ++ calls)), (IH st' ([] ++ calls)).
    cbn [fst snd app]. now rewrite app_assoc.
Qed.

Lemma type_keys_cons commands chr keys st :
  type_keys commands (chr :: keys) st =
  (fst (type_keys commands keys (fst (termInputChar commands chr st))),
   snd (termInputChar commands chr st) ++
   snd (type_keys commands keys (fst (termInputChar commands chr st)))).
Proof.
  unfold type_keys at 1. cbn [foldl fst snd].
  destruct (termInputChar commands chr st) as [st' calls].
  cbn [app fst snd]. apply type_keys_acc.
Qed.

(** Typing plain keys only fills the line. *)
Lemma type_plain_keys commands keys : forall st line,
  Forall plain keys -> holds_line st line ->
  Z.of_nat (length line + length keys) < TERM_INPUT_BUFFER_SIZE ->
  holds_line (fst (type_keys commands keys st)) (line ++ keys) /\
  snd (type_keys commands keys st) = [].
Proof.
  induction keys as [| chr keys IH]; intros st line Hkeys Hline Hroom.
  - rewrite app_nil_r. now split.
  - inversion Hkeys as [| ? ? Hchr Hrest]; subst. cbn [length] in Hroom.
    destruct (type_plain_key commands chr st line Hchr Hline) as [H1 H2];
      [lia |].
    rewrite type_keys_cons, H2.
    destruct (IH _ _ Hrest H1) as [H3 H4];
      [rewrite length_app; cbn [length]; lia |].
    rewrite <- app_assoc in H3. now split.
Qed.

Lemma run_fallback_input commands : forall i st,
  Forall keeps_input commands ->
  inputBuffer (fst (run_fallback i commands st)) = inputBuffer st.
Proof.
  induction commands as [| e rest IH]; intros i st H; [reflexivity |].
  inversion H as [| ? ? He Hrest]; subst. cbn [run_fallback].
  destruct (strlen (command e) =? 0).
  - specialize (IH (S i) (handler e (cstr (inputBuffer st)) st) Hrest).
    destruct (run_fallback (S i) rest _) as [st' calls].
    cbn in IH |- *. now rewrite IH, He.
  - now apply IH.
Qed.

Lemma type_keys_app commands keys1 : forall keys2 st,
  let r1 := type_keys commands keys1 st in
  let r2 := type_keys commands keys2 (fst r1) in
  type_keys commands (keys1 ++ keys2) st = (fst r2, snd r1 ++ snd r2).
Proof.
  induction keys1 as [| chr keys1 IH]; intros keys2 st; cbv zeta.
  - change (type_keys commands [] st) with (st, @nil Invocation).
    cbn [app fst snd]. now destruct (type_keys commands keys2 st).
  - cbn [app]. rewrite !type_keys_cons, IH. cbn [fst snd].
    now rewrite app_assoc.
Qed.

Lemma type_keys_one commands chr st :
  type_keys commands [chr] st = termInputChar commands chr st.
Proof.
  rewrite type_keys_cons. cbn. rewrite app_nil_r.
  now destruct (termInputChar commands chr st).
Qed.

(** Which handlers a line end invokes, and on what. *)
Lemma newline_calls commands chr st :
  Forall keeps_input commands -> chr = LF \/ chr = CR ->
  let line := cstr (inputBuffer st) in
  let token := fst (sscanf_command_arg line) in
  let arg := snd (sscanf_command_arg line) in
  snd (termInputChar commands chr st) =
  map (fun i => (i, arg)) (named token commands) ++
  match named token commands, token with
  | [], _ :: _ => map (fun i => (i, line)) (unnamed commands)
  | _, _ => []
  end.
Proof.
  intros Hkeep Hchr line token arg.
  rewrite newline_steps by assumption. cbv zeta. cbn [snd].
  destruct (draws_termRenderChar LF st) as (Hbuf & _).
  rewrite Hbuf. fold line. fold token. fold arg.
  destruct (run_matching_spec commands 0 token arg (termRenderChar LF st))
    as [Hcalls Hfound].
  rewrite Hcalls, Hfound, (forallb_no_index _ commands 0).
  fold (named token commands). f_equal.
  assert (Hlen : (0 <? strlen token) =
                 match token with [] => false | _ => true end).
  { unfold strlen. rewrite cstr_nul_free
      by (apply token_no_NUL, cstr_no_NUL).
    destruct token; reflexivity. }
  rewrite Hlen.
  destruct (named token commands); cbn [negb andb]; [| reflexivity].
  destruct token as [| c t]; [reflexivity |].
  rewrite run_fallback_spec by assumption.
  rewrite run_matching_input by assumption.
  now rewrite Hbuf.
Qed.

End WithConfig.

(** ** The properties on a 40 x 24 terminal *)

(** *** The model on concrete inputs *)

Example sscanf_help :
  sscanf_command_arg (list_ascii_of_string "help") =
  (list_ascii_of_string "help", []).
Proof. reflexivity. Qed.

Example sscanf_put_int :
  sscanf_command_arg (list_ascii_of_string "put_int foo 42") =
  (list_ascii_of_string "put_int", list_ascii_of_string "foo 42").
Proof. reflexivity. Qed.

Example sscanf_blank_line :
  sscanf_command_arg (list_ascii_of_string "   ") = ([], []).
Proof. reflexivity. Qed.

(** Blanks around the word are dropped, blanks inside and after the
    argument are kept. *)
Example sscanf_blanks :
  sscanf_command_arg (list_ascii_of_string "  get  my key ") =
  (list_ascii_of_string "get", list_ascii_of_string "my key ").
Proof. reflexivity. Qed.

(** A word of more than 63 characters is cut: its tail becomes the
    argument. *)
Example sscanf_long_word :
  sscanf_command_arg (replicate 70 "x"%char) =
  (replicate 63 "x"%char, replicate 7 "x"%char).
Proof. reflexivity. Qed.

Example print_two_characters :
  let st := term_printString (cfg := vt52_config)
              (list_ascii_of_string "ab") blank_term in
  (cursorX st, cursorY st, take 3 (screen st)) =
  (2, 0, ["a"; "b"; NUL]%char).
Proof. vm_compute. reflexivity. Qed.

(** An escape character at the end of one string and a command letter at
    the start of the next are both literal text. *)
Example escape_split_over_two_calls :
  let st := term_printString (cfg := vt52_config) ["A"]%char
              (term_printString (cfg := vt52_config) ["027"]%char
                 blank_term) in
  (cursorX st, cursorY st, take 3 (screen st)) =
  (2, 0, ["027"; "A"; NUL]%char).
Proof. vm_compute. reflexivity. Qed.

(** The same two bytes in one string move the cursor up instead. *)
Example escape_in_one_call :
  let st := term_printString (cfg := vt52_config) ["027"; "A"]%char
              (term_printString (cfg := vt52_config)
                 (list_ascii_of_string "a" ++ [LF]) blank_term) in
  (cursorX st, cursorY st, take 2 (screen st)) = (0, 0, ["a"; NUL]%char).
Proof. vm_compute. reflexivity. Qed.

(** A line of forty characters wraps to the next row; the last row
    scrolls. *)
Example wrap_at_last_column :
  let st := term_printString (cfg := vt52_config)
              (replicate 40 "x"%char) blank_term in
  (cursorX st, cursorY st) = (0, 1).
Proof. vm_compute. reflexivity. Qed.

Example scroll_at_last_row :
  let st := term_printString (cfg := vt52_config)
              ("a"%char :: replicate 24 LF) blank_term in
  (cursorX st, cursorY st, take 1 (screen st),
   count_occ Z.eq_dec
     (omap (fun ev => match ev with
                      | DScrollupBuffer n => Some n
                      | _ => None
                      end) (display st)) 320) =
  (0, 23, [NUL], 1%nat).
Proof. vm_compute. reflexivity. Qed.

Lemma sample_commands_keep_input :
  Forall keeps_input sample_commands.
Proof. repeat constructor. Qed.

Lemma vt52_grid_ok : grid_ok (cfg := vt52_config).
Proof. unfold grid_ok; cbn. lia. Qed.

Lemma cursor_stays_on_grid_witness :
  in_bounds (cfg := vt52_config)
            (foldl (run_op (cfg := vt52_config)) blank_term sample_ops).
Proof.
  apply (cursor_stays_on_grid (cfg := vt52_config) vt52_grid_ok).
  split; cbn; lia.
Defined.

Lemma direct_cursor_addressing_witness :
  cursorX (term_printString (cfg := vt52_config)
             (address_sequence (cfg := vt52_config) 2 5) blank_term) = 5 /\
  cursorY (term_printString (cfg := vt52_config)
             (address_sequence (cfg := vt52_config) 2 5) blank_term) = 2 /\
  cursorY (term_printString (cfg := vt52_config)
             (address_sequence (cfg := vt52_config) 99 5) blank_term) = 0.
Proof.
  pose proof (direct_cursor_addressing (cfg := vt52_config) blank_term) as H.
  cbv zeta in H.
  destruct H as ((HX & HY & _) & (_ & HY' & _) & _);
    try (cbn; lia); [discriminate |].
  split; [exact HX |]. split; [exact HY | exact HY'].
Defined.

Lemma unrecognized_escape_ignored_witness :
  screen (term_printString (cfg := vt52_config) ["027"; "Z"]%char blank_term)
    = screen blank_term /\
  display (term_printString (cfg := vt52_config) ["027"; "Z"]%char blank_term)
    = [DTermRefresh].
Proof.
  pose proof (unrecognized_escape_ignored (cfg := vt52_config)
                "Z"%char [] blank_term) as H.
  destruct H as (_ & Hscreen & _ & _ & _ & _ & Hdisplay).
  - discriminate.
  - discriminate.
  - cbn; lia.
  - cbn. intuition discriminate.
  - split; [exact Hscreen | exact Hdisplay].
Defined.

Lemma backspace_at_line_start_witness :
  cursorX (fst (termInputChar (cfg := vt52_config) sample_commands BS
                  blank_term)) = 0 /\
  inputLength (fst (termInputChar (cfg := vt52_config) sample_commands BS
                      blank_term)) = 0.
Proof.
  pose proof (backspace_at_line_start (cfg := vt52_config) sample_commands
                blank_term) as H.
  cbv zeta in H.
  destruct H as ((HX & _) & _ & _ & Hempty & _);
    [cbn; lia | cbn; lia | left; reflexivity |].
  split; [exact HX | apply Hempty; reflexivity].
Defined.

(** The backspace rule as the specification words it fails: with the
    cursor at the corner and a character in the buffer, the length of the
    buffer does not stay at its value. *)
Lemma backspace_at_origin_shortens_line :
  (cursorX origin_with_text = 0 /\ cursorY origin_with_text = 0) /\
  inputLength origin_with_text = 1 /\
  inputLength (fst (termInputChar (cfg := vt52_config) sample_commands BS
                      origin_with_text)) = 0.
Proof. repeat split. Qed.

Lemma backspace_at_origin_returns_early_witness :
  inputLength (fst (termInputChar (cfg := vt52_config) sample_commands BS
                      origin_with_text)) = 0 /\
  display (fst (termInputChar (cfg := vt52_config) sample_commands BS
                  origin_with_text)) = [DTermChar 0 0 " "].
Proof.
  pose proof (backspace_at_origin_returns_early (cfg := vt52_config)
                sample_commands origin_with_text) as H.
  cbv zeta in H.
  destruct H as (Hlen & _ & _ & _ & _ & _ & _ & _ & Hdisplay & _);
    [cbn; lia | reflexivity | reflexivity |].
  split; [exact Hlen | exact Hdisplay].
Defined.

End TermProperties.

(** * The command channel under every interleaving *)

Module ChannelTraceProperties.
Import Channel ChannelTrace ChannelProperties.

Section WithCapacity.

Variable MAX_PROTOCOL_PAYLOAD_SIZE : Z.
Hypothesis capacity_nonneg : 0 <= MAX_PROTOCOL_PAYLOAD_SIZE.

Local Abbreviation handle := (handle_protocol_command MAX_PROTOCOL_PAYLOAD_SIZE).
Local Abbreviation take_snapshot := (term_loop_take MAX_PROTOCOL_PAYLOAD_SIZE).
Local Abbreviation wf_state := (wf_state MAX_PROTOCOL_PAYLOAD_SIZE).
Local Abbreviation wf_protocol := (wf_protocol MAX_PROTOCOL_PAYLOAD_SIZE).
Local Abbreviation slot := (buffer_at MAX_PROTOCOL_PAYLOAD_SIZE).
Local Abbreviation run_events := (run_events MAX_PROTOCOL_PAYLOAD_SIZE).
Local Abbreviation wf_event := (wf_event MAX_PROTOCOL_PAYLOAD_SIZE).
Local Abbreviation carries := (carries MAX_PROTOCOL_PAYLOAD_SIZE).
Local Abbreviation keeps_record := (keeps_record MAX_PROTOCOL_PAYLOAD_SIZE).
Local Abbreviation pending_record := (pending_record MAX_PROTOCOL_PAYLOAD_SIZE).
Local Abbreviation holds := (holds MAX_PROTOCOL_PAYLOAD_SIZE).

Lemma take_snapshot_wf ch : wf_state ch -> wf_state (snd (take_snapshot ch)).
Proof.
  intros Hwf. unfold term_loop_take.
  destruct (protocolBufferReady ch); [| exact Hwf].
  exact Hwf.
Qed.

Lemma initial_is_wf : wf_state (initial MAX_PROTOCOL_PAYLOAD_SIZE).
Proof.
  unfold Channel.wf_state; cbn.
  split; [reflexivity |]. split; [| split; [now left | lia]].
  repeat constructor; cbn; now rewrite length_replicate.
Qed.

Lemma run_events_wf evs : forall ch,
  wf_state ch -> Forall wf_event evs -> wf_state (fst (run_events evs ch)).
Proof.
  induction evs as [| ev evs IH]; intros ch Hwf Hevs; [exact Hwf |].
  apply Forall_cons in Hevs as [Hev Hevs].
  destruct ev as [p |]; cbn [ChannelTrace.run_events].
  - apply IH; [apply handle_wf |]; assumption.
  - pose proof (take_snapshot_wf ch Hwf) as Hwf'.
    destruct (take_snapshot ch) as [snapshot ch'].
    specialize (IH ch' Hwf' Hevs).
    destruct (run_events evs ch') as [final snapshots]. exact IH.
Qed.

(** X1.  The double-buffer invariant holds at program start and after every
    interleaving of publishes and drains: two slots of full capacity, the
    read and the write index naming one each, the counter within 32 bits.
    A publish touches the write slot only: the record published before it
    is still intact in the other slot, which has become the write slot. *)
Theorem double_buffer_invariant :
  wf_state (initial MAX_PROTOCOL_PAYLOAD_SIZE) /\
  (forall evs ch,
     wf_state ch -> Forall wf_event evs ->
     wf_state (fst (run_events evs ch))) /\
  (forall p ch,
     wf_state ch ->
     slot (handle p ch) (protocolWriteIndex (handle p ch)) =
     slot ch (protocolReadIndex ch)).
Proof.
  split; [exact initial_is_wf |]. split; [intros; now apply run_events_wf |].
  intros p ch (_ & _ & Hidx & _).
  unfold handle_protocol_command, buffer_at; cbn.
  rewrite list_lookup_insert_ne; [reflexivity |].
  destruct Hidx as [[-> ->] | [-> ->]]; cbn; lia.
Qed.

Lemma holds_pending ch : holds ch (pending_record ch).
Proof.
  unfold pending_record, holds.
  destruct (protocolBufferReady ch); [| reflexivity].
  split; [reflexivity |]. now repeat split.
Qed.

Lemma holds_after_publish p ch :
  wf_state ch -> wf_protocol p -> holds (handle p ch) (Some p).
Proof.
  intros Hwf Hp.
  destruct (handle_fields _ capacity_nonneg p ch Hwf Hp)
    as (Hready & _ & _ & Hid & Hsz & Hrd & Hck & Hpay).
  split; [exact Hready |]. repeat split; try assumption.
  destruct Hp as [_ Hplen].
  rewrite Hpay, take_app_le
    by (rewrite length_take; unfold Channel.copied; lia).
  now rewrite take_take, Nat.min_id.
Qed.

Lemma run_events_mailbox evs : forall ch o,
  wf_state ch -> Forall wf_event evs -> holds ch o ->
  Forall2 carries (snd (run_events evs ch)) (mailbox o evs).
Proof.
  induction evs as [| ev evs IH]; intros ch o Hwf Hevs Hholds;
    [constructor |].
  apply Forall_cons in Hevs as [Hev Hevs].
  destruct ev as [p |]; cbn [ChannelTrace.run_events mailbox].
  - apply IH; [apply handle_wf | | apply holds_after_publish]; assumption.
  - pose proof (take_snapshot_wf ch Hwf) as Hwf'.
    assert (Hnow : carries (fst (take_snapshot ch)) o /\
                   holds (snd (take_snapshot ch)) None).
    { unfold term_loop_take. destruct o as [p |]; cbn in Hholds.
      - destruct Hholds as [-> Hkeeps]. cbn.
        split; [split; [reflexivity | exact Hkeeps] | reflexivity].
      - rewrite Hholds. cbn. now repeat split. }
    destruct (take_snapshot ch) as [snapshot ch']. cbn [fst snd] in *.
    destruct Hnow as [Hcarries Hnone].
    specialize (IH ch' None Hwf' Hevs Hnone).
    destruct (run_events evs ch') as [final snapshots]. cbn [snd] in *.
    now constructor.
Qed.

(** X2.  For every interleaving of publishes and drains the channel behaves
    as a mailbox of depth one in which the latest record wins: each drain
    is handed the record of the most recent publish since the previous
    drain (its header, and the payload bytes its clamped size covers), or
    is told that there is none and gets the zero record. *)
Theorem channel_is_latest_wins_mailbox (evs : list Event) (ch : State) :
  wf_state ch -> Forall wf_event evs ->
  Forall2 carries (snd (run_events evs ch)) (mailbox (pending_record ch) evs).
Proof.
  intros Hwf Hevs. apply run_events_mailbox; try assumption.
  apply holds_pending.
Qed.

Lemma u32_add_l a b : u32 (u32 a + b) = u32 (a + b).
Proof. unfold u32. apply Zplus_mod_idemp_l. Qed.

(** X3.  No record is lost uncounted or delivered twice: after every
    interleaving, the records published, plus the one that was waiting at
    the start, are those handed to a drain, the one still waiting, and
    those the overwrite counter has counted (modulo 2^32). *)
Theorem every_record_is_accounted_for (evs : list Event) (ch : State) :
  0 <= protocolOverwriteCount ch < 4294967296 ->
  let final := fst (run_events evs ch) in
  let snapshots := snd (run_events evs ch) in
  protocolOverwriteCount final =
  u32 (protocolOverwriteCount ch +
       (waiting ch + publishes evs - delivered snapshots - waiting final)).
Proof.
  revert ch. induction evs as [| ev evs IH]; intros ch Hcount; cbv zeta.
  - cbn. unfold u32. rewrite Z.mod_small by lia. lia.
  - destruct ev as [p |]; cbn [ChannelTrace.run_events publishes].
    + assert (Hc : 0 <= protocolOverwriteCount (handle p ch) < 4294967296).
      { rewrite handle_count.
        destruct (protocolBufferReady ch); [apply Z.mod_pos_bound |]; lia. }
      rewrite (IH (handle p ch) Hc), handle_count.
      unfold waiting at 1 3. cbn [protocolBufferReady handle_protocol_command].
      destruct (protocolBufferReady ch).
      * rewrite u32_add_l. f_equal; lia.
      * f_equal; lia.
    + unfold term_loop_take, waiting at 1.
      destruct (protocolBufferReady ch) eqn:Hready.
      * set (ch' := mkState _ _ _ false _).
        specialize (IH ch' Hcount). cbv zeta in IH.
        destruct (run_events evs ch') as [final snapshots].
        cbn [fst snd delivered protocolReady] in *.
        rewrite IH. subst ch'. unfold waiting at 1. cbn. f_equal; lia.
      * specialize (IH ch Hcount). cbv zeta in IH.
        destruct (run_events evs ch) as [final snapshots].
        cbn [fst snd delivered protocolReady] in *.
        rewrite IH. unfold waiting at 1. rewrite Hready. f_equal; lia.
Qed.

End WithCapacity.

Lemma sample_events_wf : Forall (wf_event 8) sample_events.
Proof. repeat constructor; cbn; lia. Qed.

Lemma channel_is_latest_wins_mailbox_witness :
  Forall2 (carries 8)
          (snd (run_events 8 sample_events (initial 8)))
          (mailbox (pending_record 8 (initial 8)) sample_events).
Proof.
  apply (channel_is_latest_wins_mailbox 8 ltac:(lia) sample_events (initial 8)
           initial_wf sample_events_wf).
Defined.

Lemma every_record_is_accounted_for_witness :
  protocolOverwriteCount (fst (run_events 8 sample_events (initial 8))) = 1.
Proof.
  pose proof (every_record_is_accounted_for 8 sample_events (initial 8)) as H.
  cbv zeta in H. rewrite H; [reflexivity |].
  change (0 <= 0 < 4294967296). lia.
Defined.

Lemma double_buffer_invariant_witness :
  wf_state 8 (fst (run_events 8 sample_events (initial 8))).
Proof.
  apply (double_buffer_invariant 8).
  - exact initial_wf.
  - exact sample_events_wf.
Defined.

End ChannelTraceProperties.

(** * More properties of the line editor *)

Module LineEditorProperties.
Import Term TermExtra TermProperties.

Section WithConfig.

Context {cfg : Config}.

Lemma plain_key_steps commands chr st :
  plain chr ->
  termInputChar commands chr st =
  if inputLength st <? TERM_INPUT_BUFFER_SIZE - 1 then
    (display_termRefresh
       (termRenderChar chr
          (set_input (<[Z.to_nat (inputLength st) := chr]> (inputBuffer st))
                     (inputLength st + 1) st)), [])
  else (st, []).
Proof.
  intros (Hbs & Hlf & Hcr). unfold termInputChar.
  apply Ascii.eqb_neq in Hbs, Hlf, Hcr. now rewrite Hbs, Hlf, Hcr.
Qed.

Lemma holds_line_length st line :
  holds_line st line ->
  Z.of_nat (length line) <= TERM_INPUT_BUFFER_SIZE ->
  length (inputBuffer st) = Z.to_nat TERM_INPUT_BUFFER_SIZE.
Proof.
  intros [_ ->] Hlen. rewrite length_app, length_replicate. lia.
Qed.

Lemma backspace_input commands st :
  let st' := fst (termInputChar commands BS st) in
  inputLength st' =
    (if 0 <? inputLength st then inputLength st - 1 else inputLength st) /\
  inputBuffer st' =
    (if 0 <? inputLength st
     then <[Z.to_nat (inputLength st - 1) := NUL]> (inputBuffer st)
     else inputBuffer st).
Proof.
  cbv zeta. rewrite backspace_steps. cbv zeta.
  destruct (0 <? inputLength st); [| now split].
  destruct (cursorX st =? 0); [destruct (0 <? cursorY st) |]; now split.
Qed.

Lemma newline_clears_input commands chr st :
  Forall keeps_input commands -> chr = LF \/ chr = CR ->
  let st' := fst (termInputChar commands chr st) in
  inputLength st' = 0 /\
  inputBuffer st' =
    memset_from 0 (Z.to_nat TERM_INPUT_BUFFER_SIZE) NUL (inputBuffer st).
Proof.
  intros Hkeep Hchr. cbv zeta. rewrite newline_steps by assumption.
  cbv zeta. cbn [fst inputLength inputBuffer display_termRefresh display_call].
  rewrite (proj1 (term_printString_input _ _)),
          (proj2 (term_printString_input _ _)).
  cbn [inputBuffer inputLength set_input]. split; [reflexivity |]. f_equal.
  destruct (negb _ && _).
  - rewrite run_fallback_input, run_matching_input by assumption.
    apply draws_termRenderChar.
  - cbn [fst]. rewrite run_matching_input by assumption.
    apply draws_termRenderChar.
Qed.

Lemma backspace_holds_line commands st line :
  holds_line st line ->
  Z.of_nat (length line) <= TERM_INPUT_BUFFER_SIZE - 1 ->
  holds_line (fst (termInputChar commands BS st)) (removelast line).
Proof.
  intros [Hlen Hbuf] Hbound.
  destruct (backspace_input commands st) as [Hl Hb].
  unfold holds_line. rewrite Hl, Hb.
  destruct line as [| c0 l0 _] using rev_ind.
  - rewrite Hlen. cbn. now rewrite Hbuf.
  - rewrite removelast_last.
    rewrite length_app in Hlen, Hbound, Hbuf. cbn [length] in *.
    destruct (Z.ltb_spec 0 (inputLength st)); [| lia].
    rewrite Hlen, Hbuf. split; [lia |].
    rewrite <- app_assoc. cbn [app].
    replace (Z.to_nat (Z.of_nat (length l0 + 1) - 1))
      with (length l0 + 0)%nat by lia.
    rewrite insert_app_r. cbn.
    replace (Z.to_nat TERM_INPUT_BUFFER_SIZE - length l0)%nat
      with (S (Z.to_nat TERM_INPUT_BUFFER_SIZE - (length l0 + 1)))%nat
      by lia.
    reflexivity.
Qed.

Lemma removelast_length (l : list ascii) :
  (length (removelast l) <= length l)%nat.
Proof.
  destruct l as [| c l _] using rev_ind; [cbn; lia |].
  rewrite removelast_last, length_app. lia.
Qed.

Lemma key_edits_line commands chr st line :
  Forall keeps_input commands ->
  holds_line st line ->
  Z.of_nat (length line) <= TERM_INPUT_BUFFER_SIZE - 1 ->
  let line' := edit TERM_INPUT_BUFFER_SIZE line chr in
  holds_line (fst (termInputChar commands chr st)) line' /\
  Z.of_nat (length line') <= TERM_INPUT_BUFFER_SIZE - 1.
Proof.
  intros Hkeep Hline Hbound. cbv zeta. unfold edit.
  destruct (Ascii.eqb_spec chr BS) as [-> | Hbs].
  - split; [now apply backspace_holds_line |].
    pose proof (removelast_length line). lia.
  - destruct ((chr =? LF) || (chr =? CR))%char eqn:Hnl.
    + assert (Hchr : chr = LF \/ chr = CR).
      { apply orb_true_iff in Hnl as [H | H]; apply Ascii.eqb_eq in H; tauto. }
      destruct (newline_clears_input commands chr st Hkeep Hchr) as [Hl Hb].
      split; [| cbn; lia]. split; [exact Hl |].
      rewrite Hb. unfold memset_from. cbn [take app Nat.add length].
      rewrite drop_ge
        by (rewrite (holds_line_length st line Hline); lia).
      now rewrite app_nil_r, Nat.sub_0_r.
    + apply orb_false_iff in Hnl as [Hlf Hcr].
      apply Ascii.eqb_neq in Hlf, Hcr.
      assert (Hplain : plain chr) by now repeat split.
      destruct (Z.ltb_spec (Z.of_nat (length line))
                           (TERM_INPUT_BUFFER_SIZE - 1)) as [Hroom | Hfull].
      * destruct (type_plain_key commands chr st line Hplain Hline Hroom)
          as [H _].
        split; [exact H |]. rewrite length_app. cbn [length]. lia.
      * rewrite plain_key_steps by assumption.
        destruct Hline as [Hlen Hbuf].
        destruct (Z.ltb_spec (inputLength st) (TERM_INPUT_BUFFER_SIZE - 1));
          [lia |].
        cbn [fst]. now repeat split.
Qed.

(** X4.  The line editor refines a small text editor.  Whatever is typed,
    with whatever registry (its handlers leaving the input buffer alone),
    the input buffer holds the typed text with the backspaces applied, cut
    at the capacity less one, followed by NUL bytes up to the capacity, and
    [inputLength] is the length of that text: the line never outgrows the
    buffer and always ends in a NUL. *)
Theorem line_editor_refines_text_editor
    (commands : list Command) (keys : list ascii) (st : State)
    (line : list ascii) :
  Forall keeps_input commands ->
  holds_line st line ->
  Z.of_nat (length line) <= TERM_INPUT_BUFFER_SIZE - 1 ->
  let line' := foldl (edit TERM_INPUT_BUFFER_SIZE) line keys in
  let st' := fst (type_keys commands keys st) in
  holds_line st' line' /\
  0 <= inputLength st' <= TERM_INPUT_BUFFER_SIZE - 1 /\
  inputBuffer st' !! Z.to_nat (inputLength st') = Some NUL.
Proof.
  intros Hkeep. revert st line.
  assert (Hmain : forall st line,
            holds_line st line ->
            Z.of_nat (length line) <= TERM_INPUT_BUFFER_SIZE - 1 ->
            holds_line (fst (type_keys commands keys st))
                       (foldl (edit TERM_INPUT_BUFFER_SIZE) line keys) /\
            Z.of_nat (length (foldl (edit TERM_INPUT_BUFFER_SIZE) line keys))
              <= TERM_INPUT_BUFFER_SIZE - 1).
  { induction keys as [| chr keys IH]; intros st line Hline Hbound.
    - now split.
    - rewrite type_keys_cons. cbn [fst foldl].
      destruct (key_edits_line commands chr st line Hkeep Hline Hbound)
        as [H1 H2].
      now apply IH. }
  intros st line Hline Hbound. cbv zeta.
  destruct (Hmain st line Hline Hbound) as [[Hlen Hbuf] Hle].
  split; [now split |]. rewrite Hlen. split; [lia |].
  rewrite Hbuf, Nat2Z.id, lookup_app_r, Nat.sub_diag by lia.
  apply lookup_replicate_2. lia.
Qed.

(** X5.  A key that arrives when the line is full (capacity less one
    characters) is dropped without a trace: no static changes, nothing is
    drawn, no refresh is requested and no handler runs. *)
Theorem key_on_full_line_is_dropped
    (commands : list Command) (chr : ascii) (st : State) :
  plain chr -> TERM_INPUT_BUFFER_SIZE - 1 <= inputLength st ->
  termInputChar commands chr st = (st, []).
Proof.
  intros Hplain Hfull. rewrite plain_key_steps by assumption.
  destruct (Z.ltb_spec (inputLength st) (TERM_INPUT_BUFFER_SIZE - 1));
    [lia | reflexivity].
Qed.


(** ** Backspace on the screen *)

Lemma termRenderChar_plain chr st :
  chr <> LF -> chr <> CR -> chr <> NUL ->
  termRenderChar chr st =
  let st1 :=
    termPutChar chr
      (display_termChar (prevCursorX st) (prevCursorY st) " " st) in
  set_prevCursor (cursorX st1) (cursorY st1)
    (display_termCursor (cursorX st1) (cursorY st1) st1).
Proof.
  intros Hlf Hcr Hnul. unfold termRenderChar.
  apply Ascii.eqb_neq in Hlf, Hcr, Hnul. now rewrite Hlf, Hcr, Hnul.
Qed.

(** A character put anywhere but in the bottom-right corner lands in the
    cell under the cursor and moves the cursor on by one in reading order,
    without scrolling. *)
Lemma termPutChar_no_scroll chr st :
  grid_ok -> in_bounds st ->
  ~ (cursorX st = TERM_SCREEN_SIZE_X - 1 /\
     cursorY st = TERM_SCREEN_SIZE_Y - 1) ->
  screen (termPutChar chr st) =
    <[Z.to_nat (cursor_index st) := chr]> (screen st) /\
  cursor_index (termPutChar chr st) = cursor_index st + 1 /\
  in_bounds (termPutChar chr st) /\
  inputBuffer (termPutChar chr st) = inputBuffer st /\
  inputLength (termPutChar chr st) = inputLength st.
Proof.
  intros Hgrid Hst Hcorner. pose proof Hgrid as (HX & HY).
  pose proof Hst as [Hx Hy].
  split; [| split; [| split; [now apply termPutChar_in_bounds |]]].
  - unfold termPutChar, cursor_index.
    cbn [cursorX cursorY set_cursorX set_screen display_termChar display_call].
    rewrite (u8_small (cursorX st + 1)) by lia.
    destruct (Z.leb_spec TERM_SCREEN_SIZE_X (cursorX st + 1)); [| reflexivity].
    unfold next_row.
    cbn [cursorY set_cursorY set_cursorX set_screen display_termChar
         display_call].
    rewrite (u8_small (cursorY st + 1)) by lia.
    destruct (Z.leb_spec TERM_SCREEN_SIZE_Y (cursorY st + 1)); [lia |].
    reflexivity.
  - unfold cursor_index.
    destruct (termPutChar_cursor chr st Hgrid Hst) as [-> ->].
    destruct (Z.ltb_spec (cursorX st + 1) TERM_SCREEN_SIZE_X); [lia |].
    destruct (Z.ltb_spec (cursorY st + 1) TERM_SCREEN_SIZE_Y); lia.
  - destruct (draws_termPutChar chr st) as (Hb & Hl & _). now split.
Qed.

(** Where a backspace leaves the cursor and what it does to the screen. *)
Lemma backspace_cursor_screen commands st :
  grid_ok -> in_bounds st -> 0 < inputLength st ->
  ~ (cursorX st = 0 /\ cursorY st = 0) ->
  let st' := fst (termInputChar commands BS st) in
  in_bounds st' /\
  cursor_index st' = cursor_index st - 1 /\
  screen st' = <[Z.to_nat (cursor_index st') := NUL]> (screen st).
Proof.
  intros (HX & HY) [Hx Hy] Hlen Horigin. cbv zeta.
  rewrite backspace_steps. cbv zeta.
  destruct (Z.ltb_spec 0 (inputLength st)); [| lia].
  unfold in_bounds, cursor_index.
  destruct (Z.eqb_spec (cursorX st) 0) as [Hx0 | Hx0].
  - destruct (Z.ltb_spec 0 (cursorY st)); [| lia].
    cbn. rewrite !u8_small by lia. rewrite Hx0. repeat split; lia.
  - cbn. rewrite !u8_small by lia. repeat split; lia.
Qed.

(** X6.  A backspace with text on the line and the cursor anywhere but in
    the top-left corner steps the cursor back by one cell in reading order
    (from column 0 to the last column of the row above), keeps it on the
    grid, zeroes the cell it lands on, blanks that cell and the old cursor
    glyph on the display, draws the cursor there and asks for a refresh. *)
Theorem backspace_steps_back_one_cell
    (commands : list Command) (st : State) :
  grid_ok -> in_bounds st -> 0 < inputLength st ->
  ~ (cursorX st = 0 /\ cursorY st = 0) ->
  let st' := fst (termInputChar commands BS st) in
  in_bounds st' /\
  cursor_index st' = cursor_index st - 1 /\
  screen st' = <[Z.to_nat (cursor_index st') := NUL]> (screen st) /\
  (prevCursorX st' = cursorX st' /\ prevCursorY st' = cursorY st') /\
  display st' =
    display st ++
    [DTermChar (prevCursorX st) (prevCursorY st) " ";
     DTermChar (cursorX st') (cursorY st') " ";
     DTermCursor (cursorX st') (cursorY st'); DTermRefresh].
Proof.
  intros Hgrid Hst Hlen Horigin. cbv zeta.
  destruct (backspace_cursor_screen commands st Hgrid Hst Hlen Horigin)
    as (Hin & Hidx & Hscr).
  split; [exact Hin |]. split; [exact Hidx |]. split; [exact Hscr |].
  rewrite backspace_steps. cbv zeta.
  destruct (Z.ltb_spec 0 (inputLength st)); [| lia].
  destruct (Z.eqb_spec (cursorX st) 0) as [Hx0 | Hx0].
  - destruct (Z.ltb_spec 0 (cursorY st)) as [| Hy0].
    + cbn. rewrite <- !app_assoc. now repeat split.
    + destruct Hst as [_ Hy]. exfalso. apply Horigin. split; lia.
  - cbn. rewrite <- !app_assoc. now repeat split.
Qed.

(** X7.  Typing a visible character and taking it back with a backspace is
    a round trip: the line buffer and its length are what they were, the
    cursor is back where it was, and the cell the character went into is
    zero again.  (In the bottom-right corner the character scrolls the
    screen, and the cursor does not come back.) *)
Theorem type_then_backspace
    (commands : list Command) (chr : ascii) (st : State) (line : list ascii) :
  grid_ok -> in_bounds st ->
  ~ (cursorX st = TERM_SCREEN_SIZE_X - 1 /\
     cursorY st = TERM_SCREEN_SIZE_Y - 1) ->
  plain chr -> chr <> NUL ->
  holds_line st line ->
  Z.of_nat (length line) < TERM_INPUT_BUFFER_SIZE - 1 ->
  let typed := fst (termInputChar commands chr st) in
  let st' := fst (termInputChar commands BS typed) in
  holds_line typed (line ++ [chr]) /\
  screen typed = <[Z.to_nat (cursor_index st) := chr]> (screen st) /\
  holds_line st' line /\
  (cursorX st' = cursorX st /\ cursorY st' = cursorY st) /\
  screen st' = <[Z.to_nat (cursor_index st) := NUL]> (screen st).
Proof.
  intros Hgrid Hst Hcorner Hplain Hnul Hline Hroom. cbv zeta.
  pose proof Hgrid as (HX & HY). pose proof Hst as [Hx Hy].
  destruct (type_plain_key commands chr st line Hplain Hline Hroom)
    as [Htyped _].
  pose proof Hplain as (_ & Hlf & Hcr).
  set (typed := fst (termInputChar commands chr st)) in *.
  assert (Hshape : screen typed =
                     <[Z.to_nat (cursor_index st) := chr]> (screen st) /\
                   cursor_index typed = cursor_index st + 1 /\
                   in_bounds typed).
  { subst typed. rewrite plain_key_steps by assumption.
    destruct Hline as [Hlen _].
    destruct (Z.ltb_spec (inputLength st) (TERM_INPUT_BUFFER_SIZE - 1));
      [| lia].
    cbn [fst]. rewrite termRenderChar_plain by assumption. cbv zeta.
    set (st0 := display_termChar _ _ _ (set_input _ _ st)).
    assert (Hst0 : in_bounds st0) by exact Hst.
    destruct (termPutChar_no_scroll chr st0 Hgrid Hst0 Hcorner)
      as (Hscr & Hidx & Hin & _).
    repeat split; try apply Hin; [exact Hscr | exact Hidx]. }
  destruct Hshape as (Hscr & Hidx & Hin).
  assert (Hlen1 : 0 < inputLength typed).
  { destruct Htyped as [-> _]. rewrite length_app. cbn. lia. }
  assert (Horigin : ~ (cursorX typed = 0 /\ cursorY typed = 0)).
  { intros [H0 H1]. unfold cursor_index in Hidx. rewrite H0, H1 in Hidx. nia. }
  destruct (backspace_cursor_screen commands typed Hgrid Hin Hlen1 Horigin)
    as (Hin' & Hidx' & Hscr').
  set (st' := fst (termInputChar commands BS typed)) in *.
  split; [exact Htyped |]. split; [exact Hscr |].
  assert (Hsame : cursor_index st' = cursor_index st)
    by (subst st'; rewrite Hidx', Hidx; lia).
  split; [| split].
  - pose proof (backspace_holds_line commands typed (line ++ [chr]) Htyped)
      as H.
    rewrite removelast_last in H. apply H.
    rewrite length_app. cbn [length]. lia.
  - unfold cursor_index in Hsame.
    destruct Hin' as [Hx' Hy'].
    destruct (Z.lt_trichotomy (cursorY st') (cursorY st)) as [Hlt | [Heq | Hgt]].
    + assert ((cursorY st' + 1) * TERM_SCREEN_SIZE_X
              <= cursorY st * TERM_SCREEN_SIZE_X) by nia. lia.
    + rewrite Heq in Hsame. split; lia.
    + assert ((cursorY st + 1) * TERM_SCREEN_SIZE_X
              <= cursorY st' * TERM_SCREEN_SIZE_X) by nia. lia.
  - rewrite Hscr', Hscr, Hsame. apply list_insert_insert_eq.
Qed.



End WithConfig.

Lemma line_editor_refines_text_editor_witness :
  holds_line (cfg := vt52_config)
    (fst (type_keys (cfg := vt52_config) sample_commands
            ["h"; "i"; BS; "!"]%char blank_term))
    ["h"; "!"]%char.
Proof.
  pose proof (line_editor_refines_text_editor (cfg := vt52_config)
                sample_commands ["h"; "i"; BS; "!"]%char blank_term []
                sample_commands_keep_input) as H.
  cbv zeta in H. destruct H as (Hline & _).
  - split; reflexivity.
  - cbn; lia.
  - exact Hline.
Defined.

Lemma key_on_full_line_is_dropped_witness :
  inputLength full_line_term = 255 /\
  termInputChar (cfg := vt52_config) sample_commands "b"%char full_line_term
    = (full_line_term, []).
Proof.
  split; [reflexivity |].
  apply (key_on_full_line_is_dropped (cfg := vt52_config)).
  - repeat split; discriminate.
  - cbn; lia.
Defined.

Lemma backspace_steps_back_one_cell_witness :
  cursor_index (cfg := vt52_config) one_key_term = 1 /\
  cursor_index (cfg := vt52_config)
    (fst (termInputChar (cfg := vt52_config) sample_commands BS
            one_key_term)) = 1 - 1.
Proof.
  split; [reflexivity |].
  pose proof (backspace_steps_back_one_cell (cfg := vt52_config)
                sample_commands one_key_term vt52_grid_ok) as H.
  cbv zeta in H. destruct H as (_ & Hindex & _).
  - vm_compute. intuition discriminate.
  - reflexivity.
  - vm_compute. intros (HX & _). discriminate HX.
  - exact Hindex.
Defined.

Lemma type_then_backspace_witness :
  screen (fst (termInputChar (cfg := vt52_config) sample_commands "a"%char
                 blank_term)) !! 0%nat = Some "a"%char /\
  screen (fst (termInputChar (cfg := vt52_config) sample_commands BS
                 (fst (termInputChar (cfg := vt52_config) sample_commands
                         "a"%char blank_term)))) = screen blank_term.
Proof.
  pose proof (type_then_backspace (cfg := vt52_config) sample_commands
                "a"%char blank_term [] vt52_grid_ok) as H.
  cbv zeta in H. destruct H as (_ & Htyped & _ & _ & Hscreen).
  - split; cbn; lia.
  - cbn. intros (HX & _). discriminate HX.
  - repeat split; discriminate.
  - discriminate.
  - split; reflexivity.
  - cbn; lia.
  - split; [rewrite Htyped | rewrite Hscreen]; reflexivity.
Defined.


End LineEditorProperties.

(** * More properties of rendering *)

Module RenderingProperties.
Import Term TermExtra TermProperties LineEditorProperties.

Section WithConfig.

Context {cfg : Config}.

(** ** Plain text *)

Lemma print_loop_printable text : forall buf st,
  Forall printable text ->
  print_loop text (mkMachine STATE_NORMAL buf st) =
  mkMachine STATE_NORMAL buf (flush_literal text st).
Proof.
  induction text as [| chr text IH]; intros buf st Htext; [reflexivity |].
  apply Forall_cons in Htext as [(Hnul & _ & _ & Hesc) Htext].
  rewrite print_loop_cons by assumption.
  unfold print_step. cbn [state escBuffer term].
  apply Ascii.eqb_neq in Hesc. rewrite Hesc. now rewrite IH.
Qed.

Lemma render_printable chr st :
  grid_ok -> in_bounds st -> printable chr ->
  cursor_index st < TERM_SCREEN_SIZE_X * TERM_SCREEN_SIZE_Y - 1 ->
  let st' := termRenderChar chr st in
  screen st' = <[Z.to_nat (cursor_index st) := chr]> (screen st) /\
  cursor_index st' = cursor_index st + 1 /\
  in_bounds st'.
Proof.
  intros Hgrid Hst (Hnul & Hlf & Hcr & _) Hroom. cbv zeta.
  rewrite termRenderChar_plain by assumption. cbv zeta.
  set (st0 := display_termChar _ _ _ st).
  assert (Hst0 : in_bounds st0) by exact Hst.
  assert (Hcorner : ~ (cursorX st0 = TERM_SCREEN_SIZE_X - 1 /\
                       cursorY st0 = TERM_SCREEN_SIZE_Y - 1)).
  { intros [HX HY]. unfold cursor_index in Hroom.
    change (cursorX st0) with (cursorX st) in HX.
    change (cursorY st0) with (cursorY st) in HY.
    rewrite HX, HY in Hroom. lia. }
  destruct (termPutChar_no_scroll chr st0 Hgrid Hst0 Hcorner)
    as (Hscr & Hidx & Hin & _).
  repeat split; try apply Hin; [exact Hscr | exact Hidx].
Qed.

Lemma flush_literal_printable text : forall st,
  grid_ok -> in_bounds st -> Forall printable text ->
  cursor_index st + Z.of_nat (length text)
    < TERM_SCREEN_SIZE_X * TERM_SCREEN_SIZE_Y ->
  Z.of_nat (length (screen st)) = TERM_SCREEN_SIZE_X * TERM_SCREEN_SIZE_Y ->
  let st' := flush_literal text st in
  let i := Z.to_nat (cursor_index st) in
  screen st' =
    take i (screen st) ++ text ++ drop (i + length text) (screen st) /\
  cursor_index st' = cursor_index st + Z.of_nat (length text) /\
  in_bounds st'.
Proof.
  induction text as [| chr text IH]; intros st Hgrid Hst Htext Hroom Hfull;
    cbv zeta.
  - cbn. rewrite Nat.add_0_r, take_drop. repeat split; try apply Hst. lia.
  - apply Forall_cons in Htext as [Hchr Htext]. cbn [length] in Hroom.
    destruct (render_printable chr st Hgrid Hst Hchr) as (Hscr & Hidx & Hin);
      [lia |].
    cbn [flush_literal foldl]. fold (flush_literal text (termRenderChar chr st)).
    assert (Hidx0 : 0 <= cursor_index st).
    { destruct Hst as [? ?], Hgrid as [? ?]. unfold cursor_index. nia. }
    destruct (IH (termRenderChar chr st) Hgrid Hin Htext) as (H1 & H2 & H3).
    + rewrite Hidx. lia.
    + rewrite Hscr, length_insert. exact Hfull.
    + split; [| split; [rewrite H2, Hidx; cbn [length]; lia | exact H3]].
      rewrite H1, Hscr, Hidx.
      set (i := Z.to_nat (cursor_index st)).
      replace (Z.to_nat (cursor_index st + 1)) with (i + 1)%nat by lia.
      rewrite insert_take_drop by lia.
      assert (Hi : i = length (take i (screen st)))
        by (rewrite length_take; lia).
      rewrite (take_app_add' _ _ i 1 Hi). cbn [take].
      replace (i + 1 + length text)%nat with (i + S (length text))%nat by lia.
      rewrite (drop_app_add' _ _ i (S (length text)) Hi). cbn [drop].
      rewrite drop_drop, <- app_assoc. cbn [length app].
      rewrite take_0. cbn [app].
      replace (S i + length text)%nat with (i + S (length text))%nat by lia.
      reflexivity.
Qed.

(** X9.  Text without control characters, printed where it fits before the
    last cell of the grid, is on the screen afterwards: the cells from the
    cursor on hold the text, in reading order and across row ends, every
    other cell is as before, and the cursor stands behind the text, still
    on the grid. *)
Theorem printed_text_is_on_screen (text : list ascii) (st : State) :
  grid_ok -> in_bounds st -> screen_full st ->
  Forall printable text ->
  cursor_index st + Z.of_nat (length text)
    < TERM_SCREEN_SIZE_X * TERM_SCREEN_SIZE_Y ->
  let st' := term_printString text st in
  let i := Z.to_nat (cursor_index st) in
  screen st' =
    take i (screen st) ++ text ++ drop (i + length text) (screen st) /\
  cursor_index st' = cursor_index st + Z.of_nat (length text) /\
  in_bounds st' /\ screen_full st'.
Proof.
  intros Hgrid Hst Hfull Htext Hroom. cbv zeta.
  rewrite term_printString_finish, print_loop_printable by assumption.
  unfold finish. cbn [state term].
  destruct (flush_literal_printable text st Hgrid Hst Htext Hroom Hfull)
    as (Hscr & Hidx & Hin).
  assert (Hidx0 : 0 <= cursor_index st).
  { destruct Hst as [? ?], Hgrid as [? ?]. unfold cursor_index. nia. }
  split; [exact Hscr |]. split; [exact Hidx |]. split; [exact Hin |].
  unfold screen_full in *.
  change (screen (display_termRefresh (flush_literal text st)))
    with (screen (flush_literal text st)).
  rewrite Hscr, !length_app, length_take, length_drop. lia.
Qed.


(** ** Clearing *)

Lemma cell_index_inj x y x' y' :
  0 <= x < TERM_SCREEN_SIZE_X -> 0 <= x' < TERM_SCREEN_SIZE_X ->
  0 <= y -> 0 <= y' ->
  cell_index x y = cell_index x' y' -> x = x' /\ y = y'.
Proof.
  intros Hx Hx' Hy Hy' Heq. unfold cell_index in Heq.
  assert (H : y * TERM_SCREEN_SIZE_X + x = y' * TERM_SCREEN_SIZE_X + x')
    by nia.
  destruct (Z.lt_trichotomy y y') as [Hlt | [-> | Hgt]].
  - assert ((y + 1) * TERM_SCREEN_SIZE_X <= y' * TERM_SCREEN_SIZE_X) by nia.
    lia.
  - split; lia.
  - assert ((y' + 1) * TERM_SCREEN_SIZE_X <= y * TERM_SCREEN_SIZE_X) by nia.
    lia.
Qed.

Lemma cell_index_on_screen x y st :
  screen_full st ->
  0 <= x < TERM_SCREEN_SIZE_X -> 0 <= y < TERM_SCREEN_SIZE_Y ->
  (cell_index x y < length (screen st))%nat.
Proof. unfold screen_full, cell_index. intros Hfull Hx Hy. nia. Qed.

Lemma for_range_foldl from to body st :
  for_range from to body st =
  foldl (fun st pos => body pos st) st
        (seqZ from (Z.of_nat (Z.to_nat (to - from)))).
Proof.
  unfold for_range. destruct (Z.le_gt_cases 0 (to - from)).
  - now rewrite Z2Nat.id.
  - rewrite !seqZ_nil by lia. reflexivity.
Qed.

Lemma clear_cell_screen posX posY st :
  screen (clear_cell posX posY st) =
  <[cell_index posX posY := NUL]> (screen st).
Proof. reflexivity. Qed.

(** The columns [a .. a + k) of one row, cleared from left to right. *)
Lemma clear_columns row a k : forall st,
  screen_full st -> 0 <= row < TERM_SCREEN_SIZE_Y ->
  0 <= a -> a + Z.of_nat k <= TERM_SCREEN_SIZE_X ->
  let st' := foldl (fun st pos => clear_cell pos row st) st
                   (seqZ a (Z.of_nat k)) in
  screen_full st' /\
  forall x y,
    0 <= x < TERM_SCREEN_SIZE_X -> 0 <= y < TERM_SCREEN_SIZE_Y ->
    screen st' !! cell_index x y =
    if (y =? row) && (a <=? x) && (x <? a + Z.of_nat k)
    then Some NUL else screen st !! cell_index x y.
Proof.
  induction k as [| k IH]; intros st Hfull Hrow Ha Hk; cbv zeta.
  - change (Z.of_nat 0) with 0. rewrite seqZ_nil by lia. cbn [foldl].
    split; [exact Hfull |]. intros x y Hx Hy.
    destruct (y =? row), (Z.leb_spec a x), (Z.ltb_spec x (a + 0));
      cbn; try reflexivity; lia.
  - rewrite seqZ_S, foldl_app. cbn [foldl].
    destruct (IH st Hfull Hrow Ha) as [Hfull' Hcells]; [lia |].
    set (st1 := foldl _ st (seqZ a (Z.of_nat k))) in *.
    split; [unfold screen_full in *;
            now rewrite clear_cell_screen, length_insert |].
    rewrite clear_cell_screen.
    intros x y Hx Hy.
    destruct (decide (cell_index (a + Z.of_nat k) row = cell_index x y))
      as [Heq | Hne].
    + apply cell_index_inj in Heq as [<- <-]; try lia.
      rewrite list_lookup_insert_eq
        by (apply cell_index_on_screen; [assumption | lia | lia]).
      rewrite Z.eqb_refl.
      destruct (Z.leb_spec a (a + Z.of_nat k)),
               (Z.ltb_spec (a + Z.of_nat k) (a + Z.of_nat (S k)));
        cbn; try reflexivity; lia.
    + rewrite list_lookup_insert_ne by exact Hne.
      rewrite (Hcells x y Hx Hy).
      destruct (Z.eqb_spec y row) as [-> |]; [| reflexivity].
      destruct (Z.leb_spec a x); [| reflexivity]. cbn [andb].
      destruct (Z.ltb_spec x (a + Z.of_nat k)),
               (Z.ltb_spec x (a + Z.of_nat (S k))); try reflexivity; try lia.
      exfalso. apply Hne. f_equal. lia.
Qed.

Lemma clear_to_row_end row a st :
  grid_ok -> screen_full st -> 0 <= row < TERM_SCREEN_SIZE_Y ->
  0 <= a <= TERM_SCREEN_SIZE_X ->
  let st' := for_range a TERM_SCREEN_SIZE_X
               (fun posX => clear_cell posX row) st in
  screen_full st' /\
  forall x y,
    0 <= x < TERM_SCREEN_SIZE_X -> 0 <= y < TERM_SCREEN_SIZE_Y ->
    screen st' !! cell_index x y =
    if (y =? row) && (a <=? x)
    then Some NUL else screen st !! cell_index x y.
Proof.
  intros Hgrid Hfull Hrow Ha. cbv zeta. rewrite for_range_foldl.
  destruct (clear_columns row a (Z.to_nat (TERM_SCREEN_SIZE_X - a)) st
              Hfull Hrow) as [Hfull' Hcells]; [lia | lia |].
  split; [exact Hfull' |]. intros x y Hx Hy.
  rewrite (Hcells x y Hx Hy).
  destruct (y =? row), (Z.leb_spec a x); cbn [andb]; try reflexivity.
  destruct (Z.ltb_spec x (a + Z.of_nat (Z.to_nat (TERM_SCREEN_SIZE_X - a))));
    [reflexivity | lia].
Qed.

(** The rows [b .. b + m), each cleared from column [a] to its end. *)
Lemma clear_rows b m a : forall st,
  grid_ok -> screen_full st ->
  0 <= b -> b + Z.of_nat m <= TERM_SCREEN_SIZE_Y ->
  0 <= a <= TERM_SCREEN_SIZE_X ->
  let st' :=
    foldl (fun st posY =>
             for_range a TERM_SCREEN_SIZE_X
               (fun posX => clear_cell posX posY) st)
          st (seqZ b (Z.of_nat m)) in
  screen_full st' /\
  forall x y,
    0 <= x < TERM_SCREEN_SIZE_X -> 0 <= y < TERM_SCREEN_SIZE_Y ->
    screen st' !! cell_index x y =
    if (b <=? y) && (y <? b + Z.of_nat m) && (a <=? x)
    then Some NUL else screen st !! cell_index x y.
Proof.
  induction m as [| m IH]; intros st Hgrid Hfull Hb Hm Ha; cbv zeta.
  - change (Z.of_nat 0) with 0. rewrite seqZ_nil by lia. cbn [foldl].
    split; [exact Hfull |]. intros x y Hx Hy.
    destruct (Z.leb_spec b y), (Z.ltb_spec y (b + 0));
      cbn; try reflexivity; lia.
  - rewrite seqZ_S, foldl_app. cbn [foldl].
    destruct (IH st Hgrid Hfull Hb) as [Hfull' Hcells]; [lia | lia |].
    set (st1 := foldl _ st (seqZ b (Z.of_nat m))) in *.
    destruct (clear_to_row_end (b + Z.of_nat m) a st1 Hgrid Hfull')
      as [Hfull'' Hrow]; [lia | lia |].
    split; [exact Hfull'' |]. intros x y Hx Hy.
    rewrite (Hrow x y Hx Hy), (Hcells x y Hx Hy).
    destruct (Z.eqb_spec y (b + Z.of_nat m)) as [-> | Hne],
             (Z.leb_spec a x); cbn [andb].
    + destruct (Z.leb_spec b (b + Z.of_nat m)),
               (Z.ltb_spec (b + Z.of_nat m) (b + Z.of_nat (S m)));
        cbn; try reflexivity; lia.
    + now rewrite !andb_false_r.
    + destruct (Z.leb_spec b y); [| reflexivity]. cbn [andb].
      destruct (Z.ltb_spec y (b + Z.of_nat m)),
               (Z.ltb_spec y (b + Z.of_nat (S m)));
        cbn; try reflexivity; lia.
    + now rewrite !andb_false_r.
Qed.

Lemma clear_from_row b a st :
  grid_ok -> screen_full st ->
  0 <= b <= TERM_SCREEN_SIZE_Y -> 0 <= a <= TERM_SCREEN_SIZE_X ->
  let st' :=
    for_range b TERM_SCREEN_SIZE_Y
      (fun posY => for_range a TERM_SCREEN_SIZE_X
                     (fun posX => clear_cell posX posY)) st in
  screen_full st' /\
  forall x y,
    0 <= x < TERM_SCREEN_SIZE_X -> 0 <= y < TERM_SCREEN_SIZE_Y ->
    screen st' !! cell_index x y =
    if (b <=? y) && (a <=? x)
    then Some NUL else screen st !! cell_index x y.
Proof.
  intros Hgrid Hfull Hb Ha. cbv zeta. rewrite for_range_foldl.
  destruct (clear_rows b (Z.to_nat (TERM_SCREEN_SIZE_Y - b)) a st
              Hgrid Hfull) as [Hfull' Hcells]; [lia | lia | lia |].
  split; [exact Hfull' |]. intros x y Hx Hy.
  rewrite (Hcells x y Hx Hy).
  destruct (Z.leb_spec b y); cbn [andb]; [| reflexivity].
  destruct (Z.ltb_spec y (b + Z.of_nat (Z.to_nat (TERM_SCREEN_SIZE_Y - b))));
    [reflexivity | lia].
Qed.

(** A two-byte escape sequence printed on its own. *)
Lemma print_escape_command c st :
  TERM_ESC_CHAR <> NUL -> c <> NUL -> c <> "Y"%char ->
  2 < TERM_ESC_BUFFLINE_SIZE ->
  term_printString [TERM_ESC_CHAR; c] st =
  display_termRefresh (vt52ProcessSequence [TERM_ESC_CHAR; c] st).
Proof.
  intros Hesc Hc HY Hsize. rewrite term_printString_finish.
  rewrite print_loop_cons, print_step_start by assumption.
  rewrite print_loop_cons, print_step_command by assumption.
  reflexivity.
Qed.

(** X10.  [ESC K] clears from the cursor to the end of its row: those cells
    become NUL, every other cell of the grid keeps its character, and the
    cursor stays where it is. *)
Theorem escape_K_clears_to_end_of_line (st : State) :
  TERM_ESC_CHAR <> NUL -> 2 < TERM_ESC_BUFFLINE_SIZE ->
  grid_ok -> in_bounds st -> screen_full st ->
  let st' := term_printString [TERM_ESC_CHAR; "K"%char] st in
  (cursorX st' = cursorX st /\ cursorY st' = cursorY st) /\
  screen_full st' /\
  forall x y,
    0 <= x < TERM_SCREEN_SIZE_X -> 0 <= y < TERM_SCREEN_SIZE_Y ->
    screen st' !! cell_index x y =
    if (y =? cursorY st) && (cursorX st <=? x)
    then Some NUL else screen st !! cell_index x y.
Proof.
  intros Hesc Hsize Hgrid [Hx Hy] Hfull. cbv zeta.
  rewrite print_escape_command by (assumption || discriminate).
  change (vt52ProcessSequence [TERM_ESC_CHAR; "K"%char] st)
    with (for_range (cursorX st) TERM_SCREEN_SIZE_X
            (fun posX => clear_cell posX (cursorY st)) st).
  destruct (clear_to_row_end (cursorY st) (cursorX st) st Hgrid Hfull Hy)
    as [Hfull' Hcells]; [lia |].
  split; [| split; [exact Hfull' | exact Hcells]].
  apply for_range_cursor. intros. apply clear_cell_cursor.
Qed.

(** X11.  [ESC J] clears, on the cursor row and on every row below it, the
    cells from the cursor column to the end of the row.  The cells left of
    the cursor column keep their characters, also on the rows below; rows
    above the cursor are untouched and the cursor does not move. *)
Theorem escape_J_clears_right_of_cursor_column (st : State) :
  TERM_ESC_CHAR <> NUL -> 2 < TERM_ESC_BUFFLINE_SIZE ->
  grid_ok -> in_bounds st -> screen_full st ->
  let st' := term_printString [TERM_ESC_CHAR; "J"%char] st in
  (cursorX st' = cursorX st /\ cursorY st' = cursorY st) /\
  screen_full st' /\
  forall x y,
    0 <= x < TERM_SCREEN_SIZE_X -> 0 <= y < TERM_SCREEN_SIZE_Y ->
    screen st' !! cell_index x y =
    if (cursorY st <=? y) && (cursorX st <=? x)
    then Some NUL else screen st !! cell_index x y.
Proof.
  intros Hesc Hsize Hgrid [Hx Hy] Hfull. cbv zeta.
  rewrite print_escape_command by (assumption || discriminate).
  change (vt52ProcessSequence [TERM_ESC_CHAR; "J"%char] st)
    with (for_range (cursorY st) TERM_SCREEN_SIZE_Y
            (fun posY => for_range (cursorX st) TERM_SCREEN_SIZE_X
                           (fun posX => clear_cell posX posY)) st).
  destruct (clear_from_row (cursorY st) (cursorX st) st Hgrid Hfull)
    as [Hfull' Hcells]; [lia | lia |].
  split; [| split; [exact Hfull' | exact Hcells]].
  apply (clear_rows_cursor (cursorY st) (cursorX st) st).
Qed.

(** X12.  [ESC E] homes the cursor and clears the whole grid: every cell is
    NUL, the cursor and the remembered previous cursor are at the top-left
    corner, whatever the screen held and wherever the cursor was. *)
Theorem escape_E_clears_screen_and_homes (st : State) :
  TERM_ESC_CHAR <> NUL -> 2 < TERM_ESC_BUFFLINE_SIZE ->
  grid_ok -> screen_full st ->
  let st' := term_printString [TERM_ESC_CHAR; "E"%char] st in
  (cursorX st' = 0 /\ cursorY st' = 0) /\
  (prevCursorX st' = 0 /\ prevCursorY st' = 0) /\
  screen_full st' /\
  forall x y,
    0 <= x < TERM_SCREEN_SIZE_X -> 0 <= y < TERM_SCREEN_SIZE_Y ->
    screen st' !! cell_index x y = Some NUL.
Proof.
  intros Hesc Hsize Hgrid Hfull. cbv zeta. pose proof Hgrid as (HX & HY).
  rewrite print_escape_command by (assumption || discriminate).
  set (homed := termRenderChar NUL (set_cursorY 0 (set_cursorX 0 st))).
  change (vt52ProcessSequence [TERM_ESC_CHAR; "E"%char] st)
    with (for_range 0 TERM_SCREEN_SIZE_Y
            (fun posY => for_range 0 TERM_SCREEN_SIZE_X
                           (fun posX => clear_cell posX posY)) homed).
  assert (Hhomed : screen_full homed) by exact Hfull.
  destruct (clear_from_row 0 0 homed Hgrid Hhomed) as [Hfull' Hcells];
    [lia | lia |].
  destruct (clear_rows_cursor 0 0 homed) as [HcX HcY].
  split; [split; [exact HcX | exact HcY] |].
  split; [| split; [exact Hfull' |]].
  - apply (for_range_preserves
             (fun s => prevCursorX s = 0 /\ prevCursorY s = 0));
      [| now split].
    intros posY s Hs.
    apply (for_range_preserves
             (fun s => prevCursorX s = 0 /\ prevCursorY s = 0));
      [| exact Hs].
    intros posX s' Hs'. exact Hs'.
  - intros x y Hx Hy.
    change (screen (display_termRefresh ?s)) with (screen s).
    rewrite (Hcells x y Hx Hy).
    destruct (Z.leb_spec 0 y), (Z.leb_spec 0 x); cbn; try reflexivity; lia.
Qed.


(** ** Strings printed in pieces *)

Lemma same_terminal_refl st : same_terminal st st.
Proof. now repeat split. Qed.

Lemma same_terminal_refresh st : same_terminal (display_termRefresh st) st.
Proof. now repeat split. Qed.

(** Rendering never reads the trace of display calls: the functions below
    take states that agree but for the trace to states that do. *)
Ltac same_terminal_by_cases :=
  let H := fresh "H" in
  intros H;
  match goal with
  | |- same_terminal (_ ?st1) (_ ?st2) => destruct st1, st2
  end;
  unfold same_terminal in H;
  cbn [screen cursorX cursorY prevCursorX prevCursorY inputBuffer
       inputLength] in H;
  destruct H as (? & ? & ? & ? & ? & ? & ?); subst;
  unfold termRenderChar, termPutChar, next_row, termScrollUp,
    termScrollupBuffer, clear_cell, display_termChar, display_termCursor;
  cbv zeta;
  repeat (cbn [screen cursorX cursorY prevCursorX prevCursorY inputBuffer
               inputLength display set_screen set_cursorX set_cursorY
               set_prevCursor display_call];
          match goal with
          | |- context [if ?b then _ else _] => destruct b
          end);
  unfold same_terminal;
  cbn [screen cursorX cursorY prevCursorX prevCursorY inputBuffer
       inputLength display set_screen set_cursorX set_cursorY
       set_prevCursor display_call];
  repeat split.

Lemma same_terminal_termRenderChar chr st1 st2 :
  same_terminal st1 st2 ->
  same_terminal (termRenderChar chr st1) (termRenderChar chr st2).
Proof. same_terminal_by_cases. Qed.

Lemma same_terminal_clear_cell posX posY st1 st2 :
  same_terminal st1 st2 ->
  same_terminal (clear_cell posX posY st1) (clear_cell posX posY st2).
Proof. same_terminal_by_cases. Qed.

Lemma same_terminal_set_cursorX v st1 st2 :
  same_terminal st1 st2 ->
  same_terminal (set_cursorX v st1) (set_cursorX v st2).
Proof. same_terminal_by_cases. Qed.

Lemma same_terminal_set_cursorY v st1 st2 :
  same_terminal st1 st2 ->
  same_terminal (set_cursorY v st1) (set_cursorY v st2).
Proof. same_terminal_by_cases. Qed.

Lemma same_terminal_for_range from to body st1 st2 :
  (forall pos s1 s2, same_terminal s1 s2 ->
                     same_terminal (body pos s1) (body pos s2)) ->
  same_terminal st1 st2 ->
  same_terminal (for_range from to body st1) (for_range from to body st2).
Proof.
  intros Hbody. unfold for_range.
  generalize (seqZ from (to - from)) as l. intros l. revert st1 st2.
  induction l as [| pos l IH]; intros st1 st2 H; cbn; [exact H |].
  apply IH, Hbody, H.
Qed.

Lemma same_terminal_clear_rows fromY fromX st1 st2 :
  same_terminal st1 st2 ->
  same_terminal
    (for_range fromY TERM_SCREEN_SIZE_Y
       (fun posY => for_range fromX TERM_SCREEN_SIZE_X
                      (fun posX => clear_cell posX posY)) st1)
    (for_range fromY TERM_SCREEN_SIZE_Y
       (fun posY => for_range fromX TERM_SCREEN_SIZE_X
                      (fun posX => clear_cell posX posY)) st2).
Proof.
  apply same_terminal_for_range. intros posY s1 s2.
  apply same_terminal_for_range. intros posX s1' s2'.
  apply same_terminal_clear_cell.
Qed.

Lemma same_terminal_vt52ProcessSequence seq st1 st2 :
  same_terminal st1 st2 ->
  same_terminal (vt52ProcessSequence seq st1) (vt52ProcessSequence seq st2).
Proof.
  intros H. pose proof H as (_ & HX & HY & _).
  unfold vt52ProcessSequence. cbv zeta. rewrite HX, HY.
  repeat match goal with
         | |- same_terminal (if ?b then _ else _) (if ?b then _ else _) =>
             destruct b
         end;
    try exact H;
    try apply same_terminal_clear_rows;
    try apply same_terminal_termRenderChar;
    repeat match goal with
           | |- same_terminal (if ?b then _ else _) (if ?b then _ else _) =>
               destruct b
           end;
    try exact H;
    try (apply same_terminal_set_cursorX; try apply same_terminal_set_cursorY;
         exact H);
    try (apply same_terminal_set_cursorY; try apply same_terminal_set_cursorX;
         exact H).
  apply same_terminal_for_range; [| exact H].
  intros posX s1 s2. apply same_terminal_clear_cell.
Qed.

Lemma same_terminal_flush_literal bytes : forall st1 st2,
  same_terminal st1 st2 ->
  same_terminal (flush_literal bytes st1) (flush_literal bytes st2).
Proof.
  induction bytes as [| chr bytes IH]; intros st1 st2 H; cbn; [exact H |].
  apply IH, same_terminal_termRenderChar, H.
Qed.

Lemma same_machine_step chr m1 m2 :
  same_machine m1 m2 -> same_machine (print_step chr m1) (print_step chr m2).
Proof.
  destruct m1 as [s1 b1 t1], m2 as [s2 b2 t2].
  intros (Hs & Hb & Ht); cbn in Hs, Hb, Ht. subst s2 b2.
  unfold print_step. cbn [state escBuffer term]. destruct s1.
  - destruct (_ =? _)%char;
      (split; [reflexivity | split; [reflexivity |]]); cbn [term];
      [exact Ht | now apply same_terminal_termRenderChar].
  - cbv zeta.
    repeat match goal with
           | |- context [if ?b then _ else _] => destruct b
           end;
      (split; [reflexivity | split; [reflexivity |]]); cbn [term];
      try apply same_terminal_flush_literal;
      try apply same_terminal_vt52ProcessSequence; exact Ht.
Qed.

Lemma same_machine_loop str : forall m1 m2,
  same_machine m1 m2 -> same_machine (print_loop str m1) (print_loop str m2).
Proof.
  induction str as [| chr str IH]; intros m1 m2 H; cbn; [exact H |].
  destruct (chr =? NUL)%char; [exact H |].
  apply IH, same_machine_step, H.
Qed.

Lemma same_terminal_term_printString str st1 st2 :
  same_terminal st1 st2 ->
  same_terminal (term_printString str st1) (term_printString str st2).
Proof.
  intros H. rewrite !term_printString_finish.
  assert (Hm : same_machine (mkMachine STATE_NORMAL [] st1)
                            (mkMachine STATE_NORMAL [] st2))
    by (split; [reflexivity | split; [reflexivity | exact H]]).
  apply (same_machine_loop str) in Hm. destruct Hm as (Hs & Hb & Ht).
  unfold finish. rewrite <- Hs, <- Hb.
  assert (Hflush : same_terminal
            match state (print_loop str (mkMachine STATE_NORMAL [] st1)) with
            | STATE_ESC =>
                flush_literal
                  (escBuffer (print_loop str (mkMachine STATE_NORMAL [] st1)))
                  (term (print_loop str (mkMachine STATE_NORMAL [] st1)))
            | STATE_NORMAL =>
                term (print_loop str (mkMachine STATE_NORMAL [] st1))
            end
            match state (print_loop str (mkMachine STATE_NORMAL [] st1)) with
            | STATE_ESC =>
                flush_literal
                  (escBuffer (print_loop str (mkMachine STATE_NORMAL [] st1)))
                  (term (print_loop str (mkMachine STATE_NORMAL [] st2)))
            | STATE_NORMAL =>
                term (print_loop str (mkMachine STATE_NORMAL [] st2))
            end).
  { destruct (state _); [exact Ht |].
    now apply same_terminal_flush_literal. }
  exact Hflush.
Qed.

Lemma print_loop_app s1 s2 m :
  Forall (fun c => c <> NUL) s1 ->
  print_loop (s1 ++ s2) m = print_loop s2 (print_loop s1 m).
Proof.
  intros H. revert m. induction H as [| c s1 Hc _ IH]; intros m;
    [reflexivity |].
  cbn [app]. rewrite !print_loop_cons by assumption. apply IH.
Qed.

(** X13.  Where a string is cut into two calls does not matter, as long as
    the cut is not inside an escape sequence: if the first part leaves the
    machine in NORMAL mode, printing the two parts one after the other gives
    the same screen, cursor, previous cursor and line buffer as printing
    the whole string at once.  (The display sees one more refresh.) *)
Theorem printing_in_two_calls (s1 s2 : list ascii) (st : State) :
  Forall (fun c => c <> NUL) s1 ->
  state (run s1 st) = STATE_NORMAL ->
  same_terminal (term_printString (s1 ++ s2) st)
                (term_printString s2 (term_printString s1 st)).
Proof.
  intros Hnul Hnormal.
  assert (Hrun : print_loop s1 (mkMachine STATE_NORMAL [] st) = run s1 st)
    by (rewrite print_loop_run; now rewrite cstr_nul_free).
  rewrite (term_printString_finish (s1 ++ s2)), print_loop_app by assumption.
  rewrite (term_printString_finish s1). unfold finish at 2.
  rewrite Hrun, Hnormal.
  destruct (run s1 st) as [s b t] eqn:Hm. cbn in Hnormal. subst s.
  cbn [term]. rewrite print_after_normal.
  apply same_terminal_term_printString.
  now repeat split.
Qed.

End WithConfig.

Lemma printed_text_is_on_screen_witness :
  take 3 (screen (term_printString (cfg := vt52_config)
                    ["h"; "i"]%char blank_term)) = ["h"; "i"; NUL]%char /\
  cursor_index (cfg := vt52_config)
    (term_printString (cfg := vt52_config) ["h"; "i"]%char blank_term) = 2.
Proof.
  pose proof (printed_text_is_on_screen (cfg := vt52_config)
                ["h"; "i"]%char blank_term vt52_grid_ok) as H.
  cbv zeta in H. destruct H as (Hscreen & Hindex & _).
  - split; cbn; lia.
  - reflexivity.
  - repeat constructor; discriminate.
  - reflexivity.
  - split; [rewrite Hscreen; reflexivity | exact Hindex].
Defined.

Lemma greeting_term_in_bounds : in_bounds (cfg := vt52_config) greeting_term.
Proof. vm_compute. intuition discriminate. Qed.

Lemma greeting_term_full : screen_full (cfg := vt52_config) greeting_term.
Proof. reflexivity. Qed.

Lemma escape_K_clears_to_end_of_line_witness :
  (screen greeting_term !! cell_index (cfg := vt52_config) 1 1
     = Some "e"%char /\
   screen greeting_term !! cell_index (cfg := vt52_config) 2 1
     = Some "l"%char) /\
  screen (term_printString (cfg := vt52_config) ["027"; "K"]%char
            greeting_term) !! cell_index (cfg := vt52_config) 1 1
    = Some "e"%char /\
  screen (term_printString (cfg := vt52_config) ["027"; "K"]%char
            greeting_term) !! cell_index (cfg := vt52_config) 2 1
    = Some NUL.
Proof.
  split; [split; reflexivity |].
  pose proof (escape_K_clears_to_end_of_line (cfg := vt52_config)
                greeting_term) as H.
  cbv zeta in H. destruct H as (_ & _ & Hcells).
  - discriminate.
  - cbn; lia.
  - exact vt52_grid_ok.
  - exact greeting_term_in_bounds.
  - exact greeting_term_full.
  - split; rewrite Hcells by (cbn; lia); reflexivity.
Defined.

Lemma escape_J_clears_right_of_cursor_column_witness :
  screen (term_printString (cfg := vt52_config) ["027"; "J"]%char
            greeting_term) !! cell_index (cfg := vt52_config) 1 1
    = Some "e"%char /\
  screen (term_printString (cfg := vt52_config) ["027"; "J"]%char
            greeting_term) !! cell_index (cfg := vt52_config) 4 1
    = Some NUL.
Proof.
  pose proof (escape_J_clears_right_of_cursor_column (cfg := vt52_config)
                greeting_term) as H.
  cbv zeta in H. destruct H as (_ & _ & Hcells).
  - discriminate.
  - cbn; lia.
  - exact vt52_grid_ok.
  - exact greeting_term_in_bounds.
  - exact greeting_term_full.
  - split; rewrite Hcells by (cbn; lia); reflexivity.
Defined.

Lemma escape_E_clears_screen_and_homes_witness :
  cursorX (term_printString (cfg := vt52_config) ["027"; "E"]%char
             greeting_term) = 0 /\
  screen (term_printString (cfg := vt52_config) ["027"; "E"]%char
            greeting_term) !! cell_index (cfg := vt52_config) 1 1
    = Some NUL.
Proof.
  pose proof (escape_E_clears_screen_and_homes (cfg := vt52_config)
                greeting_term) as H.
  cbv zeta in H. destruct H as ((HX & _) & _ & _ & Hcells).
  - discriminate.
  - cbn; lia.
  - exact vt52_grid_ok.
  - exact greeting_term_full.
  - split; [exact HX | apply Hcells; cbn; lia].
Defined.

Lemma printing_in_two_calls_witness :
  same_terminal
    (term_printString (cfg := vt52_config)
       (["h"; "i"] ++ ["027"; "H"])%char blank_term)
    (term_printString (cfg := vt52_config) ["027"; "H"]%char
       (term_printString (cfg := vt52_config) ["h"; "i"]%char blank_term)).
Proof.
  apply (printing_in_two_calls (cfg := vt52_config)).
  - repeat constructor; discriminate.
  - reflexivity.
Defined.

End RenderingProperties.

(** * Properties of the arguments of the settings commands *)

Module SettingsArgumentProperties.
Import Term TermExtra TermProperties.

(** ** Keys *)

Lemma scan_token_split k l :
  Forall key_char k ->
  match l with [] => True | c :: _ => c = NUL \/ isspace c = true end ->
  scan_token (k ++ l) = (k, l).
Proof.
  intros Hk Hl. induction Hk as [| c k [Hnul Hsp] _ IH]; cbn.
  - destruct l as [| c l]; [reflexivity |]. cbn.
    destruct Hl as [-> | ->]; [reflexivity |].
    now rewrite andb_false_r.
  - apply Ascii.eqb_neq in Hnul. now rewrite Hnul, Hsp, IH.
Qed.

Lemma scan_token_parts l :
  l = fst (scan_token l) ++ snd (scan_token l) /\
  Forall key_char (fst (scan_token l)) /\
  match snd (scan_token l) with
  | [] => True
  | c :: _ => c = NUL \/ isspace c = true
  end.
Proof.
  induction l as [| c l IH]; cbn; [now repeat split |].
  destruct (Ascii.eqb_spec c NUL) as [-> | Hnul]; cbn;
    [repeat split; [constructor | now left] |].
  destruct (isspace c) eqn:Hsp; cbn;
    [repeat split; [constructor | now right] |].
  destruct (scan_token l) as [token remaining]. cbn in IH |- *.
  destruct IH as (Hl & Hk & Hr).
  repeat split; [now f_equal | now constructor | exact Hr].
Qed.

Lemma skip_space_parts l :
  exists ws, l = ws ++ skip_space l /\
             Forall (fun c => isspace c = true) ws /\
             starts_visible (skip_space l).
Proof.
  induction l as [| c l (ws & Hl & Hws & Hvis)]; cbn.
  - exists []. now repeat split.
  - destruct (isspace c) eqn:Hsp.
    + exists (c :: ws).
      repeat split;
        [cbn [app]; f_equal; exact Hl | now constructor | exact Hvis].
    + exists []. repeat split; [constructor | exact Hsp].
Qed.

Lemma cstr_terminated s rest :
  Forall (fun c => c <> NUL) s -> cstr (s ++ NUL :: rest) = s.
Proof.
  induction 1 as [| c s Hc _ IH]; cbn; [reflexivity |].
  apply Ascii.eqb_neq in Hc. now rewrite Hc, IH.
Qed.

Lemma key_buffer k buf :
  Forall (fun c => c <> NUL) k -> (length k < length buf)%nat ->
  <[length k := NUL]> (memcpy buf k (length k)) =
    k ++ NUL :: drop (S (length k)) buf /\
  cstr (<[length k := NUL]> (memcpy buf k (length k))) = k.
Proof.
  intros Hk Hlen. unfold memcpy. rewrite firstn_all.
  assert (Hinsert : <[length k := NUL]> (k ++ drop (length k) buf) =
                    k ++ NUL :: drop (S (length k)) buf).
  { rewrite insert_app_r_alt by lia. rewrite Nat.sub_diag.
    destruct (drop (length k) buf) as [| c rest] eqn:Hdrop.
    - apply (f_equal length) in Hdrop. rewrite length_drop in Hdrop.
      cbn in Hdrop. lia.
    - cbn. do 2 f_equal.
      replace (S (length k)) with (length k + 1)%nat by lia.
      rewrite <- drop_drop, Hdrop. reflexivity. }
  split; [exact Hinsert |]. rewrite Hinsert. now apply cstr_terminated.
Qed.

Lemma key_char_no_NUL k :
  Forall key_char k -> Forall (fun c => c <> NUL) k.
Proof. intros H. eapply Forall_impl; [exact H |]. now intros c [Hc _]. Qed.

Lemma term_parseKeyAndTail_formatted lead k gap t buf keySize :
  Forall (fun c => isspace c = true) lead ->
  Forall key_char k -> k <> [] ->
  Forall (fun c => isspace c = true) gap ->
  match gap ++ t with [] => True | c :: _ => c = NUL \/ isspace c = true end ->
  starts_visible t ->
  term_parseKeyAndTail (lead ++ k ++ gap ++ t) buf keySize =
  if (keySize =? 0) || (keySize <=? Z.of_nat (length k)) then None
  else Some (<[length k := NUL]> (memcpy buf k (length k)), t).
Proof.
  intros Hlead Hk Hne Hgap Hend Hvis. unfold term_parseKeyAndTail.
  destruct (keySize =? 0); [reflexivity |]. cbn [orb].
  rewrite skip_space_spaces by assumption.
  destruct k as [| c k]; [contradiction |]. clear Hne.
  pose proof Hk as Hk'. inversion Hk as [| ? ? [Hnul Hsp] _]; subst.
  cbn [app skip_space]. rewrite Hsp.
  apply Ascii.eqb_neq in Hnul. rewrite Hnul.
  change (c :: k ++ gap ++ t) with ((c :: k) ++ gap ++ t).
  rewrite scan_token_split by assumption.
  rewrite skip_space_spaces, skip_space_visible by assumption.
  rewrite Nat2Z.id.
  destruct (Z.eqb_spec (Z.of_nat (length (c :: k))) 0) as [H0 | _];
    [cbn in H0; lia |].
  reflexivity.
Qed.

(** X14.  [term_parseKeyAndTail] undoes the formatting of a key and a
    value: from blanks, a key of visible characters, blanks and a tail it
    gives back the key, NUL-terminated in the caller's buffer, and the
    tail, provided the key and its NUL fit the buffer.  A key that does not
    fit is refused, never cut short. *)
Theorem key_and_tail_round_trip
    (lead k gap t buf : list ascii) (keySize : Z) :
  Forall (fun c => isspace c = true) lead ->
  Forall key_char k -> k <> [] ->
  Forall (fun c => isspace c = true) gap ->
  (gap = [] -> match t with [] => True | c :: _ => c = NUL end) ->
  starts_visible t ->
  length buf = Z.to_nat keySize ->
  (Z.of_nat (length k) < keySize ->
   exists key,
     term_parseKeyAndTail (lead ++ k ++ gap ++ t) buf keySize
       = Some (key, t) /\
     cstr key = k /\ length key = length buf) /\
  (keySize <= Z.of_nat (length k) ->
   term_parseKeyAndTail (lead ++ k ++ gap ++ t) buf keySize = None).
Proof.
  intros Hlead Hk Hne Hgap Hend Hvis Hbuf.
  assert (Hstop : match gap ++ t with
                  | [] => True
                  | c :: _ => c = NUL \/ isspace c = true
                  end).
  { destruct gap as [| g gap]; cbn.
    - specialize (Hend eq_refl). destruct t; [exact I | now left].
    - inversion Hgap; subst. now right. }
  rewrite (term_parseKeyAndTail_formatted lead k gap t buf keySize)
    by assumption.
  split; intros Hsize.
  - destruct (Z.eqb_spec keySize 0); [lia |].
    destruct (Z.leb_spec keySize (Z.of_nat (length k))); [lia |]. cbn [orb].
    eexists. split; [reflexivity |].
    split; [apply key_buffer; [now apply key_char_no_NUL | lia] |].
    rewrite length_insert. unfold memcpy.
    rewrite length_app, length_take, length_drop. lia.
  - destruct (Z.leb_spec keySize (Z.of_nat (length k))); [| lia].
    now rewrite orb_true_r.
Qed.

(** X15.  Whatever [term_parseKeyAndTail] accepts is cut out of the
    argument and nothing of it is lost: the argument is blanks, the key
    stored, blanks, and the tail returned; the key is not empty, has no
    blank in it and fits the buffer with its NUL; the tail does not start
    with a blank. *)
Theorem key_and_tail_are_cut_from_the_argument
    (arg buf key tail : list ascii) (keySize : Z) :
  length buf = Z.to_nat keySize ->
  term_parseKeyAndTail arg buf keySize = Some (key, tail) ->
  exists lead gap,
    arg = lead ++ cstr key ++ gap ++ tail /\
    Forall (fun c => isspace c = true) lead /\
    Forall (fun c => isspace c = true) gap /\
    Forall key_char (cstr key) /\
    0 < Z.of_nat (length (cstr key)) < keySize /\
    starts_visible tail.
Proof.
  intros Hbuf. unfold term_parseKeyAndTail.
  destruct (keySize =? 0); [discriminate |].
  destruct (skip_space_parts arg) as (lead & Harg & Hlead & _).
  destruct (skip_space arg) as [| c after] eqn:Hstart; [discriminate |].
  destruct (c =? NUL)%char; [discriminate |].
  destruct (scan_token_parts (c :: after)) as (Hcut & Hk & _).
  destruct (scan_token (c :: after)) as [token end_]. cbn [fst snd] in *.
  destruct (Z.eqb_spec (Z.of_nat (length token)) 0) as [| Hlen0];
    [discriminate |].
  destruct (Z.leb_spec keySize (Z.of_nat (length token))) as [| Hfit];
    [discriminate |].
  cbn [orb]. rewrite Nat2Z.id. intros [= <- <-].
  destruct (skip_space_parts end_) as (gap & Hend & Hgap & Hvis).
  destruct (key_buffer token buf) as [_ ->];
    [now apply key_char_no_NUL | lia |].
  exists lead, gap. repeat split; try assumption; try lia.
  now rewrite Harg, Hcut, Hend at 1.
Qed.

(** ** Truth values *)

Lemma tolower_NUL c : tolower c = NUL -> c = NUL.
Proof.
  destruct c as [[] [] [] [] [] [] [] []]; vm_compute; congruence.
Qed.

Lemma lower_in_place_token s rest :
  Forall (fun c => c <> NUL) s ->
  lower_in_place (s ++ NUL :: rest) = map tolower s ++ NUL :: rest.
Proof.
  induction 1 as [| c s Hc _ IH]; cbn; [reflexivity |].
  apply Ascii.eqb_neq in Hc. now rewrite Hc, IH.
Qed.

Lemma ends_bool_token_spec c :
  ((c =? NUL)%char || existsb (Ascii.eqb c) [" "; "009"; CR; LF]%char) = true
  <-> ends_bool_token c.
Proof.
  unfold ends_bool_token. cbn [existsb].
  rewrite !orb_true_iff, !Ascii.eqb_eq. intuition discriminate.
Qed.

Lemma strcspn_token s rest :
  Forall (fun c => ~ ends_bool_token c) s ->
  match rest with [] => True | c :: _ => ends_bool_token c end ->
  strcspn (s ++ rest) [" "; "009"; CR; LF]%char = length s.
Proof.
  intros Hs Hrest. induction Hs as [| c s Hc _ IH].
  - destruct rest as [| c rest]; [reflexivity |].
    apply ends_bool_token_spec in Hrest. cbn [app strcspn]. now rewrite Hrest.
  - cbn [app strcspn length].
    destruct (_ || _) eqn:Hend; [| now rewrite IH].
    apply ends_bool_token_spec in Hend. contradiction.
Qed.

Lemma spoken_value_cstr word :
  Forall (fun c => c <> NUL) word ->
  (if strcmp_eq word (list_ascii_of_string "true") ||
      strcmp_eq word (list_ascii_of_string "t") ||
      strcmp_eq word (list_ascii_of_string "1")
   then Some true
   else if strcmp_eq word (list_ascii_of_string "false") ||
           strcmp_eq word (list_ascii_of_string "f") ||
           strcmp_eq word (list_ascii_of_string "0")
   then Some false
   else None) = spoken_value word.
Proof.
  intros Hword. unfold strcmp_eq, spoken_value. rewrite (cstr_nul_free word Hword).
  cbn. now rewrite !orb_false_r, !orb_assoc.
Qed.

Section WithBoolBuffer.

Variable TERM_BOOL_INPUT_BUFF : Z.

Lemma term_parseBoolToken_token s rest :
  Forall (fun c => ~ ends_bool_token c) s ->
  match rest with [] => True | c :: _ => ends_bool_token c end ->
  term_parseBoolToken TERM_BOOL_INPUT_BUFF (s ++ rest) =
  if (0 <? Z.of_nat (length s)) &&
     (Z.of_nat (length s) <? TERM_BOOL_INPUT_BUFF)
  then spoken_value (map tolower s) else None.
Proof.
  intros Hs Hrest. unfold term_parseBoolToken. cbv zeta.
  rewrite strcspn_token by assumption.
  destruct (Z.eqb_spec (Z.of_nat (length s)) 0) as [H0 | H0];
    [destruct (Z.ltb_spec 0 (Z.of_nat (length s))); [lia | reflexivity] |].
  destruct (Z.ltb_spec 0 (Z.of_nat (length s))); [| lia].
  destruct (Z.leb_spec TERM_BOOL_INPUT_BUFF (Z.of_nat (length s))) as [Hbig | Hfit];
    [destruct (Z.ltb_spec (Z.of_nat (length s)) TERM_BOOL_INPUT_BUFF);
       [lia | reflexivity] |].
  destruct (Z.ltb_spec (Z.of_nat (length s)) TERM_BOOL_INPUT_BUFF); [| lia].
  cbn [orb andb]. rewrite Nat2Z.id.
  assert (Hnul : Forall (fun c => c <> NUL) s).
  { eapply Forall_impl; [exact Hs |]. intros c Hc ->. apply Hc. now left. }
  assert (Hcopy : memcpy (replicate (Z.to_nat TERM_BOOL_INPUT_BUFF) NUL)
                         (s ++ rest) (length s) =
                  memcpy (replicate (Z.to_nat TERM_BOOL_INPUT_BUFF) NUL)
                         s (length s)).
  { unfold memcpy. now rewrite take_app_length, firstn_all. }
  rewrite Hcopy.
  destruct (key_buffer s (replicate (Z.to_nat TERM_BOOL_INPUT_BUFF) NUL))
    as [-> _]; [exact Hnul | rewrite length_replicate; lia |].
  rewrite lower_in_place_token by exact Hnul.
  assert (Hlow : Forall (fun c => c <> NUL) (map tolower s)).
  { apply Forall_map. eapply Forall_impl; [exact Hnul |].
    intros c Hc Hl. now apply Hc, tolower_NUL. }
  unfold strcmp_eq at 1 2 3 4 5 6.
  rewrite !(cstr_terminated (map tolower s)) by exact Hlow.
  rewrite <- (spoken_value_cstr (map tolower s) Hlow).
  unfold strcmp_eq. now rewrite !(cstr_nul_free (map tolower s) Hlow).
Qed.

Lemma spoken_value_true word :
  In word true_words -> spoken_value word = Some true.
Proof.
  intros [<- | [<- | [<- | []]]]; reflexivity.
Qed.

Lemma spoken_value_false word :
  In word false_words -> spoken_value word = Some false.
Proof.
  intros [<- | [<- | [<- | []]]]; reflexivity.
Qed.

Lemma spoken_value_none word :
  ~ In word (true_words ++ false_words) -> spoken_value word = None.
Proof.
  intros Hnot. unfold spoken_value.
  destruct (existsb (str_eqb word) true_words) eqn:Ht.
  - apply existsb_exists in Ht. destruct Ht as (w & Hin & Heq).
    apply str_eqb_eq in Heq. subst w. exfalso. apply Hnot, in_or_app. now left.
  - destruct (existsb (str_eqb word) false_words) eqn:Hf; [| reflexivity].
    apply existsb_exists in Hf. destruct Hf as (w & Hin & Heq).
    apply str_eqb_eq in Heq. subst w. exfalso. apply Hnot, in_or_app. now right.
Qed.

Lemma word_length word :
  In word (true_words ++ false_words) -> (0 < length word <= 5)%nat.
Proof.
  intros [<- | [<- | [<- | [<- | [<- | [<- | []]]]]]]; cbn; lia.
Qed.

(** X16.  [term_parseBoolToken] looks at the first token only, and not at
    the case of its letters: the token ends at the first space, tab, CR, LF
    or NUL, whatever follows it is ignored, and the value is [true] when the
    token in lower case is one of true, t, 1, [false] when it is one of
    false, f, 0; any other token is refused.  The buffer must hold the
    longest word and its NUL. *)
Theorem bool_token_ignores_case_and_tail (s rest : list ascii) :
  5 < TERM_BOOL_INPUT_BUFF ->
  Forall (fun c => ~ ends_bool_token c) s ->
  match rest with [] => True | c :: _ => ends_bool_token c end ->
  (In (map tolower s) true_words ->
   term_parseBoolToken TERM_BOOL_INPUT_BUFF (s ++ rest) = Some true) /\
  (In (map tolower s) false_words ->
   term_parseBoolToken TERM_BOOL_INPUT_BUFF (s ++ rest) = Some false) /\
  (~ In (map tolower s) (true_words ++ false_words) ->
   term_parseBoolToken TERM_BOOL_INPUT_BUFF (s ++ rest) = None).
Proof.
  intros Hbuf Hs Hrest.
  rewrite (term_parseBoolToken_token s rest Hs Hrest).
  repeat split; intros Hword.
  - pose proof (word_length _ (in_or_app _ _ _ (or_introl Hword))) as Hlen.
    rewrite length_map in Hlen.
    destruct (Z.ltb_spec 0 (Z.of_nat (length s))); [| lia].
    destruct (Z.ltb_spec (Z.of_nat (length s)) TERM_BOOL_INPUT_BUFF); [| lia].
    now apply spoken_value_true.
  - pose proof (word_length _ (in_or_app _ _ _ (or_intror Hword))) as Hlen.
    rewrite length_map in Hlen.
    destruct (Z.ltb_spec 0 (Z.of_nat (length s))); [| lia].
    destruct (Z.ltb_spec (Z.of_nat (length s)) TERM_BOOL_INPUT_BUFF); [| lia].
    now apply spoken_value_false.
  - rewrite (spoken_value_none _ Hword). now destruct (_ && _).
Qed.

(** X17.  A word of the six needs the buffer: when [TERM_BOOL_INPUT_BUFF]
    is too small for a token and its NUL, the token is refused even if it
    spells a truth value. *)
Theorem bool_token_longer_than_buffer_is_refused (s rest : list ascii) :
  Forall (fun c => ~ ends_bool_token c) s ->
  match rest with [] => True | c :: _ => ends_bool_token c end ->
  TERM_BOOL_INPUT_BUFF <= Z.of_nat (length s) ->
  term_parseBoolToken TERM_BOOL_INPUT_BUFF (s ++ rest) = None.
Proof.
  intros Hs Hrest Hbig.
  rewrite (term_parseBoolToken_token s rest Hs Hrest).
  destruct (Z.ltb_spec (Z.of_nat (length s)) TERM_BOOL_INPUT_BUFF); [lia |].
  now rewrite andb_false_r.
Qed.

(** X18.  The arguments of [put_bool]: blanks, a key, at least one blank
    and a token that starts with a visible character.  [term_cmdPutBool]
    stores the key with the value the token spells, whatever the case of
    its letters and whatever follows it, and stores nothing for any other
    token. *)
Theorem put_bool_stores_key_and_value
    (lead k gap s rest : list ascii) (keySize : Z) :
  5 < TERM_BOOL_INPUT_BUFF ->
  Forall (fun c => isspace c = true) lead ->
  Forall key_char k -> k <> [] -> Z.of_nat (length k) < keySize ->
  Forall (fun c => isspace c = true) gap -> gap <> [] ->
  Forall (fun c => ~ ends_bool_token c) s -> s <> [] -> starts_visible s ->
  match rest with [] => True | c :: _ => ends_bool_token c end ->
  let request :=
    term_cmdPutBool_request TERM_BOOL_INPUT_BUFF keySize
      (lead ++ k ++ gap ++ s ++ rest) in
  (In (map tolower s) true_words -> request = Some (k, true)) /\
  (In (map tolower s) false_words -> request = Some (k, false)) /\
  (~ In (map tolower s) (true_words ++ false_words) -> request = None).
Proof.
  intros Hbuf Hlead Hk Hne Hfit Hgap Hgne Hs Hsne Hvis Hrest.
  unfold term_cmdPutBool_request. cbv zeta.
  rewrite (term_parseKeyAndTail_formatted lead k gap (s ++ rest));
    try assumption.
  - destruct (Z.eqb_spec keySize 0); [lia |].
    destruct (Z.leb_spec keySize (Z.of_nat (length k))); [lia |]. cbn [orb].
    destruct (key_buffer k (replicate (Z.to_nat keySize) NUL)) as [_ ->];
      [now apply key_char_no_NUL | rewrite length_replicate; lia |].
    rewrite (term_parseBoolToken_token s rest Hs Hrest).
    repeat split; intros Hword.
    + pose proof (word_length _ (in_or_app _ _ _ (or_introl Hword))) as Hlen.
      rewrite length_map in Hlen.
      destruct (Z.ltb_spec 0 (Z.of_nat (length s))); [| lia].
      destruct (Z.ltb_spec (Z.of_nat (length s)) TERM_BOOL_INPUT_BUFF); [| lia].
      cbn [andb]. now rewrite (spoken_value_true _ Hword).
    + pose proof (word_length _ (in_or_app _ _ _ (or_intror Hword))) as Hlen.
      rewrite length_map in Hlen.
      destruct (Z.ltb_spec 0 (Z.of_nat (length s))); [| lia].
      destruct (Z.ltb_spec (Z.of_nat (length s)) TERM_BOOL_INPUT_BUFF); [| lia].
      cbn [andb]. now rewrite (spoken_value_false _ Hword).
    + rewrite (spoken_value_none _ Hword). now destruct (_ && _).
  - destruct gap as [| g gap]; [contradiction |].
    inversion Hgap; subst. now right.
  - destruct s as [| c s]; [contradiction | exact Hvis].
Qed.

End WithBoolBuffer.

Lemma key_and_tail_round_trip_witness :
  exists key,
    term_parseKeyAndTail (list_ascii_of_string "  BOOT_FEATURE   true")
                         (replicate 20 NUL) 20
      = Some (key, list_ascii_of_string "true") /\
    cstr key = list_ascii_of_string "BOOT_FEATURE" /\
    length key = 20%nat.
Proof.
  apply (key_and_tail_round_trip
           (list_ascii_of_string "  ") (list_ascii_of_string "BOOT_FEATURE")
           (list_ascii_of_string "   ") (list_ascii_of_string "true")
           (replicate 20 NUL) 20).
  - repeat constructor.
  - repeat constructor; discriminate.
  - discriminate.
  - repeat constructor.
  - discriminate.
  - reflexivity.
  - reflexivity.
  - cbn; lia.
Defined.

Lemma key_and_tail_are_cut_from_the_argument_witness :
  exists lead gap,
    list_ascii_of_string " a  b" =
      lead ++ cstr ("a"%char :: replicate 3 NUL) ++ gap ++
      list_ascii_of_string "b" /\
    Forall (fun c => isspace c = true) lead /\
    Forall (fun c => isspace c = true) gap /\
    Forall key_char (cstr ("a"%char :: replicate 3 NUL)) /\
    0 < Z.of_nat (length (cstr ("a"%char :: replicate 3 NUL))) < 4 /\
    starts_visible (list_ascii_of_string "b").
Proof.
  apply (key_and_tail_are_cut_from_the_argument
           (list_ascii_of_string " a  b") (replicate 4 NUL)).
  - reflexivity.
  - reflexivity.
Defined.

Lemma bool_token_ignores_case_and_tail_witness :
  term_parseBoolToken 8 (list_ascii_of_string "TrUe yes") = Some true.
Proof.
  apply (bool_token_ignores_case_and_tail 8
           (list_ascii_of_string "TrUe") (list_ascii_of_string " yes")).
  - lia.
  - repeat constructor; unfold ends_bool_token; intuition discriminate.
  - right; left; reflexivity.
  - left; reflexivity.
Defined.

Lemma bool_token_longer_than_buffer_is_refused_witness :
  term_parseBoolToken 5 (list_ascii_of_string "false") = None.
Proof.
  apply (bool_token_longer_than_buffer_is_refused 5
           (list_ascii_of_string "false") []).
  - repeat constructor; unfold ends_bool_token; intuition discriminate.
  - exact I.
  - cbn; lia.
Defined.

Lemma put_bool_stores_key_and_value_witness :
  term_cmdPutBool_request 8 20
    (list_ascii_of_string " BOOT_FEATURE  False  please")
  = Some (list_ascii_of_string "BOOT_FEATURE", false).
Proof.
  apply (put_bool_stores_key_and_value 8
           (list_ascii_of_string " ") (list_ascii_of_string "BOOT_FEATURE")
           (list_ascii_of_string "  ") (list_ascii_of_string "False")
           (list_ascii_of_string "  please") 20).
  - lia.
  - repeat constructor.
  - repeat constructor; discriminate.
  - discriminate.
  - cbn; lia.
  - repeat constructor.
  - discriminate.
  - repeat constructor; unfold ends_bool_token; intuition discriminate.
  - discriminate.
  - reflexivity.
  - right; left; reflexivity.
  - left; reflexivity.
Defined.

End SettingsArgumentProperties.

(** * Properties of the live menu *)

Module LiveMenuProperties.
Import Term TermExtra TermProperties RenderingProperties
       SettingsArgumentProperties.

Section WithConfig.

Context {cfg : Config}.

(** ** The update buffer *)

Lemma snprintf_at_appended buffer bufferSize offset output :
  0 <= offset < bufferSize ->
  snprintf_at buffer offset (bufferSize - offset) output =
  (fst (appended buffer bufferSize offset output),
   Z.of_nat (length output)).
Proof.
  intros Hoff. unfold snprintf_at, appended. cbv zeta. cbn [fst].
  destruct (Z.leb_spec (bufferSize - offset) 0); [lia |].
  repeat f_equal; lia.
Qed.

Lemma term_appendText_appended buffer bufferSize offset text :
  0 <= offset < bufferSize ->
  term_appendText buffer bufferSize offset text =
  appended buffer bufferSize offset (cstr text).
Proof.
  intros Hoff. unfold term_appendText.
  destruct (Z.leb_spec bufferSize offset); [lia |]. cbv zeta.
  rewrite snprintf_at_appended by assumption.
  destruct (Z.ltb_spec (Z.of_nat (length (cstr text))) 0); [lia |].
  unfold appended. cbv zeta. cbn [fst].
  destruct (Z.leb_spec (bufferSize - offset) (Z.of_nat (length (cstr text))));
    f_equal; lia.
Qed.

Lemma term_appendMoveAndClearLine_appended buffer bufferSize offset row :
  0 <= offset < bufferSize ->
  term_appendMoveAndClearLine buffer bufferSize offset row =
  appended buffer bufferSize offset (move_and_clear_line row).
Proof.
  intros Hoff. unfold term_appendMoveAndClearLine.
  destruct (Z.leb_spec bufferSize offset); [lia |]. cbv zeta.
  rewrite snprintf_at_appended by assumption.
  destruct (Z.ltb_spec (Z.of_nat (length (move_and_clear_line row))) 0);
    [lia |].
  unfold appended. cbv zeta. cbn [fst].
  destruct (Z.leb_spec (bufferSize - offset)
              (Z.of_nat (length (move_and_clear_line row))));
    f_equal; lia.
Qed.

Lemma append_piece_appended bufferSize acc p :
  0 <= snd acc < bufferSize ->
  append_piece bufferSize acc p =
  appended (fst acc) bufferSize (snd acc) (piece_output p).
Proof.
  intros Hoff. destruct p as [row | text]; cbn [append_piece piece_output].
  - now apply term_appendMoveAndClearLine_appended.
  - now apply term_appendText_appended.
Qed.

Lemma take_take_app {A} n (l r : list A) :
  take n (take n l ++ r) = take n (l ++ r).
Proof.
  destruct (Nat.le_gt_cases n (length l)) as [Hle | Hgt].
  - rewrite !take_app_le by (rewrite ?length_take; lia).
    now rewrite take_take, Nat.min_id.
  - now rewrite (take_ge l) by lia.
Qed.

Lemma appended_ok bufferSize acc output :
  update_buffer_ok bufferSize acc ->
  update_buffer_ok bufferSize
    (appended (fst acc) bufferSize (snd acc) output) /\
  content (appended (fst acc) bufferSize (snd acc) output) =
    take (Z.to_nat (bufferSize - 1)) (content acc ++ output).
Proof.
  destruct acc as [buffer offset]. unfold update_buffer_ok, content, appended.
  cbn [fst snd]. cbv zeta. intros (Hlen & Hoff & Hnul).
  set (n := Z.min (Z.of_nat (length output)) (bufferSize - offset - 1)).
  assert (Hn : 0 <= n <= bufferSize - offset - 1) by lia.
  assert (Hn' : n <= Z.of_nat (length output)) by lia.
  assert (Htake : length (take (Z.to_nat offset) buffer) = Z.to_nat offset)
    by (rewrite length_take; lia).
  assert (Hout : length (take (Z.to_nat n) output) = Z.to_nat n)
    by (rewrite length_take; lia).
  repeat split.
  - rewrite !length_app, Htake, Hout. cbn [length]. rewrite length_drop. lia.
  - lia.
  - lia.
  - rewrite lookup_app_r by lia. rewrite Htake.
    rewrite lookup_app_r by lia. rewrite Hout.
    replace (Z.to_nat (offset + n) - Z.to_nat offset - Z.to_nat n)%nat
      with 0%nat by lia.
    reflexivity.
  - rewrite app_assoc.
    rewrite take_app_length'
      by (rewrite length_app, Htake, Hout; lia).
    rewrite take_app_ge by lia. rewrite Htake. f_equal.
    replace (Z.to_nat (bufferSize - 1) - Z.to_nat offset)%nat
      with (Z.to_nat (bufferSize - offset - 1)) by lia.
    destruct (Z.le_gt_cases (Z.of_nat (length output))
                (bufferSize - offset - 1)).
    + rewrite !take_ge by lia. reflexivity.
    + f_equal. lia.
Qed.

Lemma append_pieces_ok bufferSize pieces : forall acc,
  update_buffer_ok bufferSize acc ->
  update_buffer_ok bufferSize (foldl (append_piece bufferSize) acc pieces) /\
  content (foldl (append_piece bufferSize) acc pieces) =
    take (Z.to_nat (bufferSize - 1))
         (content acc ++ concat (map piece_output pieces)).
Proof.
  induction pieces as [| p pieces IH]; intros acc Hacc; cbn [foldl map concat].
  - split; [exact Hacc |]. rewrite app_nil_r.
    destruct Hacc as (Hlen & Hoff & _). unfold content.
    rewrite take_take. f_equal. lia.
  - pose proof Hacc as (_ & Hoff & _).
    rewrite append_piece_appended by exact Hoff.
    destruct (appended_ok bufferSize acc (piece_output p) Hacc)
      as [Hok Hcontent].
    destruct (IH _ Hok) as [Hok' Hcontent'].
    split; [exact Hok' |].
    rewrite Hcontent', Hcontent, take_take_app, app_assoc. reflexivity.
Qed.

Lemma zeroed_buffer_ok bufferSize :
  0 < bufferSize ->
  update_buffer_ok bufferSize (replicate (Z.to_nat bufferSize) NUL, 0).
Proof.
  intros Hsize. repeat split; cbn [fst snd]; try lia.
  - rewrite length_replicate. lia.
  - apply lookup_replicate_2. lia.
Qed.

(** X19.  The update buffer never overflows and never loses its NUL.
    Whatever is appended to a zeroed buffer with [term_appendText] and
    [term_appendMoveAndClearLine], in whatever order, the offset stays
    inside the buffer and on a NUL, and the bytes before it are the outputs
    one after the other, cut at the size of the buffer less one: once the
    buffer is full, what is appended is dropped. *)
Theorem update_buffer_is_the_truncated_concatenation
    (bufferSize : Z) (pieces : list Piece) :
  0 < bufferSize ->
  let acc :=
    foldl (append_piece bufferSize)
          (replicate (Z.to_nat bufferSize) NUL, 0) pieces in
  Z.of_nat (length (fst acc)) = bufferSize /\
  0 <= snd acc < bufferSize /\
  fst acc !! Z.to_nat (snd acc) = Some NUL /\
  take (Z.to_nat (snd acc)) (fst acc) =
    take (Z.to_nat (bufferSize - 1)) (concat (map piece_output pieces)).
Proof.
  intros Hsize. cbv zeta.
  destruct (append_pieces_ok bufferSize pieces _ (zeroed_buffer_ok _ Hsize))
    as [(Hlen & Hoff & Hnul) Hcontent].
  repeat split; try assumption; try lia.
Qed.


(** ** A line of the menu, from the buffer to the screen *)

Lemma update_buffer_parts bufferSize acc :
  update_buffer_ok bufferSize acc ->
  fst acc = content acc ++ NUL :: drop (S (Z.to_nat (snd acc))) (fst acc).
Proof.
  destruct acc as [buffer offset]. unfold update_buffer_ok, content.
  cbn [fst snd]. intros (_ & _ & Hnul).
  rewrite <- (take_drop (Z.to_nat offset) buffer) at 1.
  f_equal. now apply drop_S.
Qed.

Lemma print_loop_terminated s rest : forall m,
  print_loop (s ++ NUL :: rest) m = print_loop s m.
Proof.
  induction s as [| c s IH]; intros m; cbn [app print_loop]; [reflexivity |].
  destruct (c =? NUL)%char; [reflexivity | apply IH].
Qed.

Lemma print_update_buffer bufferSize acc st :
  update_buffer_ok bufferSize acc ->
  term_printString (fst acc) st = term_printString (content acc) st.
Proof.
  intros Hok. rewrite (update_buffer_parts bufferSize acc Hok) at 1.
  now rewrite !term_printString_finish, print_loop_terminated.
Qed.

Lemma lookup_splice {A} (l text : list A) i k :
  (i + length text <= length l)%nat ->
  (take i l ++ text ++ drop (i + length text) l) !! k =
  if (k <? i)%nat then l !! k
  else if (k <? i + length text)%nat then text !! (k - i)%nat
  else l !! k.
Proof.
  intros Hfit.
  assert (Hi : length (take i l) = i) by (rewrite length_take; lia).
  destruct (Nat.ltb_spec k i).
  - rewrite lookup_app_l by lia. now apply lookup_take_lt.
  - rewrite lookup_app_r by lia. rewrite Hi.
    destruct (Nat.ltb_spec k (i + length text)).
    + now rewrite lookup_app_l by lia.
    + rewrite lookup_app_r by lia. rewrite lookup_drop. f_equal. lia.
Qed.

Lemma address_line_start e row st :
  grid_ok -> 0 <= row < TERM_SCREEN_SIZE_Y ->
  0 <= TERM_POS_Y + row < 256 -> 0 <= TERM_POS_X < 256 ->
  let st' :=
    vt52ProcessSequence
      [e; "Y"%char; char_of_int (TERM_POS_Y + row); char_of_int TERM_POS_X]
      st in
  cursorX st' = 0 /\ cursorY st' = row /\ screen st' = screen st.
Proof.
  intros [HX HY] Hrow Hr Hc. cbv zeta.
  rewrite vt52_direct_address. cbv zeta.
  rewrite !char_to_int_of_int by assumption.
  replace (TERM_POS_Y + row - TERM_POS_Y) with row by lia.
  rewrite Z.sub_diag.
  destruct (Z.leb_spec 0 row); [| lia].
  destruct (Z.ltb_spec row TERM_SCREEN_SIZE_Y); [| lia].
  destruct (Z.ltb_spec 0 TERM_SCREEN_SIZE_X); [| lia].
  cbn [andb Z.leb Z.compare].
  rewrite termRenderChar_NUL.
  cbn [set_prevCursor display_termCursor display_termChar display_call
       set_cursorX set_cursorY cursorX cursorY screen].
  rewrite !u8_small by lia. now repeat split.
Qed.

Lemma print_line_update row text st :
  TERM_ESC_CHAR = "027"%char -> 4 < TERM_ESC_BUFFLINE_SIZE ->
  0 < TERM_POS_Y + row < 256 -> 0 < TERM_POS_X < 256 ->
  Forall printable text ->
  term_printString (move_and_clear_line row ++ text) st =
  display_termRefresh
    (flush_literal text
       (vt52ProcessSequence [TERM_ESC_CHAR; "K"%char]
          (vt52ProcessSequence
             [TERM_ESC_CHAR; "Y"%char; char_of_int (TERM_POS_Y + row);
              char_of_int TERM_POS_X] st))).
Proof.
  intros Hesc Hsize Hr Hc Htext.
  assert (Hr' : char_of_int (TERM_POS_Y + row) <> NUL)
    by now apply char_of_int_not_NUL.
  assert (Hc' : char_of_int TERM_POS_X <> NUL)
    by now apply char_of_int_not_NUL.
  assert (He : TERM_ESC_CHAR <> NUL) by (rewrite Hesc; discriminate).
  unfold move_and_clear_line. rewrite <- Hesc.
  rewrite term_printString_finish. cbn [app].
  rewrite print_loop_cons, print_step_start by exact He.
  rewrite print_loop_cons, print_step_address_1 by (lia || discriminate).
  rewrite print_loop_cons, print_step_address_2 by (lia || assumption).
  rewrite print_loop_cons, print_step_address_3 by (lia || assumption).
  rewrite print_loop_cons, print_step_start by exact He.
  rewrite print_loop_cons, print_step_command by (lia || discriminate).
  rewrite print_loop_printable by exact Htext.
  reflexivity.
Qed.

Lemma printable_no_NUL text :
  Forall printable text -> Forall (fun c => c <> NUL) text.
Proof. intros H. eapply Forall_impl; [exact H |]. now intros c [Hc _]. Qed.

(** X20.  A line of the live menu goes from the update buffer to its row of
    the screen.  After [term_appendMoveAndClearLine] for a row of the grid
    and [term_appendText] for a line of visible characters shorter than the
    row, [term_printString] of the buffer leaves the line at the start of
    that row, the rest of the row cleared, every other row as it was, and
    the cursor behind the line.  The escape character of the emulator has
    to be the ESC byte the buffer is written with, and the bytes of the
    address must be characters. *)
Theorem menu_line_lands_on_its_row
    (bufferSize row : Z) (text : list ascii) (st : State) :
  TERM_ESC_CHAR = "027"%char -> 4 < TERM_ESC_BUFFLINE_SIZE ->
  grid_ok -> screen_full st ->
  0 <= row < TERM_SCREEN_SIZE_Y ->
  0 < TERM_POS_Y + row < 256 -> 0 < TERM_POS_X < 256 ->
  Forall printable text -> Z.of_nat (length text) < TERM_SCREEN_SIZE_X ->
  6 + Z.of_nat (length text) < bufferSize ->
  let acc :=
    foldl (append_piece bufferSize)
          (replicate (Z.to_nat bufferSize) NUL, 0)
          [MoveAndClearLine row; Text text] in
  let st' := term_printString (fst acc) st in
  (cursorX st' = Z.of_nat (length text) /\ cursorY st' = row) /\
  screen_full st' /\
  forall x y,
    0 <= x < TERM_SCREEN_SIZE_X -> 0 <= y < TERM_SCREEN_SIZE_Y ->
    screen st' !! cell_index x y =
    if y =? row then Some (nth (Z.to_nat x) text NUL)
    else screen st !! cell_index x y.
Proof.
  intros Hesc Hsize Hgrid Hfull Hrow Hr Hc Htext Hlen Hroom. cbv zeta.
  pose proof (printable_no_NUL text Htext) as Hnul.
  assert (Hbuf : 0 < bufferSize) by lia.
  destruct (append_pieces_ok bufferSize [MoveAndClearLine row; Text text] _
              (zeroed_buffer_ok _ Hbuf)) as [Hok Hcontent].
  set (acc := foldl _ _ _) in *.
  assert (Hbytes : content acc = move_and_clear_line row ++ text).
  { rewrite Hcontent. unfold content at 1. cbn [fst snd]. rewrite take_0.
    cbn [map concat piece_output app]. rewrite app_nil_r.
    rewrite (cstr_nul_free text Hnul). apply take_ge.
    rewrite length_app. cbn [move_and_clear_line length]. lia. }
  rewrite (print_update_buffer bufferSize acc st Hok), Hbytes.
  rewrite print_line_update by assumption.
  destruct (address_line_start TERM_ESC_CHAR row st Hgrid Hrow) as
    (HX1 & HY1 & Hscr1); [lia | lia |].
  set (st1 := vt52ProcessSequence [_; "Y"%char; _; _] st) in *.
  assert (Hfull1 : screen_full st1) by (unfold screen_full; now rewrite Hscr1).
  change (vt52ProcessSequence [TERM_ESC_CHAR; "K"%char] st1)
    with (for_range (cursorX st1) TERM_SCREEN_SIZE_X
            (fun posX => clear_cell posX (cursorY st1)) st1).
  destruct (clear_to_row_end (cursorY st1) (cursorX st1) st1 Hgrid Hfull1)
    as [Hfull2 Hcells2]; [lia | destruct Hgrid; lia |].
  destruct (for_range_cursor (cursorX st1) TERM_SCREEN_SIZE_X
              (fun posX => clear_cell posX (cursorY st1)) st1)
    as [HX2 HY2]; [intros; apply clear_cell_cursor |].
  set (st2 := for_range _ _ _ st1) in *.
  rewrite HX1 in HX2. rewrite HY1 in HY2.
  assert (Hin2 : in_bounds st2)
    by (unfold in_bounds; rewrite HX2, HY2; destruct Hgrid; lia).
  assert (Hidx2 : cursor_index st2 = row * TERM_SCREEN_SIZE_X)
    by (unfold cursor_index; rewrite HX2, HY2; lia).
  assert (Hroom2 : cursor_index st2 + Z.of_nat (length text)
                   < TERM_SCREEN_SIZE_X * TERM_SCREEN_SIZE_Y)
    by (rewrite Hidx2; nia).
  destruct (flush_literal_printable text st2 Hgrid Hin2 Htext Hroom2 Hfull2)
    as (Hscr3 & Hidx3 & Hin3).
  set (st3 := flush_literal text st2) in *.
  change (cursorX (display_termRefresh st3)) with (cursorX st3).
  change (cursorY (display_termRefresh st3)) with (cursorY st3).
  change (screen (display_termRefresh st3)) with (screen st3).
  assert (Hidx0 : 0 <= cursor_index st2)
    by (rewrite Hidx2; destruct Hgrid; nia).
  assert (Hfull3 : screen_full st3).
  { unfold screen_full in *. rewrite Hscr3.
    rewrite !length_app, length_take, length_drop. lia. }
  split; [| split; [exact Hfull3 |]].
  - rewrite Hidx2 in Hidx3. unfold cursor_index in Hidx3.
    destruct Hin3 as [H3X H3Y].
    assert (cursorY st3 = row) by nia. split; nia.
  - intros x y Hx Hy. rewrite Hscr3, Hidx2.
    unfold screen_full in Hfull2.
    rewrite lookup_splice by nia.
    unfold cell_index.
    rewrite HX1, HY1 in Hcells2.
    destruct (Z.eqb_spec y row) as [-> | Hne].
    + destruct (Nat.ltb_spec (Z.to_nat (row * TERM_SCREEN_SIZE_X + x))
                  (Z.to_nat (row * TERM_SCREEN_SIZE_X))); [nia |].
      replace (Z.to_nat (row * TERM_SCREEN_SIZE_X + x) -
               Z.to_nat (row * TERM_SCREEN_SIZE_X))%nat
        with (Z.to_nat x) by nia.
      destruct (Nat.ltb_spec (Z.to_nat (row * TERM_SCREEN_SIZE_X + x))
                  (Z.to_nat (row * TERM_SCREEN_SIZE_X) + length text)).
      * rewrite nth_lookup.
        destruct (lookup_lt_is_Some_2 text (Z.to_nat x)) as [c ->];
          [nia | reflexivity].
      * rewrite nth_overflow by nia.
        specialize (Hcells2 x row Hx Hy). unfold cell_index in Hcells2.
        rewrite Hcells2, Z.eqb_refl.
        destruct (Z.leb_spec 0 x); [reflexivity | lia].
    + specialize (Hcells2 x y Hx Hy). unfold cell_index in Hcells2.
      assert (Hsame : screen st2 !! Z.to_nat (y * TERM_SCREEN_SIZE_X + x) =
                      screen st !! Z.to_nat (y * TERM_SCREEN_SIZE_X + x)).
      { rewrite Hcells2.
        destruct (Z.eqb_spec y row); [contradiction |].
        cbn [andb]. now rewrite Hscr1. }
      destruct (Nat.ltb_spec (Z.to_nat (y * TERM_SCREEN_SIZE_X + x))
                  (Z.to_nat (row * TERM_SCREEN_SIZE_X))); [exact Hsame |].
      destruct (Nat.ltb_spec (Z.to_nat (y * TERM_SCREEN_SIZE_X + x))
                  (Z.to_nat (row * TERM_SCREEN_SIZE_X) + length text));
        [| exact Hsame].
      exfalso.
      assert (row < y \/ y < row) as [|] by lia; nia.
Qed.


(** ** Refreshing the live lines *)

Lemma remembered_line size prev line :
  strlen line < size ->
  cstr (fst (snprintf_at prev 0 size (cstr line))) = cstr line.
Proof.
  unfold strlen, snprintf_at. intros Hfit.
  destruct (Z.leb_spec size 0); [lia |]. cbv zeta. cbn [fst].
  change (Z.to_nat 0) with 0%nat. rewrite take_0. cbn [app].
  rewrite take_ge by lia.
  apply cstr_terminated, cstr_no_NUL.
Qed.

Lemma strcmp_eq_remembered size prev line :
  strlen line < size ->
  strcmp_eq line (fst (snprintf_at prev 0 size (cstr line))) = true.
Proof.
  intros Hfit. unfold strcmp_eq. rewrite remembered_line by assumption.
  now apply str_eqb_eq.
Qed.

(** X21.  Refreshing the live menu twice with the same lines prints once:
    the second call finds every line equal to the one remembered, returns
    before it builds a buffer, and leaves the menu, the screen, the cursor
    and the display as the first call left them.  The lines are C strings
    that fit the arrays they are remembered in. *)
Theorem menu_refresh_is_idempotent
    (TERM_MENU_LIVE_LINE_MAX : Z)
    (lines : option (list ascii * list ascii * list ascii))
    (menu : Menu) (st : State) :
  lines_fit TERM_MENU_LIVE_LINE_MAX lines ->
  let once := term_refreshMenuLiveInfo TERM_MENU_LIVE_LINE_MAX lines menu st in
  term_refreshMenuLiveInfo TERM_MENU_LIVE_LINE_MAX lines (fst once) (snd once)
    = once.
Proof.
  intros Hfit. cbv zeta.
  destruct (menuRowsValid menu) eqn:Hvalid.
  2: { assert (Honce : term_refreshMenuLiveInfo TERM_MENU_LIVE_LINE_MAX lines
                         menu st = (menu, st))
         by (unfold term_refreshMenuLiveInfo; now rewrite Hvalid).
       rewrite Honce. exact Honce. }
  destruct lines as [[[ssidLine selectLine] sdLine] |].
  2: { assert (Honce : term_refreshMenuLiveInfo TERM_MENU_LIVE_LINE_MAX None
                         menu st = (menu, st))
         by (unfold term_refreshMenuLiveInfo; now rewrite Hvalid).
       rewrite Honce. exact Honce. }
  destruct Hfit as (Hssid & Hselect & Hsd).
  destruct (negb (negb (strcmp_eq ssidLine (prevSsidLine menu))) &&
            negb (negb (strcmp_eq selectLine (prevSelectLine menu))) &&
            negb (negb (strcmp_eq sdLine (prevSdLine menu)))) eqn:Hsame.
  - assert (Honce : term_refreshMenuLiveInfo TERM_MENU_LIVE_LINE_MAX
                      (Some (ssidLine, selectLine, sdLine)) menu st
                    = (menu, st)).
    { unfold term_refreshMenuLiveInfo. rewrite Hvalid. cbn [negb]. cbv zeta.
      now rewrite Hsame. }
    rewrite Honce. exact Honce.
  - assert (Honce : exists updateBuffer,
              term_refreshMenuLiveInfo TERM_MENU_LIVE_LINE_MAX
                (Some (ssidLine, selectLine, sdLine)) menu st
              = (mkMenu (menuRowSsid menu) (menuRowSelect menu)
                        (menuRowSd menu) (menuPromptRow menu)
                        (menuPromptCol menu) (menuRowsValid menu)
                        (menuPromptValid menu)
                        (fst (snprintf_at (prevSsidLine menu) 0
                                TERM_MENU_LIVE_LINE_MAX (cstr ssidLine)))
                        (fst (snprintf_at (prevSelectLine menu) 0
                                TERM_MENU_LIVE_LINE_MAX (cstr selectLine)))
                        (fst (snprintf_at (prevSdLine menu) 0
                                TERM_MENU_LIVE_LINE_MAX (cstr sdLine))),
                 term_printString updateBuffer st)).
    { unfold term_refreshMenuLiveInfo. rewrite Hvalid. cbn [negb]. cbv zeta.
      rewrite Hsame.
      repeat match goal with
             | |- context [let '(_, _) := ?x in _] => destruct x
             end.
      eexists. reflexivity. }
    destruct Honce as [updateBuffer Honce]. rewrite Honce. cbn [fst snd].
    unfold term_refreshMenuLiveInfo.
    cbn [menuRowsValid prevSsidLine prevSelectLine prevSdLine].
    rewrite Hvalid. cbn [negb]. cbv zeta.
    rewrite !strcmp_eq_remembered by assumption.
    reflexivity.
Qed.


Lemma append_line_pieces update row line acc :
  append_line update row line acc =
  foldl (append_piece 512) acc (line_pieces update row line).
Proof.
  unfold append_line, line_pieces. destruct update; [| reflexivity].
  cbn [foldl append_piece].
  now destruct (term_appendMoveAndClearLine (fst acc) 512 (snd acc) row).
Qed.

Lemma term_refreshMenuLiveInfo_prints
    (TERM_MENU_LIVE_LINE_MAX : Z) (ssidLine selectLine sdLine : list ascii)
    (menu : Menu) (st : State) :
  menuRowsValid menu = true ->
  let updateSsid := negb (strcmp_eq ssidLine (prevSsidLine menu)) in
  let updateSelect := negb (strcmp_eq selectLine (prevSelectLine menu)) in
  let updateSd := negb (strcmp_eq sdLine (prevSdLine menu)) in
  updateSsid || updateSelect || updateSd = true ->
  let pieces :=
    line_pieces updateSsid (menuRowSsid menu) ssidLine ++
    line_pieces updateSelect (menuRowSelect menu) selectLine ++
    line_pieces updateSd (menuRowSd menu) sdLine in
  snd (term_refreshMenuLiveInfo TERM_MENU_LIVE_LINE_MAX
         (Some (ssidLine, selectLine, sdLine)) menu st) =
  term_printString
    (take 511 (concat (map piece_output pieces) ++ prompt_address menu)) st.
Proof.
  intros Hvalid. cbv zeta. intros Hchanged.
  unfold term_refreshMenuLiveInfo. rewrite Hvalid. cbn [negb]. cbv zeta.
  assert (Hsame :
    negb (negb (strcmp_eq ssidLine (prevSsidLine menu))) &&
    negb (negb (strcmp_eq selectLine (prevSelectLine menu))) &&
    negb (negb (strcmp_eq sdLine (prevSdLine menu))) = false).
  { destruct (strcmp_eq ssidLine _), (strcmp_eq selectLine _),
      (strcmp_eq sdLine _); try reflexivity. discriminate Hchanged. }
  rewrite Hsame. clear Hsame Hchanged.
  rewrite !append_line_pieces, <- !foldl_app.
  set (pieces := line_pieces _ _ ssidLine ++ _).
  change (replicate 512 NUL, 0) with (replicate (Z.to_nat 512) NUL, 0).
  destruct (append_pieces_ok 512 pieces _ (zeroed_buffer_ok 512 eq_refl))
    as [Hok Hcontent].
  set (acc := foldl _ _ pieces) in *.
  unfold content at 2 in Hcontent. cbn [fst snd] in Hcontent.
  rewrite take_0 in Hcontent. cbn [app] in Hcontent.
  change (Z.to_nat (512 - 1)) with 511%nat in Hcontent.
  pose proof Hok as (_ & Hoff & _).
  destruct acc as [updateBuffer offset] eqn:Hacc. cbn [fst snd] in Hoff.
  unfold prompt_address.
  destruct (menuPromptValid menu); cbn [andb].
  - destruct (Z.ltb_spec offset 512); [| lia].
    rewrite snprintf_at_appended by lia.
    set (bytes := [_; _; _; _]).
    change (0 <? Z.of_nat (length bytes)) with true. cbv iota.
    destruct (appended_ok 512 (updateBuffer, offset) bytes Hok)
      as [Hok' Hcontent'].
    cbn [fst snd] in Hok', Hcontent'.
    assert (Hprint :
      term_printString (fst (appended updateBuffer 512 offset bytes)) st =
      term_printString
        (take 511 (concat (map piece_output pieces) ++ bytes)) st).
    { rewrite (print_update_buffer 512 _ st Hok'), Hcontent', Hcontent.
      change (Z.to_nat (512 - 1)) with 511%nat.
      now rewrite take_take_app. }
    destruct (512 - offset <=? Z.of_nat (length bytes)); cbn [snd];
      exact Hprint.
  - cbn [snd]. rewrite app_nil_r, <- Hcontent.
    apply (print_update_buffer 512 (updateBuffer, offset) st Hok).
Qed.

(** X22.  What a refresh prints.  When the rows of the menu are known and
    a line differs from the one remembered, [term_refreshMenuLiveInfo]
    prints, in one string: for each line that changed, and only for those,
    the address of its row, the clearing of that row and the line; then the
    address of the prompt if it has been marked; all of it cut at the 511
    bytes the buffer holds. *)
Theorem menu_refresh_prints_the_changed_lines
    (TERM_MENU_LIVE_LINE_MAX : Z) (ssidLine selectLine sdLine : list ascii)
    (menu : Menu) (st : State) :
  menuRowsValid menu = true ->
  let updateSsid := negb (strcmp_eq ssidLine (prevSsidLine menu)) in
  let updateSelect := negb (strcmp_eq selectLine (prevSelectLine menu)) in
  let updateSd := negb (strcmp_eq sdLine (prevSdLine menu)) in
  updateSsid || updateSelect || updateSd = true ->
  let pieces :=
    line_pieces updateSsid (menuRowSsid menu) ssidLine ++
    line_pieces updateSelect (menuRowSelect menu) selectLine ++
    line_pieces updateSd (menuRowSd menu) sdLine in
  snd (term_refreshMenuLiveInfo TERM_MENU_LIVE_LINE_MAX
         (Some (ssidLine, selectLine, sdLine)) menu st) =
  term_printString
    (take 511 (concat (map piece_output pieces) ++ prompt_address menu)) st.
Proof. exact (term_refreshMenuLiveInfo_prints TERM_MENU_LIVE_LINE_MAX
                ssidLine selectLine sdLine menu st). Qed.



(** ** The cursor after a refresh *)

Lemma address_cursor e row col st :
  grid_ok -> 0 <= row < TERM_SCREEN_SIZE_Y -> 0 <= col < TERM_SCREEN_SIZE_X ->
  0 <= TERM_POS_Y + row < 256 -> 0 <= TERM_POS_X + col < 256 ->
  let st' :=
    vt52ProcessSequence
      [e; "Y"%char; char_of_int (TERM_POS_Y + row);
       char_of_int (TERM_POS_X + col)] st in
  cursorX st' = col /\ cursorY st' = row.
Proof.
  intros [HX HY] Hrow Hcol Hr Hc. cbv zeta.
  rewrite vt52_direct_address. cbv zeta.
  rewrite !char_to_int_of_int by assumption.
  replace (TERM_POS_Y + row - TERM_POS_Y) with row by lia.
  replace (TERM_POS_X + col - TERM_POS_X) with col by lia.
  destruct (Z.leb_spec 0 row); [| lia].
  destruct (Z.ltb_spec row TERM_SCREEN_SIZE_Y); [| lia].
  destruct (Z.leb_spec 0 col); [| lia].
  destruct (Z.ltb_spec col TERM_SCREEN_SIZE_X); [| lia].
  cbn [andb].
  destruct (termRenderChar_NUL_cursor
              (set_cursorX (u8 col) (set_cursorY (u8 row) st))) as [-> ->].
  cbn [set_cursorX set_cursorY cursorX cursorY].
  rewrite !u8_small by lia. now split.
Qed.

Lemma print_loop_move_and_clear row rest buf st :
  TERM_ESC_CHAR = "027"%char -> 4 < TERM_ESC_BUFFLINE_SIZE ->
  0 < TERM_POS_Y + row < 256 -> 0 < TERM_POS_X < 256 ->
  exists buf' st',
    print_loop (move_and_clear_line row ++ rest)
               (mkMachine STATE_NORMAL buf st) =
    print_loop rest (mkMachine STATE_NORMAL buf' st').
Proof.
  intros Hesc Hsize Hr Hc.
  assert (Hr' : char_of_int (TERM_POS_Y + row) <> NUL)
    by now apply char_of_int_not_NUL.
  assert (Hc' : char_of_int TERM_POS_X <> NUL)
    by now apply char_of_int_not_NUL.
  assert (He : TERM_ESC_CHAR <> NUL) by (rewrite Hesc; discriminate).
  unfold move_and_clear_line. rewrite <- Hesc. cbn [app].
  rewrite print_loop_cons, print_step_start by exact He.
  rewrite print_loop_cons, print_step_address_1 by (lia || discriminate).
  rewrite print_loop_cons, print_step_address_2 by (lia || assumption).
  rewrite print_loop_cons, print_step_address_3 by (lia || assumption).
  rewrite print_loop_cons, print_step_start by exact He.
  rewrite print_loop_cons, print_step_command by (lia || discriminate).
  eexists _, _. reflexivity.
Qed.

Lemma print_loop_pieces pieces rest :
  TERM_ESC_CHAR = "027"%char -> 4 < TERM_ESC_BUFFLINE_SIZE ->
  Forall piece_ok pieces ->
  forall buf st,
  exists buf' st',
    print_loop (concat (map piece_output pieces) ++ rest)
               (mkMachine STATE_NORMAL buf st) =
    print_loop rest (mkMachine STATE_NORMAL buf' st').
Proof.
  intros Hesc Hsize Hok.
  induction Hok as [| p pieces Hp _ IH]; intros buf st; cbn [map concat].
  - exists buf, st. reflexivity.
  - rewrite <- app_assoc.
    destruct p as [row | text]; cbn [piece_output piece_ok] in *.
    + destruct Hp as [Hr Hc].
      destruct (print_loop_move_and_clear row
                  (concat (map piece_output pieces) ++ rest) buf st
                  Hesc Hsize Hr Hc) as (buf1 & st1 & ->).
      apply IH.
    + rewrite print_loop_app by now apply printable_no_NUL.
      rewrite print_loop_printable by exact Hp.
      apply IH.
Qed.

(** X23.  A refresh puts the cursor back at the prompt.  When the prompt
    has been marked with [term_markMenuPromptCursor] at a cursor on the
    grid, a refresh that rewrites lines of the menu ends with the cursor
    where it was marked, wherever the cursor is when the refresh starts.
    The lines have to be free of control characters, the update has to fit
    the buffer, and the bytes of the addresses must be characters. *)
Theorem menu_refresh_puts_the_cursor_back
    (TERM_MENU_LIVE_LINE_MAX : Z) (ssidLine selectLine sdLine : list ascii)
    (menu : Menu) (marked_at st : State) :
  TERM_ESC_CHAR = "027"%char -> 4 < TERM_ESC_BUFFLINE_SIZE ->
  grid_ok -> in_bounds marked_at ->
  0 < TERM_POS_Y + cursorY marked_at < 256 ->
  0 < TERM_POS_X + cursorX marked_at < 256 ->
  menuRowsValid menu = true ->
  let updateSsid := negb (strcmp_eq ssidLine (prevSsidLine menu)) in
  let updateSelect := negb (strcmp_eq selectLine (prevSelectLine menu)) in
  let updateSd := negb (strcmp_eq sdLine (prevSdLine menu)) in
  updateSsid || updateSelect || updateSd = true ->
  let pieces :=
    line_pieces updateSsid (menuRowSsid menu) ssidLine ++
    line_pieces updateSelect (menuRowSelect menu) selectLine ++
    line_pieces updateSd (menuRowSd menu) sdLine in
  Forall piece_ok pieces ->
  (length (concat (map piece_output pieces)) + 4 <= 511)%nat ->
  let st' :=
    snd (term_refreshMenuLiveInfo TERM_MENU_LIVE_LINE_MAX
           (Some (ssidLine, selectLine, sdLine))
           (term_markMenuPromptCursor menu marked_at) st) in
  cursorX st' = cursorX marked_at /\ cursorY st' = cursorY marked_at.
Proof.
  intros Hesc Hsize Hgrid [HX HY] Hr Hc Hvalid. cbv zeta.
  intros Hchanged Hok Hfit.
  rewrite term_refreshMenuLiveInfo_prints by assumption.
  cbn [term_markMenuPromptCursor menuRowSsid menuRowSelect menuRowSd
       prevSsidLine prevSelectLine prevSdLine].
  unfold prompt_address.
  cbn [term_markMenuPromptCursor menuPromptValid menuPromptRow menuPromptCol].
  set (pieces := line_pieces _ _ ssidLine ++ _) in *.
  rewrite take_ge by (rewrite length_app; cbn [length]; lia).
  rewrite term_printString_finish.
  destruct (print_loop_pieces pieces
              ["027"%char; "Y"%char;
               char_of_int (TERM_POS_Y + cursorY marked_at);
               char_of_int (TERM_POS_X + cursorX marked_at)]
              Hesc Hsize Hok [] st) as (buf1 & st1 & ->).
  assert (Hr' : char_of_int (TERM_POS_Y + cursorY marked_at) <> NUL)
    by now apply char_of_int_not_NUL.
  assert (Hc' : char_of_int (TERM_POS_X + cursorX marked_at) <> NUL)
    by now apply char_of_int_not_NUL.
  assert (He : TERM_ESC_CHAR <> NUL) by (rewrite Hesc; discriminate).
  rewrite <- Hesc.
  rewrite print_loop_cons, print_step_start by exact He.
  rewrite print_loop_cons, print_step_address_1 by (lia || discriminate).
  rewrite print_loop_cons, print_step_address_2 by (lia || assumption).
  rewrite print_loop_cons, print_step_address_3 by (lia || assumption).
  cbn [print_loop finish state term].
  apply (address_cursor TERM_ESC_CHAR (cursorY marked_at) (cursorX marked_at)
           st1 Hgrid); lia.
Qed.

End WithConfig.

Lemma update_buffer_is_the_truncated_concatenation_witness :
  content
    (foldl (append_piece (cfg := vt52_config) 8)
           (replicate (Z.to_nat 8) NUL, 0)
           [Text (list_ascii_of_string "hello");
            Text (list_ascii_of_string " world")])
  = list_ascii_of_string "hello w".
Proof.
  pose proof (update_buffer_is_the_truncated_concatenation
                (cfg := vt52_config) 8
                [Text (list_ascii_of_string "hello");
                 Text (list_ascii_of_string " world")]) as H.
  cbv zeta in H. destruct H as (_ & _ & _ & Hcontent); [lia |].
  exact Hcontent.
Defined.

Lemma menu_line_lands_on_its_row_witness :
  cursorX (term_printString (cfg := vt52_config)
             (fst (foldl (append_piece (cfg := vt52_config) 512)
                         (replicate (Z.to_nat 512) NUL, 0)
                         [MoveAndClearLine 1;
                          Text (list_ascii_of_string "SD card")]))
             greeting_term) = 7 /\
  screen (term_printString (cfg := vt52_config)
            (fst (foldl (append_piece (cfg := vt52_config) 512)
                        (replicate (Z.to_nat 512) NUL, 0)
                        [MoveAndClearLine 1;
                         Text (list_ascii_of_string "SD card")]))
            greeting_term) !! cell_index (cfg := vt52_config) 1 1
    = Some "D"%char.
Proof.
  pose proof (menu_line_lands_on_its_row (cfg := vt52_config) 512 1
                (list_ascii_of_string "SD card") greeting_term) as H.
  cbv zeta in H. destruct H as ((HX & _) & _ & Hcells).
  - reflexivity.
  - cbn; lia.
  - exact vt52_grid_ok.
  - reflexivity.
  - cbn; lia.
  - cbn; lia.
  - cbn; lia.
  - repeat constructor; discriminate.
  - cbn; lia.
  - cbn; lia.
  - split; [exact HX |]. rewrite Hcells by (cbn; lia). reflexivity.
Defined.

Lemma menu_refresh_is_idempotent_witness :
  term_refreshMenuLiveInfo (cfg := vt52_config) 40 (Some sample_lines)
    (fst (term_refreshMenuLiveInfo (cfg := vt52_config) 40
            (Some sample_lines) sample_menu blank_term))
    (snd (term_refreshMenuLiveInfo (cfg := vt52_config) 40
            (Some sample_lines) sample_menu blank_term))
  = term_refreshMenuLiveInfo (cfg := vt52_config) 40 (Some sample_lines)
      sample_menu blank_term.
Proof.
  apply (menu_refresh_is_idempotent (cfg := vt52_config) 40
           (Some sample_lines) sample_menu blank_term).
  repeat split.
Defined.

Lemma menu_refresh_prints_the_changed_lines_witness :
  snd (term_refreshMenuLiveInfo (cfg := vt52_config) 40
         (Some sample_lines) sample_menu blank_term)
  = term_printString (cfg := vt52_config)
      (move_and_clear_line (cfg := vt52_config) 2 ++
       fst (fst sample_lines) ++
       move_and_clear_line (cfg := vt52_config) 3 ++
       snd (fst sample_lines) ++
       move_and_clear_line (cfg := vt52_config) 4 ++
       snd sample_lines ++
       prompt_address (cfg := vt52_config) sample_menu)
      blank_term.
Proof.
  exact (menu_refresh_prints_the_changed_lines (cfg := vt52_config) 40
           (fst (fst sample_lines)) (snd (fst sample_lines))
           (snd sample_lines) sample_menu blank_term eq_refl eq_refl).
Defined.

Lemma menu_refresh_puts_the_cursor_back_witness :
  (cursorX greeting_term = 2 /\ cursorY greeting_term = 1) /\
  cursorX (snd (term_refreshMenuLiveInfo (cfg := vt52_config) 40
                  (Some sample_lines)
                  (term_markMenuPromptCursor sample_menu greeting_term)
                  blank_term)) = 2 /\
  cursorY (snd (term_refreshMenuLiveInfo (cfg := vt52_config) 40
                  (Some sample_lines)
                  (term_markMenuPromptCursor sample_menu greeting_term)
                  blank_term)) = 1.
Proof.
  split; [split; reflexivity |].
  apply (menu_refresh_puts_the_cursor_back (cfg := vt52_config) 40
           (fst (fst sample_lines)) (snd (fst sample_lines))
           (snd sample_lines) sample_menu greeting_term blank_term).
  - reflexivity.
  - cbn; lia.
  - exact vt52_grid_ok.
  - exact greeting_term_in_bounds.
  - vm_compute. split; reflexivity.
  - vm_compute. split; reflexivity.
  - reflexivity.
  - reflexivity.
  - vm_compute. repeat constructor; intros H; discriminate H.
  - vm_compute. repeat constructor.
Defined.

End LiveMenuProperties.

(** * Properties of the SD card *)

Module SdcardProperties.
Import Sdcard.

Section WithFatFs.

Variable FR_OK : Z.
Variable AM_DIR : Z.

Local Abbreviation init := (sdcard_initFilesystem FR_OK AM_DIR).
Local Abbreviation info := (sdcard_getMountedInfo FR_OK).

(** One outcome of the initialisation, [k] calls into [all_calls dir]. *)
Ltac init_case k dir :=
  cbn [fst snd sdcard_isMounted sdMounted mountedFsPtr andb negb app
       valid_arguments];
  repeat match goal with
         | |- _ /\ _ => split
         | |- exists _ _, _ = take _ _ => exists k, dir; reflexivity
         | |- forall _ : list ascii, _ => intro
         end;
  cbn [In];
  try solve [intuition (subst; first [reflexivity | discriminate | congruence])].

(** X24.  The status [sdcard_initFilesystem] returns and the mount state
    agree, whatever the state was before: the filesystem is mounted
    afterwards exactly when the status is [SDCARD_INIT_OK], and it is then
    the one passed in; a failed initialisation leaves the card unmounted,
    also when it was mounted before.  The driver and FatFs are called in a
    fixed order, each only after the one before it has succeeded: the
    driver is initialised exactly when the arguments are valid, the SPI
    speed is set and the filesystem mounted exactly when the driver came up
    as well, the folder is looked for exactly when the mount succeeded as
    well, and it is created exactly when it was not found.  The status
    names the step that failed. *)
Theorem init_status_is_the_mount_state
    (card : Card) (fsPtr : option FATFS) (folderName : option (list ascii))
    (s : Statics) :
  let status := fst (fst (init card fsPtr folderName s)) in
  let s' := snd (fst (init card fsPtr folderName s)) in
  let calls := snd (init card fsPtr folderName s) in
  let valid := valid_arguments fsPtr folderName in
  let found dir := fst (sdcard_dirExist FR_OK AM_DIR card dir) in
  (status = SDCARD_INIT_OK <-> sdcard_isMounted s' = true) /\
  (status = SDCARD_INIT_OK -> mountedFsPtr s' = fsPtr) /\
  (status <> SDCARD_INIT_OK -> s' = mkStatics None false) /\
  (exists k dir, calls = take k (all_calls dir)) /\
  (forall dir, In (CallMkdir dir) calls -> found dir = false) /\
  (In CallInitDriver calls <-> valid = true) /\
  (In CallSetSpiSpeedSettings calls <->
     valid = true /\ sd_init_driver card = true) /\
  (In CallMount calls <-> valid = true /\ sd_init_driver card = true) /\
  (forall dir, In (CallStat dir) calls <->
     folderName = Some dir /\ valid = true /\ sd_init_driver card = true /\
     f_mount card = FR_OK) /\
  (forall dir, In (CallMkdir dir) calls <->
     folderName = Some dir /\ valid = true /\ sd_init_driver card = true /\
     f_mount card = FR_OK /\ found dir = false) /\
  (status = SDCARD_INIT_OK <->
     valid = true /\ sd_init_driver card = true /\ f_mount card = FR_OK /\
     forall dir, found dir = false -> f_mkdir card = FR_OK) /\
  (status = SDCARD_INIT_ERROR <->
     valid = false \/ sd_init_driver card = false) /\
  (status = SDCARD_MOUNT_ERROR <->
     valid = true /\ sd_init_driver card = true /\ f_mount card <> FR_OK) /\
  (status = SDCARD_CREATE_FOLDER_ERROR <->
     valid = true /\ sd_init_driver card = true /\ f_mount card = FR_OK /\
     (forall dir, found dir = false) /\ f_mkdir card <> FR_OK).
Proof.
  cbv zeta. unfold sdcard_initFilesystem, sdcard_dirExist, valid_arguments.
  destruct (f_stat card) as [res fattrib].
  destruct fsPtr as [fs |], folderName as [name |];
    try solve [init_case 0%nat (@nil ascii)].
  destruct (nth 0 name Term.NUL =? Term.NUL)%char;
    [init_case 0%nat (@nil ascii) |].
  unfold sdcardInit, sdcard_mountFilesystem.
  destruct (sd_init_driver card); cbn [negb];
    [| init_case 1%nat (@nil ascii)].
  destruct (Z.eqb_spec (f_mount card) FR_OK) as [Hmount | Hmount];
    cbn [negb]; [| init_case 3%nat (@nil ascii)].
  destruct ((res =? FR_OK) && negb (Z.land fattrib AM_DIR =? 0)) eqn:Hexists;
    cbn [negb]; [init_case 4%nat name |].
  destruct (Z.eqb_spec (f_mkdir card) FR_OK) as [Hmkdir | Hmkdir];
    cbn [negb]; init_case 5%nat name.
Qed.

Lemma u32_small z : 0 <= z < 4294967296 -> u32 z = z.
Proof. apply Z.mod_small. Qed.

Lemma u64_small z : 0 <= z < 18446744073709551616 -> u64 z = z.
Proof. apply Z.mod_small. Qed.

Lemma megabytes sectors :
  sectors * NUM_BYTES_PER_SECTOR / SDCARD_MEGABYTE = sectors / 2048.
Proof.
  unfold NUM_BYTES_PER_SECTOR, SDCARD_MEGABYTE.
  change 1048576 with (2048 * 512). now rewrite Z.div_mul_cancel_r.
Qed.

(** X25.  The accounting of [sdcard_getMountedInfo].  On a mounted card
    whose free clusters FatFs reports, for a volume below 4 PiB, the total
    and the free space are the sectors of the data clusters and of the
    free clusters divided by the 2048 sectors of a megabyte, rounded down,
    and the free space does not exceed the total.  [sdcard_getInfo] gives
    the same figures when the volume has fewer than 2^32 sectors; above
    that its total is computed from the low 32 bits of the sector count. *)
Theorem mounted_info_accounting
    (card : Card) (s : Statics) (fs fs0 : FATFS) (freeClusters : Z) :
  sdcard_isMounted s = true ->
  f_getfree card = (FR_OK, freeClusters, Some fs) ->
  fatfs_ok fs -> 0 <= freeClusters <= n_fatent fs - 2 ->
  (n_fatent fs - 2) * csize fs < 2 ^ 43 ->
  let sectors := (n_fatent fs - 2) * csize fs in
  info card s = (true, sectors / 2048, freeClusters * csize fs / 2048) /\
  freeClusters * csize fs / 2048 <= sectors / 2048 /\
  (forall total0 free0,
     sdcard_getInfo FR_OK card (Some fs0) total0 free0 =
     Some (sectors mod 2 ^ 32 / 2048, freeClusters * csize fs / 2048)).
Proof.
  intros Hmounted Hfree (Hn & Hc) Hclusters Hsize. cbv zeta.
  assert (Hsectors : 0 <= (n_fatent fs - 2) * csize fs) by nia.
  assert (Hfreesec : 0 <= freeClusters * csize fs
                     <= (n_fatent fs - 2) * csize fs) by nia.
  assert (Hdiv : (n_fatent fs - 2) * csize fs / 2048 < 4294967296).
  { apply Z.div_lt_upper_bound; lia. }
  assert (Hdiv0 : 0 <= (n_fatent fs - 2) * csize fs / 2048)
    by (apply Z.div_pos; lia).
  assert (Hfdiv : 0 <= freeClusters * csize fs / 2048
                  <= (n_fatent fs - 2) * csize fs / 2048).
  { split; [apply Z.div_pos; lia | apply Z.div_le_mono; lia]. }
  assert (Hfreeval :
    u32 (u64 (u64 (freeClusters * csize fs) * NUM_BYTES_PER_SECTOR)
         / SDCARD_MEGABYTE) = freeClusters * csize fs / 2048).
  { rewrite (u64_small (freeClusters * csize fs)) by lia.
    rewrite u64_small by (unfold NUM_BYTES_PER_SECTOR; lia).
    rewrite megabytes. apply u32_small. lia. }
  split; [| split; [apply Hfdiv |]].
  - unfold sdcard_getMountedInfo. rewrite Hmounted, Hfree. cbn [negb].
    rewrite Z.eqb_refl. cbn [negb]. cbv zeta.
    rewrite Hfreeval.
    rewrite (u32_small (n_fatent fs - 2)) by lia.
    rewrite (u64_small ((n_fatent fs - 2) * csize fs)) by lia.
    rewrite u64_small by (unfold NUM_BYTES_PER_SECTOR; lia).
    rewrite megabytes, u32_small by lia. reflexivity.
  - intros total0 free0. unfold sdcard_getInfo. rewrite Hfree.
    rewrite Z.eqb_refl. cbn [negb]. cbv zeta.
    rewrite Hfreeval.
    rewrite (u32_small (n_fatent fs - 2)) by lia.
    change (u32 ((n_fatent fs - 2) * csize fs))
      with (((n_fatent fs - 2) * csize fs) mod 2 ^ 32).
    pose proof (Z.mod_pos_bound ((n_fatent fs - 2) * csize fs) (2 ^ 32)
                  eq_refl) as Hmod.
    rewrite u64_small by (unfold NUM_BYTES_PER_SECTOR; lia).
    rewrite megabytes. rewrite u32_small; [reflexivity |].
    split; [apply Z.div_pos; lia | apply Z.div_lt_upper_bound; lia].
Qed.

End WithFatFs.

Lemma mounted_info_accounting_witness :
  sdcard_getMountedInfo 0 sample_card (mkStatics (Some sample_fs) true)
    = (true, 4096, 1024).
Proof.
  apply (mounted_info_accounting 0 sample_card
           (mkStatics (Some sample_fs) true) sample_fs sample_fs 32768).
  - reflexivity.
  - reflexivity.
  - unfold fatfs_ok; cbn; lia.
  - cbn; lia.
  - cbn; lia.
Defined.

(** A card that mounts, has no folder and refuses to create one: all five
    calls are made, the last one [f_mkdir], and the status names it. *)
Lemma init_status_is_the_mount_state_witness :
  In (CallMkdir (list_ascii_of_string "data"))
     (snd (sdcard_initFilesystem 0 16 read_only_card (Some sample_fs)
             (Some (list_ascii_of_string "data")) (mkStatics None false))) /\
  fst (fst (sdcard_initFilesystem 0 16 read_only_card (Some sample_fs)
              (Some (list_ascii_of_string "data")) (mkStatics None false))) =
    SDCARD_CREATE_FOLDER_ERROR /\
  sdcard_isMounted
    (snd (fst (sdcard_initFilesystem 0 16 read_only_card (Some sample_fs)
                 (Some (list_ascii_of_string "data"))
                 (mkStatics None false)))) = false.
Proof.
  pose proof (init_status_is_the_mount_state 0 16 read_only_card
                (Some sample_fs) (Some (list_ascii_of_string "data"))
                (mkStatics None false)) as H.
  cbv zeta in H.
  destruct H as (_ & _ & Hfailed & _ & _ & _ & _ & _ & _ & Hmkdir & _ & _ & _
                 & Hcreate).
  assert (Hstatus :
            fst (fst (sdcard_initFilesystem 0 16 read_only_card
                        (Some sample_fs)
                        (Some (list_ascii_of_string "data"))
                        (mkStatics None false))) =
            SDCARD_CREATE_FOLDER_ERROR).
  { apply Hcreate. repeat split; try reflexivity. discriminate. }
  split; [| split].
  - apply Hmkdir. repeat split; reflexivity.
  - exact Hstatus.
  - rewrite Hfailed; [reflexivity |]. rewrite Hstatus. discriminate.
Defined.

End SdcardProperties.

(** * Properties of the SELECT button *)

Module SelectProperties.
Import Select.

Section WithSignal.

Variable gpio : nat -> bool.

Local Abbreviation check := (select_checkPushReset gpio).

Lemma check_reads st :
  (reads st < reads (check st) <= reads st + 3)%nat /\
  reset_cb (check st) = reset_cb st.
Proof.
  unfold select_checkPushReset, select_detectStableState, select_detectPush.
  destruct st as [latched cb lcb n r lr]. cbn [reads selectPressedLatched reset_cb resets];
    unfold call_reset_cb, set_selectPressedLatched;
    cbn [reads selectPressedLatched reset_cb resets].
  destruct (gpio n), latched; cbn [andb negb];
    try (split; [cbn; lia | reflexivity]).
  - destruct (gpio (S n)), (gpio (S (S n))), cb; cbn; split; (lia || reflexivity).
  - destruct (gpio (S n)), (gpio (S (S n))); cbn; split; (lia || reflexivity).
Qed.

(** X26.  The latch follows the pin only through three equal samples.  A
    call of [select_checkPushReset] changes [selectPressedLatched] only
    when the sample it takes and the two of the stability check all show
    the new state; the callback runs only on the change from released to
    pressed, once, and only if it is set; a call that does not change the
    latch does not run it. *)
Theorem latch_changes_on_three_equal_samples (st : State) :
  let st' := check st in
  let n := reads st in
  (selectPressedLatched st' <> selectPressedLatched st ->
   gpio n = selectPressedLatched st' /\
   gpio (S n) = selectPressedLatched st' /\
   gpio (S (S n)) = selectPressedLatched st' /\
   reads st' = (n + 3)%nat) /\
  resets st' =
    (resets st +
     if negb (selectPressedLatched st) && selectPressedLatched st' &&
        reset_cb st
     then 1 else 0)%nat.
Proof.
  cbv zeta.
  unfold select_checkPushReset, select_detectStableState, select_detectPush.
  destruct st as [latched cb lcb n r lr].
  cbn [reads selectPressedLatched reset_cb resets];
    unfold call_reset_cb, set_selectPressedLatched;
    cbn [reads selectPressedLatched reset_cb resets].
  destruct (gpio n) eqn:H0, latched; cbn [andb negb];
    try (split; [intros H; now contradiction H | cbn; lia]).
  - destruct (gpio (S n)) eqn:H1, (gpio (S (S n))) eqn:H2, cb; cbn;
      (split; [intros H; try (now contradiction H); repeat split; lia | lia]).
  - destruct (gpio (S n)) eqn:H1, (gpio (S (S n))) eqn:H2; cbn;
      (split; [intros H; try (now contradiction H); repeat split; lia | lia]).
Qed.

Lemma check_steady level st :
  (forall i, (reads st <= i)%nat -> gpio i = level) ->
  selectPressedLatched (check st) = level /\
  resets (check st) =
    (resets st +
     if level && negb (selectPressedLatched st) && reset_cb st
     then 1 else 0)%nat.
Proof.
  intros Hlevel.
  unfold select_checkPushReset, select_detectStableState, select_detectPush.
  destruct st as [latched cb lcb n r lr].
  unfold call_reset_cb, set_selectPressedLatched;
    cbn [reads selectPressedLatched reset_cb resets] in *.
  rewrite (Hlevel n), (Hlevel (S n)), (Hlevel (S (S n))) by lia.
  destruct level, latched, cb; cbn; split; (reflexivity || lia).
Qed.

(** X27.  A button that is held resets once.  While the pin keeps one
    level, any number of calls of [select_checkPushReset], one at least,
    leaves the latch at that level, and the callback has run once if the
    level is pressed, the latch was released and the callback is set, and
    not at all otherwise: holding the button does not reset again, and
    releasing it never resets. *)
Theorem held_button_resets_once (level : bool) (n : nat) (st : State) :
  (forall i, (reads st <= i)%nat -> gpio i = level) ->
  (0 < n)%nat ->
  selectPressedLatched (poll gpio n st) = level /\
  resets (poll gpio n st) =
    (resets st +
     if level && negb (selectPressedLatched st) && reset_cb st
     then 1 else 0)%nat.
Proof.
  intros Hlevel Hn. destruct n as [| n]; [lia |]. clear Hn.
  revert st Hlevel. induction n as [| n IH]; intros st Hlevel.
  - cbn [poll]. now apply check_steady.
  - change (poll gpio (S (S n)) st) with (poll gpio (S n) (check st)).
    destruct (check_steady level st Hlevel) as [Hlatch Hresets].
    destruct (check_reads st) as [Hreads Hcb].
    destruct (IH (check st)) as [Hlatch' Hresets'].
    { intros i Hi. apply Hlevel. lia. }
    split; [exact Hlatch' |].
    rewrite Hresets', Hresets, Hlatch, Hcb.
    destruct level, (selectPressedLatched st), (reset_cb st); cbn; lia.
Qed.

Section WithDelays.

Variable SELECT_LOOP_DELAY : Z.
Variable SELECT_LONG_RESET : Z.

Hypothesis delay_positive : 0 < SELECT_LOOP_DELAY.
Hypothesis long_positive : 0 < SELECT_LONG_RESET.
Hypothesis no_wrap : SELECT_LONG_RESET + SELECT_LOOP_DELAY <= 4294967296.

Lemma select_detectPush_sampled st :
  select_detectPush gpio st = (gpio (reads st), sampled 1 st).
Proof. reflexivity. Qed.

Lemma hold_loop_held : forall k j fuel press_duration long st,
  (Z.of_nat j * SELECT_LOOP_DELAY < SELECT_LONG_RESET ->
   press_duration = Z.of_nat j * SELECT_LOOP_DELAY /\ long = false) ->
  (SELECT_LONG_RESET <= Z.of_nat j * SELECT_LOOP_DELAY ->
   long = true /\ SELECT_LONG_RESET <= press_duration) ->
  (forall i, (i < k)%nat -> gpio (reads st + i) = true) ->
  gpio (reads st + k) = false ->
  (k < fuel)%nat ->
  exists press_duration',
    hold_loop gpio SELECT_LOOP_DELAY SELECT_LONG_RESET fuel press_duration
              long st =
    Some (press_duration',
          SELECT_LONG_RESET <=? Z.of_nat (j + k) * SELECT_LOOP_DELAY,
          sampled (S k) st).
Proof.
  induction k as [| k IH]; intros j fuel pd long st Hshort Hlong Hheld Hup Hfuel;
    (destruct fuel as [| fuel]; [lia |]); cbn [hold_loop];
    rewrite select_detectPush_sampled.
  - rewrite Nat.add_0_r in Hup. rewrite Hup, Nat.add_0_r.
    exists pd. do 2 f_equal. f_equal.
    destruct (Z.leb_spec SELECT_LONG_RESET (Z.of_nat j * SELECT_LOOP_DELAY)).
    + now apply Hlong.
    + now apply Hshort.
  - pose proof (Hheld 0%nat ltac:(lia)) as Hnow.
    rewrite Nat.add_0_r in Hnow. rewrite Hnow.
    assert (Hnext : forall i, (i < k)%nat ->
                      gpio (reads (sampled 1 st) + i) = true).
    { intros i Hi. cbn [sampled reads].
      replace (1 + reads st + i)%nat with (reads st + S i)%nat by lia.
      apply Hheld. lia. }
    assert (Hup' : gpio (reads (sampled 1 st) + k) = false).
    { cbn [sampled reads].
      replace (1 + reads st + k)%nat with (reads st + S k)%nat by lia.
      exact Hup. }
    assert (Hstate : sampled (S k) (sampled 1 st) = sampled (S (S k)) st).
    { unfold sampled. cbn [selectPressedLatched reset_cb reset_long_cb reads
                           resets long_resets]. f_equal. lia. }
    replace (Z.of_nat (j + S k)) with (Z.of_nat (S j + k)) by lia.
    rewrite <- Hstate.
    destruct (Z.ltb_spec pd SELECT_LONG_RESET) as [Hpd | Hpd].
    + assert (Hj : Z.of_nat j * SELECT_LOOP_DELAY < SELECT_LONG_RESET).
      { destruct (Z.lt_ge_cases (Z.of_nat j * SELECT_LOOP_DELAY)
                    SELECT_LONG_RESET) as [| Hge]; [assumption |].
        destruct (Hlong Hge). lia. }
      destruct (Hshort Hj) as [-> ->].
      assert (Hsmall : u32 (Z.of_nat j * SELECT_LOOP_DELAY + SELECT_LOOP_DELAY)
                       = Z.of_nat (S j) * SELECT_LOOP_DELAY).
      { unfold u32. rewrite Z.mod_small by nia. lia. }
      cbv zeta. rewrite Hsmall.
      apply IH; try assumption; try lia.
      * intros Hs. split; [reflexivity |].
        destruct (Z.leb_spec SELECT_LONG_RESET
                    (Z.of_nat (S j) * SELECT_LOOP_DELAY)); [lia | reflexivity].
      * intros Hl. split; [| exact Hl].
        destruct (Z.leb_spec SELECT_LONG_RESET
                    (Z.of_nat (S j) * SELECT_LOOP_DELAY)); [reflexivity | lia].
    + assert (Hj : SELECT_LONG_RESET <= Z.of_nat j * SELECT_LOOP_DELAY).
      { destruct (Z.lt_ge_cases (Z.of_nat j * SELECT_LOOP_DELAY)
                    SELECT_LONG_RESET) as [Hlt |]; [| assumption].
        destruct (Hshort Hlt). lia. }
      destruct (Hlong Hj) as [-> Hge].
      apply IH; try assumption; lia.
Qed.

(** X28.  [select_waitPush] tells a long press from a short one by the
    time the button is held.  For a press that is stable when the function
    starts, lasts [k] more samples and is then released for good, the
    function returns, after [k + 5] samples in all, having run the long
    callback when [k] loop delays reach [SELECT_LONG_RESET] and the short
    one otherwise, once, and never both.  The two constants are positive
    and the threshold plus one delay fits 32 bits. *)
Theorem long_press_is_told_by_its_duration (k fuel : nat) (st : State) :
  (forall i, gpio (reads st + i) = press_of k i) ->
  (k < fuel)%nat ->
  let long :=
    SELECT_LONG_RESET <=? Z.of_nat k * SELECT_LOOP_DELAY in
  select_waitPush gpio SELECT_LOOP_DELAY SELECT_LONG_RESET fuel st =
  Some (if long then call_reset_long_cb (sampled (k + 5) st)
        else call_reset_cb (sampled (k + 5) st)).
Proof.
  intros Hpress Hfuel. cbv zeta.
  pose proof (Hpress 0%nat) as Hfirst. rewrite Nat.add_0_r in Hfirst.
  pose proof (Hpress 1%nat) as Hsecond. rewrite Nat.add_1_r in Hsecond.
  change (press_of k 0) with true in Hfirst.
  change (press_of k 1) with true in Hsecond.
  unfold select_waitPush, select_detectStableState, select_detectPush.
  cbn [reads selectPressedLatched reset_cb reset_long_cb resets long_resets].
  rewrite Hfirst, Hsecond. cbn [Bool.eqb andb negb].
  change (mkSelect (selectPressedLatched st) (reset_cb st) (reset_long_cb st)
            (S (S (reads st))) (resets st) (long_resets st))
    with (sampled 2 st).
  destruct (hold_loop_held k 0 fuel 0 false (sampled 2 st))
    as [pd ->]; try assumption.
  - intros _. split; [lia | reflexivity].
  - intros H. cbn in H. lia.
  - intros i Hi. cbn [sampled reads].
    replace (2 + reads st + i)%nat with (reads st + (2 + i))%nat by lia.
    rewrite Hpress. unfold press_of. apply Nat.ltb_lt. lia.
  - cbn [sampled reads].
    replace (2 + reads st + k)%nat with (reads st + (2 + k))%nat by lia.
    rewrite Hpress. unfold press_of. apply Nat.ltb_ge. lia.
  - destruct fuel as [| fuel]; [lia |]. cbn [release_loop].
    unfold select_detectStableState, select_detectPush.
    cbn [sampled reads selectPressedLatched reset_cb reset_long_cb resets
         long_resets].
    replace (S k + (2 + reads st))%nat with (reads st + (k + 3))%nat by lia.
    replace (S (reads st + (k + 3))) with (reads st + (k + 4))%nat by lia.
    rewrite !Hpress. unfold press_of.
    destruct (Nat.ltb_spec (k + 3) (2 + k)); [lia |].
    destruct (Nat.ltb_spec (k + 4) (2 + k)); [lia |].
    cbn [Bool.eqb andb].
    replace (S (reads st + (k + 4))) with (k + 5 + reads st)%nat by lia.
    reflexivity.
Qed.

End WithDelays.

End WithSignal.

Lemma latch_changes_on_three_equal_samples_witness :
  selectPressedLatched (poll bouncing_press 2 idle) = false /\
  selectPressedLatched (poll bouncing_press 3 idle) = true /\
  reads (poll bouncing_press 3 idle) = 7%nat /\
  bouncing_press 4 = true /\ bouncing_press 5 = true /\
  bouncing_press 6 = true.
Proof.
  destruct (latch_changes_on_three_equal_samples bouncing_press
              (poll bouncing_press 2 idle)) as [Hchange _].
  cbv zeta in Hchange.
  destruct Hchange as (H0 & H1 & H2 & Hreads);
    [vm_compute; intros H; discriminate H |].
  split; [reflexivity |]. split; [reflexivity |].
  split; [exact Hreads |].
  split; [exact H0 |]. split; [exact H1 | exact H2].
Defined.

Lemma held_button_resets_once_witness :
  selectPressedLatched (poll (fun _ => true) 5 idle) = true /\
  resets (poll (fun _ => true) 5 idle) = 1%nat.
Proof.
  apply (held_button_resets_once (fun _ => true) true 5 idle).
  - reflexivity.
  - lia.
Defined.

Lemma long_press_is_told_by_its_duration_witness :
  select_waitPush (press_of 3) 10 30 10 idle
    = Some (call_reset_long_cb (sampled 8 idle)) /\
  long_resets (call_reset_long_cb (sampled 8 idle)) = 1%nat /\
  resets (call_reset_long_cb (sampled 8 idle)) = 0%nat.
Proof.
  split; [| split; reflexivity].
  apply (long_press_is_told_by_its_duration (press_of 3) 10 30
           ltac:(lia) ltac:(lia) ltac:(lia) 3 10 idle).
  - intros i. reflexivity.
  - lia.
Defined.

End SelectProperties.

(** * A string that ends inside an escape sequence *)

Module PrintStringProperties.
Import Term TermExtra TermProperties LineEditorProperties.

Section WithConfig.

Context {cfg : Config}.

(** ** Bytes rendered as characters *)

(** A byte that [termRenderChar] puts into the cell under the cursor:
    anything but NUL and the two line ends, the escape character
    included. *)
Lemma render_literal chr st :
  grid_ok -> in_bounds st ->
  chr <> NUL -> chr <> LF -> chr <> CR ->
  cursor_index st < TERM_SCREEN_SIZE_X * TERM_SCREEN_SIZE_Y - 1 ->
  let st' := termRenderChar chr st in
  screen st' = <[Z.to_nat (cursor_index st) := chr]> (screen st) /\
  cursor_index st' = cursor_index st + 1 /\
  in_bounds st'.
Proof.
  intros Hgrid Hst Hnul Hlf Hcr Hroom. cbv zeta.
  rewrite termRenderChar_plain by assumption. cbv zeta.
  set (st0 := display_termChar _ _ _ st).
  assert (Hst0 : in_bounds st0) by exact Hst.
  assert (Hcorner : ~ (cursorX st0 = TERM_SCREEN_SIZE_X - 1 /\
                       cursorY st0 = TERM_SCREEN_SIZE_Y - 1)).
  { intros [HX HY]. unfold cursor_index in Hroom.
    change (cursorX st0) with (cursorX st) in HX.
    change (cursorY st0) with (cursorY st) in HY.
    rewrite HX, HY in Hroom. lia. }
  destruct (termPutChar_no_scroll chr st0 Hgrid Hst0 Hcorner)
    as (Hscr & Hidx & Hin & _).
  repeat split; try apply Hin; [exact Hscr | exact Hidx].
Qed.

Lemma render_all_literal bytes : forall st,
  grid_ok -> in_bounds st ->
  Forall (fun c => c <> NUL /\ c <> LF /\ c <> CR) bytes ->
  cursor_index st + Z.of_nat (length bytes)
    < TERM_SCREEN_SIZE_X * TERM_SCREEN_SIZE_Y ->
  screen_full st ->
  let st' := foldl (fun st chr => termRenderChar chr st) st bytes in
  let i := Z.to_nat (cursor_index st) in
  screen st' =
    take i (screen st) ++ bytes ++ drop (i + length bytes) (screen st) /\
  cursor_index st' = cursor_index st + Z.of_nat (length bytes) /\
  in_bounds st'.
Proof.
  induction bytes as [| chr bytes IH]; intros st Hgrid Hst Hbytes Hroom Hfull;
    cbv zeta.
  - cbn. rewrite Nat.add_0_r, take_drop. repeat split; try apply Hst. lia.
  - apply Forall_cons in Hbytes as [(Hnul & Hlf & Hcr) Hbytes].
    cbn [length] in Hroom.
    destruct (render_literal chr st Hgrid Hst Hnul Hlf Hcr)
      as (Hscr & Hidx & Hin); [lia |].
    cbn [foldl].
    assert (Hidx0 : 0 <= cursor_index st).
    { destruct Hst as [? ?], Hgrid as [? ?]. unfold cursor_index. nia. }
    unfold screen_full in Hfull.
    destruct (IH (termRenderChar chr st) Hgrid Hin Hbytes) as (H1 & H2 & H3).
    + rewrite Hidx. lia.
    + unfold screen_full. rewrite Hscr, length_insert. exact Hfull.
    + split; [| split; [rewrite H2, Hidx; cbn [length]; lia | exact H3]].
      rewrite H1, Hscr, Hidx.
      set (i := Z.to_nat (cursor_index st)).
      replace (Z.to_nat (cursor_index st + 1)) with (i + 1)%nat by lia.
      rewrite insert_take_drop by lia.
      assert (Hi : i = length (take i (screen st)))
        by (rewrite length_take; lia).
      rewrite (take_app_add' _ _ i 1 Hi). cbn [take].
      replace (i + 1 + length bytes)%nat with (i + S (length bytes))%nat
        by lia.
      rewrite (drop_app_add' _ _ i (S (length bytes)) Hi). cbn [drop].
      rewrite drop_drop, <- app_assoc. cbn [length app].
      rewrite take_0. cbn [app].
      replace (S i + length bytes)%nat with (i + S (length bytes))%nat by lia.
      reflexivity.
Qed.

(** The characters of a string are not NUL. *)
Lemma tail_of_cstr str pre tail :
  cstr str = pre ++ tail -> Forall (fun c => c <> NUL) tail.
Proof.
  intros Hsplit. pose proof (cstr_no_NUL str) as Hall.
  rewrite Hsplit in Hall. now apply Forall_app in Hall as [_ Htail].
Qed.

(** C6.  One call of [term_printString] takes a step for every character
    of the string and leaves nothing of the escape state behind: the first
    byte of the next string is rendered from NORMAL mode.  If the string
    stops inside an escape sequence, everything before that sequence has
    been printed as by a call of its own, and then each byte of the
    unfinished sequence, the escape character first, has gone through
    [termRenderChar] as an ordinary character: where they fit the grid and
    none is a line end, these bytes are in the cells of the screen from the
    cursor on, and the cursor stands behind them.  The display is asked to
    refresh exactly once, as the last call. *)
Theorem print_string_drains (str : list ascii) (st : State) :
  let m := print_loop str (mkMachine STATE_NORMAL [] st) in
  m = run (cstr str) st /\
  (state m = STATE_ESC ->
   exists pre tail,
     cstr str = pre ++ TERM_ESC_CHAR :: tail /\
     state (run pre st) = STATE_NORMAL /\
     term_printString pre st = display_termRefresh (term (run pre st)) /\
     term_printString str st =
       display_termRefresh
         (foldl (fun st chr => termRenderChar chr st) (term (run pre st))
                (TERM_ESC_CHAR :: tail)) /\
     (grid_ok -> in_bounds (term (run pre st)) ->
      screen_full (term (run pre st)) ->
      Forall (fun c => c <> LF /\ c <> CR) (TERM_ESC_CHAR :: tail) ->
      cursor_index (term (run pre st)) +
        Z.of_nat (length (TERM_ESC_CHAR :: tail))
        < TERM_SCREEN_SIZE_X * TERM_SCREEN_SIZE_Y ->
      let i := Z.to_nat (cursor_index (term (run pre st))) in
      screen (term_printString str st) =
        take i (screen (term (run pre st))) ++
        (TERM_ESC_CHAR :: tail) ++
        drop (i + length (TERM_ESC_CHAR :: tail))
             (screen (term (run pre st))) /\
      cursor_index (term_printString str st) =
        cursor_index (term (run pre st)) +
        Z.of_nat (length (TERM_ESC_CHAR :: tail)))) /\
  (state m = STATE_NORMAL ->
   term_printString str st = display_termRefresh (term m)) /\
  (exists evs,
     display (term_printString str st) = display st ++ evs ++ [DTermRefresh] /\
     Forall (fun ev => ev <> DTermRefresh) evs) /\
  (forall chr rest,
     chr <> NUL -> chr <> TERM_ESC_CHAR ->
     term_printString (chr :: rest) (term_printString str st) =
     term_printString rest (termRenderChar chr (term_printString str st))).
Proof.
  cbv zeta. rewrite print_loop_run.
  split; [reflexivity |]. split; [| split; [| split]].
  - intros Hesc.
    destruct (pending_is_tail st _ Hesc) as (pre & tail & Hl & Hbuf & Hn & Ht).
    exists pre, tail. split; [exact Hl |]. split; [exact Hn |].
    assert (Hwhole :
      term_printString str st =
      display_termRefresh
        (foldl (fun st chr => termRenderChar chr st) (term (run pre st))
               (TERM_ESC_CHAR :: tail))).
    { rewrite term_printString_finish, print_loop_run. unfold finish.
      rewrite Hesc, Hbuf, Ht. reflexivity. }
    split; [| split; [exact Hwhole |]].
    + assert (Hpre : Forall (fun c => c <> NUL) pre).
      { pose proof (cstr_no_NUL str) as Hall. rewrite Hl in Hall.
        now apply Forall_app in Hall as [Hpre _]. }
      rewrite term_printString_finish, print_loop_run.
      rewrite (cstr_nul_free pre Hpre). unfold finish. now rewrite Hn.
    + intros Hgrid Hin Hfull Hends Hroom. cbv zeta.
      pose proof (tail_of_cstr str pre _ Hl) as Hnul.
      destruct (render_all_literal (TERM_ESC_CHAR :: tail) (term (run pre st))
                  Hgrid Hin) as (Hscr & Hidx & _); try assumption.
      { apply Forall_forall. intros c Hc.
        rewrite Forall_forall in Hnul, Hends.
        destruct (Hends c Hc). split; [now apply Hnul | now split]. }
      rewrite Hwhole.
      change (screen (display_termRefresh ?s)) with (screen s).
      split; [exact Hscr | exact Hidx].
  - intros Hnormal.
    rewrite term_printString_finish, print_loop_run. unfold finish.
    now rewrite Hnormal.
  - destruct (draws_before_refresh str st) as (st' & -> & _ & _ & evs & Hd & Hev).
    exists evs. split; [| exact Hev].
    cbn. now rewrite Hd, app_assoc.
  - intros chr rest Hnul Hne.
    rewrite (term_printString_finish (chr :: rest)).
    rewrite print_loop_cons by assumption.
    unfold print_step at 1; cbn [state term escBuffer].
    apply Ascii.eqb_neq in Hne. rewrite Hne.
    apply print_after_normal.
Qed.

End WithConfig.

Lemma print_string_drains_witness :
  take 4 (screen (term_printString (cfg := vt52_config)
                    ["a"; "b"; "027"; "Y"]%char blank_term))
    = ["a"; "b"; "027"; "Y"]%char /\
  cursor_index (cfg := vt52_config)
    (term_printString (cfg := vt52_config)
       ["a"; "b"; "027"; "Y"]%char blank_term) = 4.
Proof.
  pose proof (print_string_drains (cfg := vt52_config)
                ["a"; "b"; "027"; "Y"]%char blank_term) as H.
  cbv zeta in H. destruct H as (_ & Hflush & _).
  destruct (Hflush eq_refl) as (pre & tail & Hsplit & _ & _ & _ & Hscreen).
  cbn in Hsplit.
  destruct pre as [| p1 [| p2 [| p3 [| p4 pre]]]]; cbn in Hsplit;
    try discriminate Hsplit;
    [| exfalso; injection Hsplit as _ _ _ _ Hnil;
       destruct pre; discriminate Hnil].
  injection Hsplit as <- <- <-.
  destruct Hscreen as [Hscr Hidx].
  - exact vt52_grid_ok.
  - vm_compute. intuition discriminate.
  - reflexivity.
  - repeat constructor; discriminate.
  - reflexivity.
  - split; [rewrite Hscr; reflexivity | rewrite Hidx; reflexivity].
Defined.

End PrintStringProperties.

(** * The dispatch of a line *)

Module DispatchProperties.
Import Term TermExtra Dispatch TermProperties.

(** ** The split of the line *)

(** A conversion of width [n] stores at most [n] characters of the field
    and leaves the others in the input. *)
Lemma scan_field_take ok n : forall field l,
  Forall (fun c => ok c = true) field ->
  match l with [] => True | c :: _ => ok c = false end ->
  scan_field ok n (field ++ l) = (take n field, drop n field ++ l).
Proof.
  induction n as [| n IH]; intros field l Hfield Hl.
  - change (take 0 field) with (@nil ascii).
    change (drop 0 field) with field. now destruct (field ++ l).
  - destruct Hfield as [| c field Hc Hfield]; cbn [app take drop scan_field].
    + destruct l as [| d l]; [reflexivity |]. now rewrite Hl.
    + now rewrite Hc, (IH field l Hfield Hl).
Qed.

Lemma sscanf_cut lead word sep rest :
  Forall (fun c => isspace c = true) lead ->
  word <> [] -> Forall (fun c => isspace c = false) word ->
  Forall (fun c => isspace c = true) sep ->
  (sep <> [] \/ rest = []) ->
  starts_visible rest ->
  Forall (fun c => c <> LF) rest ->
  let split := sscanf_command_arg (lead ++ word ++ sep ++ rest) in
  fst split = take 63 word /\
  ((length word <= 63)%nat -> snd split = take 63 rest) /\
  ((63 < length word)%nat -> Forall (fun c => c <> LF) sep ->
   snd split = take 63 (drop 63 word ++ sep ++ rest)).
Proof.
  intros Hlead Hne Hword Hsep Hgap Hvis Hrest. cbv zeta.
  assert (Hnolf : forall l, Forall (fun c => c <> LF) l ->
            Forall (fun c => negb (c =? LF)%char = true) l).
  { intros l Hl. eapply Forall_impl; [exact Hl |].
    intros c Hc. cbn. now destruct (Ascii.eqb_spec c LF). }
  unfold sscanf_command_arg. rewrite skip_space_spaces by assumption.
  rewrite skip_space_visible
    by (destruct word as [| c t]; [easy | now inversion Hword]).
  destruct (word ++ sep ++ rest) as [| c0 l0] eqn:Hline;
    [destruct word; [easy | discriminate Hline] |].
  rewrite <- Hline.
  rewrite (scan_field_take _ 63 word (sep ++ rest)).
  - destruct (scan_field _ 63 (skip_space (drop 63 word ++ sep ++ rest)))
      as [arg remaining] eqn:Harg.
    cbn [fst snd]. split; [reflexivity |]. split.
    + intros Hlen. rewrite drop_ge in Harg by exact Hlen.
      cbn [app] in Harg.
      rewrite skip_space_spaces, skip_space_visible in Harg by assumption.
      rewrite <- (app_nil_r rest) in Harg.
      rewrite (scan_field_take _ 63 rest []) in Harg;
        [congruence | now apply Hnolf | exact I].
    + intros Hlen Hseplf.
      assert (Hstart : starts_visible (drop 63 word ++ sep ++ rest)).
      { destruct (drop 63 word) as [| c t] eqn:Hdrop.
        - apply (f_equal length) in Hdrop. rewrite length_drop in Hdrop.
          cbn in Hdrop. lia.
        - assert (Hin : Forall (fun c => isspace c = false) (c :: t))
            by (rewrite <- Hdrop; now apply Forall_drop).
          now inversion Hin. }
      rewrite skip_space_visible in Harg by exact Hstart.
      rewrite <- (app_nil_r (drop 63 word ++ sep ++ rest)) in Harg.
      rewrite (scan_field_take _ 63 _ []) in Harg; [congruence | | exact I].
      apply Hnolf. repeat apply Forall_app_2; try assumption.
      apply Forall_drop. eapply Forall_impl; [exact Hword |].
      intros c Hc ->. discriminate Hc.
  - eapply Forall_impl; [exact Hword |]. intros c Hc. cbn. now rewrite Hc.
  - destruct sep as [| s sep']; cbn.
    + destruct Hgap as [Hgap | ->]; [easy | exact I].
    + inversion Hsep; subst. cbn.
      match goal with H : isspace s = true |- _ => now rewrite H end.
Qed.

(** ** The two loops over the registry *)

Lemma entries_named_app token pre post :
  entries_named token (pre ++ post) =
  entries_named token pre ++ entries_named token post.
Proof. apply List.filter_app. Qed.

Lemma fallback_entries_app pre post :
  fallback_entries (pre ++ post) =
  fallback_entries pre ++ fallback_entries post.
Proof. apply List.filter_app. Qed.

Lemma invoke_all_app before after arg st :
  invoke_all (before ++ after) arg st =
  invoke_all after arg (invoke_all before arg st).
Proof. apply foldl_app. Qed.

Lemma invoke_on_input_app before after st :
  invoke_on_input (before ++ after) st =
  invoke_on_input after (invoke_on_input before st).
Proof. apply foldl_app. Qed.

Lemma invoke_all_input entries arg : forall st,
  Forall keeps_input entries ->
  inputBuffer (invoke_all entries arg st) = inputBuffer st.
Proof.
  induction entries as [| e rest IH]; intros st H; [reflexivity |].
  inversion H as [| ? ? He Hrest]; subst. cbn [invoke_all foldl].
  change (inputBuffer (invoke_all rest arg (handler e arg st)) =
          inputBuffer st).
  now rewrite IH, He.
Qed.

(** Handlers that leave the input buffer alone all get the same string. *)
Lemma invoke_on_input_kept entries : forall st,
  Forall keeps_input entries ->
  invoke_on_input entries st = invoke_all entries (cstr (inputBuffer st)) st /\
  inputs_seen entries st = map (fun _ => cstr (inputBuffer st)) entries.
Proof.
  induction entries as [| e rest IH]; intros st H; [now split |].
  inversion H as [| ? ? He Hrest]; subst.
  destruct (IH (handler e (cstr (inputBuffer st)) st) Hrest) as [H1 H2].
  rewrite He in H1, H2. split.
  - exact H1.
  - cbn [inputs_seen map]. now rewrite H2.
Qed.

Section WithConfig.

Context {cfg : Config}.

Lemma run_matching_filter commands : forall i token arg st,
  run_matching i commands token arg st =
  (invoke_all (entries_named token commands) arg st,
   map (fun j => (j, arg))
       (indices_where (fun entry => strcmp_eq token (command entry))
                      i commands),
   match entries_named token commands with [] => false | _ => true end).
Proof.
  induction commands as [| e rest IH]; intros i token arg st; [reflexivity |].
  cbn [run_matching indices_where]. unfold entries_named.
  cbn [List.filter]. fold (entries_named token rest).
  destruct (strcmp_eq token (command e)).
  - now rewrite IH.
  - apply IH.
Qed.

Lemma run_fallback_filter commands : forall i st,
  run_fallback i commands st =
  (invoke_on_input (fallback_entries commands) st,
   combine (indices_where (fun entry => strlen (command entry) =? 0)
                          i commands)
           (inputs_seen (fallback_entries commands) st)).
Proof.
  induction commands as [| e rest IH]; intros i st; [reflexivity |].
  cbn [run_fallback indices_where]. unfold fallback_entries.
  cbn [List.filter]. fold (fallback_entries rest).
  destruct (strlen (command e) =? 0).
  - now rewrite IH.
  - apply IH.
Qed.

End WithConfig.

(** The indices of the entries that satisfy [p] are the places of these
    entries in the registry. *)
Lemma indices_where_entries p commands : forall i,
  Forall2 (fun j entry => (i <= j)%nat /\ commands !! (j - i)%nat = Some entry)
          (indices_where p i commands) (List.filter p commands).
Proof.
  induction commands as [| e rest IH]; intros i; [constructor |].
  assert (Hrest : Forall2
            (fun j entry =>
               (i <= j)%nat /\ (e :: rest) !! (j - i)%nat = Some entry)
            (indices_where p (S i) rest) (List.filter p rest)).
  { eapply Forall2_impl; [apply (IH (S i)) |].
    intros j entry [Hle Hj]. split; [lia |].
    replace (j - i)%nat with (S (j - S i)) by lia. exact Hj. }
  cbn [indices_where List.filter]. destruct (p e); [| exact Hrest].
  constructor; [| exact Hrest].
  split; [lia |]. now rewrite Nat.sub_diag.
Qed.

Lemma combine_same {A B C} (l : list A) (k : list C) (b : B) :
  length l = length k ->
  combine l (map (fun _ => b) k) = map (fun a => (a, b)) l.
Proof.
  revert k. induction l as [| a l IH]; intros [| c k] Hlen;
    try discriminate Hlen; [reflexivity |].
  cbn. f_equal. apply IH. now injection Hlen.
Qed.

(** An entry named like the token runs on the argument, after the entries
    of that name before it and before those after it. *)
Lemma matched_entry_runs token arg pre entry post st (other : State) :
  strcmp_eq token (command entry) = true ->
  match entries_named token (pre ++ entry :: post), token with
  | [], _ :: _ => other
  | matching, _ => invoke_all matching arg st
  end =
  invoke_all (entries_named token post) arg
    (handler entry arg (invoke_all (entries_named token pre) arg st)).
Proof.
  intros Hname.
  assert (Hsplit : entries_named token (pre ++ entry :: post) =
                   entries_named token pre ++
                   entry :: entries_named token post).
  { rewrite entries_named_app. unfold entries_named at 2.
    cbn [List.filter]. now rewrite Hname. }
  rewrite Hsplit.
  transitivity (invoke_all (entries_named token pre ++
                            entry :: entries_named token post) arg st).
  - now destruct (entries_named token pre), token.
  - now rewrite invoke_all_app.
Qed.

(** A fallback entry runs on the line when the fallback entries before it
    have left the input buffer alone. *)
Lemma fallback_entry_runs pre entry post st :
  strlen (command entry) = 0 ->
  Forall keeps_input (fallback_entries pre) ->
  invoke_on_input (fallback_entries (pre ++ entry :: post)) st =
  invoke_on_input (fallback_entries post)
    (handler entry (cstr (inputBuffer st))
       (invoke_all (fallback_entries pre) (cstr (inputBuffer st)) st)).
Proof.
  intros Hname Hkeep.
  rewrite fallback_entries_app. unfold fallback_entries at 2.
  cbn [List.filter]. rewrite Hname. cbn [Z.eqb].
  fold (fallback_entries post).
  rewrite invoke_on_input_app.
  destruct (invoke_on_input_kept (fallback_entries pre) st Hkeep) as [-> _].
  unfold invoke_on_input at 1. cbn [foldl].
  now rewrite invoke_all_input by exact Hkeep.
Qed.

Lemma no_entry_named token commands :
  Forall (fun entry => cstr (command entry) <> cstr token) commands ->
  entries_named token commands = [].
Proof.
  induction 1 as [| e rest He _ IH]; [reflexivity |].
  unfold entries_named. cbn [List.filter]. fold (entries_named token rest).
  destruct (strcmp_eq token (command e)) eqn:Heq; [| exact IH].
  apply str_eqb_eq in Heq. now symmetry in Heq.
Qed.

Section Newline.

Context {cfg : Config}.

(** What a line end does, in one equation. *)
Lemma newline_dispatch commands chr st :
  chr = LF \/ chr = CR ->
  let line := cstr (inputBuffer st) in
  let token := fst (sscanf_command_arg line) in
  let arg := snd (sscanf_command_arg line) in
  let st1 := termRenderChar LF st in
  termInputChar commands chr st =
  (fresh_prompt
     match entries_named token commands, token with
     | [], _ :: _ => invoke_on_input (fallback_entries commands) st1
     | matching, _ => invoke_all matching arg st1
     end,
   map (fun i => (i, arg)) (named token commands) ++
   match entries_named token commands, token with
   | [], _ :: _ =>
       combine (unnamed commands)
               (inputs_seen (fallback_entries commands) st1)
   | _, _ => []
   end).
Proof.
  intros Hchr line token arg st1.
  rewrite newline_steps by assumption. cbv zeta.
  destruct (draws_termRenderChar LF st) as (Hbuf & _).
  rewrite Hbuf. fold line token arg st1.
  rewrite run_matching_filter. cbn [fst snd]. fold (named token commands).
  assert (Hlen : (0 <? strlen token) =
                 match token with [] => false | _ => true end).
  { unfold strlen. rewrite cstr_nul_free
      by (apply token_no_NUL, cstr_no_NUL).
    destruct token; reflexivity. }
  rewrite Hlen.
  destruct (entries_named token commands) as [| e matching];
    cbn [negb andb]; [| reflexivity].
  destruct token as [| c t]; [reflexivity |].
  rewrite run_fallback_filter. reflexivity.
Qed.

Lemma fresh_prompt_input st :
  inputLength (fresh_prompt st) = 0 /\
  inputBuffer (fresh_prompt st) =
    replicate (Z.to_nat TERM_INPUT_BUFFER_SIZE) NUL ++
    drop (Z.to_nat TERM_INPUT_BUFFER_SIZE) (inputBuffer st).
Proof.
  unfold fresh_prompt. cbv zeta.
  cbn [inputLength inputBuffer display_termRefresh display_call].
  rewrite (proj1 (term_printString_input _ _)),
          (proj2 (term_printString_input _ _)).
  now split.
Qed.

(** The line the editor holds after plain keys typed into an empty line. *)
Lemma typed_line commands keys chr st0 :
  Forall plain keys -> Forall (fun c => c <> NUL) keys ->
  holds_line st0 [] ->
  Z.of_nat (length keys) < TERM_INPUT_BUFFER_SIZE ->
  cstr (inputBuffer (fst (type_keys commands keys st0))) = keys /\
  fst (type_keys commands (keys ++ [chr]) st0) =
  fst (termInputChar commands chr (fst (type_keys commands keys st0))).
Proof.
  intros Hplain Hnul Hfresh Hroom.
  destruct (type_plain_keys commands keys st0 [] Hplain Hfresh)
    as [[_ Hbuf] _]; [cbn; lia |].
  cbn [app] in Hbuf. split.
  - now rewrite Hbuf, cstr_app_nul.
  - rewrite type_keys_app. cbv zeta. cbn [fst]. now rewrite type_keys_one.
Qed.

(** C3.  On a line end [termInputChar] shows the line end, splits the line
    into its first blank-delimited word and the rest of the line, each cut
    at 63 characters, and calls the handlers for real: the state it leaves
    is the one reached by running, in registry order, the handler of every
    entry named like the word on that rest, or, when no entry has that name
    and the word is not empty, the handler of every entry with an empty
    name on the input buffer, and by then zeroing the input buffer and
    printing the prompt.  The input buffer is handed over itself: the first
    fallback handler finds the whole line in it, and so does a later one
    when those before it have left the buffer alone.  Typing [help] and a
    line end runs a registered [help] handler on the empty string; typing
    [put_int foo 42] and a line end, with no entry of that name, runs a
    fallback handler on that line. *)
Theorem line_end_dispatches
    (commands : list Command) (chr : ascii) (st : State) :
  chr = LF \/ chr = CR ->
  let line := cstr (inputBuffer st) in
  let token := fst (sscanf_command_arg line) in
  let arg := snd (sscanf_command_arg line) in
  let size := Z.to_nat TERM_INPUT_BUFFER_SIZE in
  let prompt := fun s : State =>
    display_termRefresh
      (term_printString [">"; " "]%char
         (set_input (replicate size NUL ++ drop size (inputBuffer s)) 0 s)) in
  let st1 := termRenderChar LF st in
  let handled :=
    match entries_named token commands, token with
    | [], _ :: _ => invoke_on_input (fallback_entries commands) st1
    | matching, _ => invoke_all matching arg st1
    end in
  let st' := fst (termInputChar commands chr st) in
  let log := snd (termInputChar commands chr st) in
  (forall lead word sep rest,
     line = lead ++ word ++ sep ++ rest ->
     Forall (fun c => isspace c = true) lead ->
     word <> [] -> Forall (fun c => isspace c = false) word ->
     Forall (fun c => isspace c = true) sep -> (sep <> [] \/ rest = []) ->
     starts_visible rest -> Forall (fun c => c <> LF) rest ->
     token = take 63 word /\
     ((length word <= 63)%nat -> arg = take 63 rest) /\
     ((63 < length word)%nat -> Forall (fun c => c <> LF) sep ->
      arg = take 63 (drop 63 word ++ sep ++ rest))) /\
  st' = prompt handled /\
  (forall pre entry post,
     commands = pre ++ entry :: post ->
     strcmp_eq token (command entry) = true ->
     handled =
       invoke_all (entries_named token post) arg
         (handler entry arg
            (invoke_all (entries_named token pre) arg st1))) /\
  (forall pre entry post,
     commands = pre ++ entry :: post ->
     entries_named token commands = [] -> token <> [] ->
     strlen (command entry) = 0 ->
     Forall keeps_input (fallback_entries pre) ->
     handled =
       invoke_on_input (fallback_entries post)
         (handler entry line
            (invoke_all (fallback_entries pre) line st1))) /\
  (entries_named token commands = [] -> token <> [] ->
   Forall keeps_input (fallback_entries commands) ->
   handled = invoke_all (fallback_entries commands) line st1) /\
  log =
    map (fun i => (i, arg)) (named token commands) ++
    match entries_named token commands, token with
    | [], _ :: _ =>
        combine (unnamed commands)
                (inputs_seen (fallback_entries commands) st1)
    | _, _ => []
    end /\
  Forall2 (fun i entry => commands !! i = Some entry)
          (named token commands) (entries_named token commands) /\
  Forall2 (fun i entry => commands !! i = Some entry)
          (unnamed commands) (fallback_entries commands) /\
  (Forall keeps_input (fallback_entries commands) ->
   log =
     map (fun i => (i, arg)) (named token commands) ++
     match entries_named token commands, token with
     | [], _ :: _ => map (fun i => (i, line)) (unnamed commands)
     | _, _ => []
     end) /\
  inputLength st' = 0 /\
  inputBuffer st' = replicate size NUL ++ drop size (inputBuffer handled) /\
  ((length (inputBuffer handled) <= size)%nat ->
   inputBuffer st' = replicate size NUL) /\
  (forall st0 pre h post,
     holds_line st0 [] -> 4 < TERM_INPUT_BUFFER_SIZE ->
     commands = pre ++ mkCommand (list_ascii_of_string "help") h :: post ->
     let help := list_ascii_of_string "help" in
     let shown := termRenderChar LF (fst (type_keys commands help st0)) in
     fst (type_keys commands (help ++ [chr]) st0) =
       prompt (invoke_all (entries_named help post) []
                 (h [] (invoke_all (entries_named help pre) [] shown)))) /\
  (forall st0 pre u post,
     holds_line st0 [] -> 14 < TERM_INPUT_BUFFER_SIZE ->
     commands = pre ++ mkCommand [] u :: post ->
     Forall (fun entry =>
               cstr (command entry) <> list_ascii_of_string "put_int")
            commands ->
     Forall keeps_input (fallback_entries pre) ->
     let typed := list_ascii_of_string "put_int foo 42" in
     let shown := termRenderChar LF (fst (type_keys commands typed st0)) in
     fst (type_keys commands (typed ++ [chr]) st0) =
       prompt (invoke_on_input (fallback_entries post)
                 (u typed (invoke_all (fallback_entries pre) typed shown)))).
Proof.
  intros Hchr line token arg size prompt st1 handled st' log.
  assert (Hprompt : prompt = fresh_prompt) by reflexivity.
  clearbody prompt. subst prompt.
  pose proof (newline_dispatch commands chr st Hchr) as Hstep.
  cbv zeta in Hstep. fold line token arg st1 handled in Hstep.
  assert (Hst' : st' = fresh_prompt handled) by (subst st'; now rewrite Hstep).
  assert (Hlog : log =
            map (fun i => (i, arg)) (named token commands) ++
            match entries_named token commands, token with
            | [], _ :: _ =>
                combine (unnamed commands)
                        (inputs_seen (fallback_entries commands) st1)
            | _, _ => []
            end) by (subst log; now rewrite Hstep).
  assert (Hbuf : inputBuffer st1 = inputBuffer st)
    by apply draws_termRenderChar.
  assert (Hunnamed : Forall2 (fun i entry => commands !! i = Some entry)
                       (unnamed commands) (fallback_entries commands)).
  { eapply Forall2_impl; [apply (indices_where_entries _ commands 0) |].
    intros i entry [_ Hi]. now rewrite Nat.sub_0_r in Hi. }
  split; [| split; [| split; [| split; [| split; [| split; [| split;
    [| split; [| split; [| split; [| split; [| split; [| split]]]]]]]]]]]].
  - intros lead word sep rest Hline Hlead Hne Hword Hsep Hgap Hvis Hrest.
    subst token arg. rewrite Hline.
    now apply sscanf_cut.
  - exact Hst'.
  - intros pre entry post -> Hname. subst handled.
    now apply matched_entry_runs.
  - intros pre entry post -> Hnone Hne Hname Hkeep. subst handled.
    rewrite Hnone. destruct token as [| c t]; [easy |].
    rewrite (fallback_entry_runs pre entry post st1 Hname Hkeep).
    now rewrite Hbuf.
  - intros Hnone Hne Hkeep. subst handled.
    rewrite Hnone. destruct token as [| c t]; [easy |].
    destruct (invoke_on_input_kept (fallback_entries commands) st1 Hkeep)
      as [-> _].
    now rewrite Hbuf.
  - exact Hlog.
  - eapply Forall2_impl; [apply (indices_where_entries _ commands 0) |].
    intros i entry [_ Hi]. now rewrite Nat.sub_0_r in Hi.
  - exact Hunnamed.
  - intros Hkeep. rewrite Hlog. f_equal.
    destruct (entries_named token commands); [| reflexivity].
    destruct token as [| c t]; [reflexivity |].
    destruct (invoke_on_input_kept (fallback_entries commands) st1 Hkeep)
      as [_ ->].
    rewrite Hbuf. apply combine_same.
    now apply Forall2_length in Hunnamed.
  - rewrite Hst'. apply fresh_prompt_input.
  - rewrite Hst'. apply fresh_prompt_input.
  - intros Hlen. rewrite Hst', (proj2 (fresh_prompt_input _)).
    rewrite drop_ge by exact Hlen. apply app_nil_r.
  - intros st0 pre h post Hfresh Hroom Hcmds help shown.
    destruct (typed_line commands help chr st0) as [Hline ->];
      [repeat constructor; unfold BS, LF, CR; discriminate
      | repeat constructor; unfold NUL; discriminate
      | assumption | cbn; lia |].
    rewrite newline_dispatch by assumption. cbv zeta. cbn [fst].
    rewrite Hline.
    change (sscanf_command_arg help) with (help, @nil ascii).
    cbn [fst snd]. fold shown. f_equal. rewrite Hcmds.
    now apply matched_entry_runs.
  - intros st0 pre u post Hfresh Hroom Hcmds Hnone Hkeep typed shown.
    destruct (typed_line commands typed chr st0) as [Hline ->];
      [repeat constructor; unfold BS, LF, CR; discriminate
      | repeat constructor; unfold NUL; discriminate
      | assumption | cbn; lia |].
    rewrite newline_dispatch by assumption. cbv zeta. cbn [fst].
    rewrite Hline.
    change (sscanf_command_arg typed)
      with (list_ascii_of_string "put_int", list_ascii_of_string "foo 42").
    cbn [fst snd]. fold shown. f_equal.
    rewrite (no_entry_named (list_ascii_of_string "put_int") commands Hnone).
    change (list_ascii_of_string "put_int")
      with ("p"%char :: list_ascii_of_string "ut_int").
    cbv iota. rewrite Hcmds.
    rewrite (fallback_entry_runs pre (mkCommand [] u) post shown eq_refl Hkeep).
    assert (Hshown : cstr (inputBuffer shown) = typed).
    { subst shown.
      now rewrite (proj1 (draws_termRenderChar LF _)), Hline. }
    now rewrite Hshown.
Qed.

End Newline.

(** ** The dispatch on a 40 x 24 terminal *)

(** [help] and a line end: the [help] handler of [echo_commands] has
    printed its tag and the empty argument on the second row, the prompt
    follows.  [put_int foo 42] and a line end: the fallback handler has
    printed the whole line.  A line with blanks around its first word is
    split into that word and what follows the blanks. *)
Lemma line_end_dispatches_witness :
  take 7 (drop 40 (screen (fst (type_keys (cfg := vt52_config) echo_commands
                                  (list_ascii_of_string "help" ++ [LF])
                                  blank_term)))) =
    list_ascii_of_string "help:> " /\
  take 16 (drop 40 (screen (fst (type_keys (cfg := vt52_config) echo_commands
                                   (list_ascii_of_string "put_int foo 42"
                                    ++ [LF])
                                   blank_term)))) =
    list_ascii_of_string "put_int foo 42> " /\
  sscanf_command_arg (list_ascii_of_string "  get  my key ") =
    (list_ascii_of_string "get", list_ascii_of_string "my key ").
Proof.
  pose proof (line_end_dispatches (cfg := vt52_config) echo_commands LF
                blank_term (or_introl eq_refl)) as H.
  cbv zeta in H.
  destruct H as (_ & _ & _ & _ & _ & _ & _ & _ & _ & _ & _ & _ & Hhelp & Hput).
  pose proof (line_end_dispatches (cfg := vt52_config) echo_commands LF
                (set_input (list_ascii_of_string "  get  my key ") 14
                           blank_term)
                (or_introl eq_refl)) as H.
  cbv zeta in H. destruct H as (Hsplit & _).
  split; [| split].
  - rewrite (Hhelp blank_term [] _ _ (conj eq_refl eq_refl) eq_refl eq_refl).
    vm_compute. reflexivity.
  - rewrite (Hput blank_term [_] _ [] (conj eq_refl eq_refl) eq_refl eq_refl).
    + vm_compute. reflexivity.
    + repeat constructor; cbn; discriminate.
    + constructor.
  - destruct (Hsplit (list_ascii_of_string "  ") (list_ascii_of_string "get")
                (list_ascii_of_string "  ") (list_ascii_of_string "my key ")
                eq_refl)
      as (Htoken & Harg & _).
    + repeat constructor.
    + discriminate.
    + repeat constructor.
    + repeat constructor.
    + left. discriminate.
    + reflexivity.
    + repeat (constructor; [discriminate |]). constructor.
    + apply injective_projections; [exact Htoken | apply Harg; cbn; lia].
Defined.

(** Two fallback entries, the first of which calls
    [term_clearInputBuffer]: after [foo] and a line end the second has been
    called with the empty string, not with the line, and the second row
    shows the prompt alone; called with the line it would have printed
    [foo] before the prompt. *)
Lemma later_fallback_sees_cleared_buffer :
  named (list_ascii_of_string "foo") clearing_commands = [] /\
  unnamed clearing_commands = [0%nat; 1%nat] /\
  snd (type_keys (cfg := vt52_config) clearing_commands
         (list_ascii_of_string "foo" ++ [LF]) blank_term) =
    [(0%nat, list_ascii_of_string "foo"); (1%nat, [])] /\
  take 5 (drop 40 (screen (fst (type_keys (cfg := vt52_config)
                                  clearing_commands
                                  (list_ascii_of_string "foo" ++ [LF])
                                  blank_term)))) =
    [">"; " "; NUL; NUL; NUL]%char /\
  take 5 (drop 40 (screen
     (fresh_prompt (cfg := vt52_config)
        (invoke_all clearing_commands (list_ascii_of_string "foo")
           (termRenderChar (cfg := vt52_config) LF
              (fst (type_keys (cfg := vt52_config) clearing_commands
                      (list_ascii_of_string "foo") blank_term))))))) =
    list_ascii_of_string "foo> ".
Proof. vm_compute. repeat split. Qed.

End DispatchProperties.
